(** * GainTransition: a shallow embedding of
      audiomentations/augmentations/gain_transition.py

    Python integers are [Z]; Python and NumPy floating-point numbers are
    idealised as the real numbers [R] (rounding to 32 or 64 bits is not
    represented), but for the fade mask, whose rounding to float32 is
    written out in [get_fade_mask_float32]; NumPy arrays live in a store
    indexed by object identity, so that copying and in-place updates can be
    told apart. *)

From Stdlib Require Import ZArith List String Bool Lia Reals Lra.
From stdpp Require Import base option list gmap.
Import ListNotations.

Local Open Scope string_scope.
Local Open Scope Z_scope.

(** ** Python exceptions and the state-and-exception monad *)

Inductive exn : Type :=
| ValueError (msg : string)
| AssertionError
| KeyError (key : string)
| TypeError (msg : string).

Inductive result (A : Type) : Type :=
| Ok (a : A)
| Raise (e : exn).
Arguments Ok {A} a.
Arguments Raise {A} e.

Definition is_ok {A} (r : result A) : bool :=
  match r with Ok _ => true | Raise _ => false end.

(** A computation over a mutable state [S] that may raise: the state reached
    when the exception is raised is kept, as Python keeps the side effects
    made before a [raise]. *)
Definition M (S A : Type) : Type := S -> result A * S.

Definition ret {S A} (a : A) : M S A := fun s => (Ok a, s).

Definition bind {S A B} (m : M S A) (k : A -> M S B) : M S B :=
  fun s => match m s with
           | (Ok a, s') => k a s'
           | (Raise e, s') => (Raise e, s')
           end.

Definition raise {S A} (e : exn) : M S A := fun s => (Raise e, s).
Definition get {S} : M S S := fun s => (Ok s, s).
Definition put {S} (s : S) : M S unit := fun _ => (Ok tt, s).
Definition modify {S} (f : S -> S) : M S unit := fun s => (Ok tt, f s).
Definition lift_result {S A} (r : result A) : M S A := fun s => (r, s).
Definition py_assert {S} (b : bool) : M S unit :=
  if b then ret tt else raise AssertionError.

Declare Scope py_scope.
Delimit Scope py_scope with py.
Notation "x <- c ;; k" := (bind c (fun x => k))
  (at level 100, c at next level, right associativity) : py_scope.
Notation "c ;;; k" := (bind c (fun _ => k))
  (at level 100, right associativity) : py_scope.

(** ** Python sequence slicing (step 1) *)

Module Py.

(** The adjustment CPython applies to one bound of [l[start:stop]]: a
    negative bound counts from the end, and every bound is clamped to
    [0, len]. *)
Definition adjust_index (len i : Z) : Z :=
  if i <? 0 then Z.max (i + len) 0 else Z.min i len.

Definition slice_bounds (len : Z) (start stop : option Z) : Z * Z :=
  (match start with Some a => adjust_index len a | None => 0 end,
   match stop with Some b => adjust_index len b | None => len end).

Definition len {A} (l : list A) : Z := Z.of_nat (length l).

(** [slice l start stop] is [l[start:stop]]; [None] is an omitted bound. *)
Definition slice {A} (l : list A) (start stop : option Z) : list A :=
  let '(a, b) := slice_bounds (len l) start stop in
  firstn (Z.to_nat (b - a)) (skipn (Z.to_nat a) l).

Lemma adjust_index_range (n i : Z) :
  0 <= n -> 0 <= adjust_index n i <= n.
Proof. unfold adjust_index. destruct (i <? 0) eqn:E; lia. Qed.

Lemma slice_bounds_range (n : Z) (start stop : option Z) :
  0 <= n ->
  0 <= fst (slice_bounds n start stop) <= n /\
  0 <= snd (slice_bounds n start stop) <= n.
Proof.
  intros Hn. unfold slice_bounds. simpl.
  destruct start as [a|], stop as [b|];
    pose proof (adjust_index_range n 0 Hn);
    try pose proof (adjust_index_range n a Hn);
    try pose proof (adjust_index_range n b Hn); lia.
Qed.

Lemma len_nonneg {A} (l : list A) : 0 <= len l.
Proof. unfold len. lia. Qed.

Lemma len_slice {A} (l : list A) (start stop : option Z) :
  len (slice l start stop) =
  Z.max 0 (snd (slice_bounds (len l) start stop)
           - fst (slice_bounds (len l) start stop)).
Proof.
  unfold slice.
  pose proof (slice_bounds_range (len l) start stop (len_nonneg l)) as [Ha Hb].
  destruct (slice_bounds (len l) start stop) as [a b]. simpl in *.
  unfold len in *. rewrite length_firstn, length_skipn. lia.
Qed.

End Py.

(** ** Python numbers, as far as the transform uses them *)

Definition Rltb (x y : R) : bool := if Rlt_dec x y then true else false.
Definition Rleb (x y : R) : bool := if Rle_dec x y then true else false.

Lemma Rltb_true (x y : R) : Rltb x y = true <-> (x < y)%R.
Proof. unfold Rltb. destruct (Rlt_dec x y); split; intros; try discriminate; tauto. Qed.

Lemma Rleb_true (x y : R) : Rleb x y = true <-> (x <= y)%R.
Proof. unfold Rleb. destruct (Rle_dec x y); split; intros; try discriminate; tauto. Qed.

(** A duration is given as an [int] or as a [float]. *)
Inductive number : Type :=
| PyInt (z : Z)
| PyFloat (x : R).

Definition to_R (n : number) : R :=
  match n with PyInt z => IZR z | PyFloat x => x end.

Definition num_lt (a b : number) : bool := Rltb (to_R a) (to_R b).
Definition num_le (a b : number) : bool := Rleb (to_R a) (to_R b).

(** [a * k] for an integer [k]: an integer stays an integer. *)
Definition num_mul_int (a : number) (k : Z) : number :=
  match a with
  | PyInt z => PyInt (z * k)
  | PyFloat x => PyFloat (x * IZR k)
  end.

(** [round(x)] on a float rounds to the nearest integer, ties to even. *)
Definition round_half_even (x : R) : Z :=
  let f := Int_part x in
  let d := frac_part x in
  if Rlt_dec d (1 / 2) then f
  else if Rlt_dec (1 / 2) d then f + 1
  else if Z.even f then f else f + 1.

(** [int(round(n))] *)
Definition int_round (n : number) : Z :=
  match n with
  | PyInt z => z
  | PyFloat x => round_half_even x
  end.

(** ** The random source (Python's module [random]) *)

(** The generator state is threaded explicitly. [random_float] is
    [random.random()], [randbelow n] is the private [_randbelow(n)] that
    [randrange] and [randint] are built on. *)
Class RandomSource (G : Type) : Type := {
  random_float : G -> R * G;
  randbelow : Z -> G -> Z * G;
  random_float_range : forall g, (0 <= fst (random_float g) < 1)%R;
  randbelow_range : forall n g, 0 < n -> 0 <= fst (randbelow n g) < n
}.

Section Random.
Context {G : Type} `{RandomSource G}.

(** [random.randint(a, b)] is [randrange(a, b + 1)]: the bounds must be
    integers (a float is a [TypeError], as from Python 3.12 on) and the
    range must not be empty. *)
Definition randint (a b : number) : M G Z :=
  match a, b with
  | PyInt istart, PyInt b =>
      let istop := b + 1 in
      let width := istop - istart in
      if 0 <? width then
        (fun g => let '(r, g') := randbelow width g in (Ok (istart + r), g'))
      else raise (ValueError "empty range in randrange")
  | _, _ => raise (TypeError "'float' object cannot be interpreted as an integer")
  end.

(** [random.uniform(a, b)] is [a + (b - a) * random()]. *)
Definition uniform (a b : R) : M G R :=
  fun g => let '(u, g') := random_float g in (Ok (a + (b - a) * u)%R, g').

Definition random : M G R :=
  fun g => let '(u, g') := random_float g in (Ok u, g').
End Random.

(** A concrete source: a tape of raw 53-bit draws read from a position. *)
Record tape : Type := { raw : nat -> Z; pos : nat }.

Definition tape_next (g : tape) : Z * tape :=
  (raw g (pos g), {| raw := raw g; pos := S (pos g) |}).

#[export] Program Instance tape_source : RandomSource tape := {|
  random_float g :=
    let '(r, g') := tape_next g in (IZR (r mod 2 ^ 53) / IZR (2 ^ 53), g')%R;
  randbelow n g :=
    let '(r, g') := tape_next g in (r mod n, g')
|}.
Next Obligation.
  intros g. cbn.
  pose proof (Z.mod_pos_bound (raw g (pos g)) (2 ^ 53) ltac:(lia)) as [Hlo Hhi].
  apply IZR_le in Hlo. apply IZR_lt in Hhi.
  assert (0 < IZR (2 ^ 53))%R by (apply IZR_lt; lia).
  split.
  - apply Rmult_le_pos; [exact Hlo | left; now apply Rinv_0_lt_compat].
  - apply (Rmult_lt_reg_r (IZR (2 ^ 53))); [assumption|].
    unfold Rdiv. rewrite Rmult_assoc, Rinv_l by lra. lra.
Qed.
Next Obligation.
  intros n g Hn. cbn. apply Z.mod_pos_bound. exact Hn.
Qed.

(** ** NumPy arrays *)

Module Np.

Inductive dtype : Type := float32 | float64.

(** A waveform is one-dimensional, shape [(samples,)], or two-dimensional,
    shape [(channels, samples)]. The second form records its number of
    columns, which an array without rows still has. *)
Inductive ndarray : Type :=
| Arr1 (dt : dtype) (data : list R)
| Arr2 (dt : dtype) (ncols : nat) (rows : list (list R)).

Definition wf (a : ndarray) : Prop :=
  match a with
  | Arr1 _ _ => True
  | Arr2 _ ncols rows => Forall (fun row => length row = ncols) rows
  end.

Definition dtype_of (a : ndarray) : dtype :=
  match a with Arr1 dt _ | Arr2 dt _ _ => dt end.

Definition shape (a : ndarray) : list Z :=
  match a with
  | Arr1 _ data => [Py.len data]
  | Arr2 _ ncols rows => [Py.len rows; Z.of_nat ncols]
  end.

(** [a.shape[-1]] *)
Definition shape_last (a : ndarray) : Z :=
  match a with
  | Arr1 _ data => Py.len data
  | Arr2 _ ncols _ => Z.of_nat ncols
  end.

(** The channels of a waveform: the array itself when it is one-dimensional. *)
Definition channels (a : ndarray) : list (list R) :=
  match a with
  | Arr1 _ data => [data]
  | Arr2 _ _ rows => rows
  end.

Definition map_last_axis (f : list R -> list R) (a : ndarray) : ndarray :=
  match a with
  | Arr1 dt data => Arr1 dt (f data)
  | Arr2 dt ncols rows => Arr2 dt ncols (map f rows)
  end.

(** Broadcasting a one-dimensional operand of an in-place operation to a
    target whose last axis has [k] entries: lengths agree, or the operand
    has a single entry that is repeated. *)
Definition broadcast_to (k : nat) (v : list R) : option (list R) :=
  if (length v =? k)%nat then Some v
  else match v with
       | [x] => Some (replicate k x)
       | _ => None
       end.

(** One row of [row[a:b] *= v], for adjusted bounds [a], [b] and an operand
    [v] already of the slice's length. *)
Definition imul_row (a b : Z) (v : list R) (row : list R) : list R :=
  let k := Z.to_nat (b - a) in
  firstn (Z.to_nat a) row
  ++ zip_with Rmult (firstn k (skipn (Z.to_nat a) row)) v
  ++ skipn (Z.to_nat a + k) row.

(** [arr[..., start:stop] *= v] for a one-dimensional array [v]. *)
Definition imul_slice (arr : ndarray) (start stop : option Z) (v : list R)
  : result ndarray :=
  let '(a, b) := Py.slice_bounds (shape_last arr) start stop in
  match broadcast_to (Z.to_nat (b - a)) v with
  | Some v' => Ok (map_last_axis (imul_row a b v') arr)
  | None => Raise (ValueError "operands could not be broadcast together")
  end.

(** [arr[..., start:stop] *= c] for a scalar [c]. *)
Definition imul_slice_scalar (arr : ndarray) (start stop : option Z) (c : R)
  : ndarray :=
  let '(a, b) := Py.slice_bounds (shape_last arr) start stop in
  map_last_axis (imul_row a b (replicate (Z.to_nat (b - a)) c)) arr.

(** [np.linspace(start, stop, num)] with the default [endpoint=True]:
    [num] evenly spaced points, the last of them set to [stop] when there
    is more than one; a negative [num] is rejected. *)
Definition linspace (start stop : R) (num : Z) : result (list R) :=
  if num <? 0 then Raise (ValueError "Number of samples must be non-negative")
  else
    let div := num - 1 in
    let delta := (stop - start)%R in
    let y := map (fun i => IZR (Z.of_nat i)) (seq 0 (Z.to_nat num)) in
    let y := if 0 <? div
             then map (fun v => v * (delta / IZR div) + start)%R y
             else map (fun v => v * delta + start)%R y in
    Ok (if 1 <? num then <[Nat.pred (length y) := stop]> y else y).

(** *** The store of arrays *)

Abbreviation loc := positive (only parsing).
Abbreviation heap := (gmap positive ndarray) (only parsing).

Definition deref (l : loc) : M heap ndarray :=
  fun h => match h !! l with
           | Some a => (Ok a, h)
           | None => (Raise (ValueError "dangling reference"), h)
           end.

Definition alloc (a : ndarray) : M heap loc :=
  fun h => let l := fresh (dom h) in (Ok l, <[l := a]> h).

Definition store (l : loc) (a : ndarray) : M heap unit :=
  fun h => (Ok tt, <[l := a]> h).

(** [np.copy(a)]: a new array object with the contents, shape and dtype
    of [a]. *)
Definition copy (l : loc) : M heap loc :=
  (a <- deref l ;; alloc a)%py.

(** The in-place updates, on the array object at [l]. *)
Definition imul_slice_at (l : loc) (start stop : option Z) (v : list R)
  : M heap unit :=
  (a <- deref l ;;
   a' <- lift_result (imul_slice a start stop v) ;;
   store l a')%py.

Definition imul_slice_scalar_at (l : loc) (start stop : option Z) (c : R)
  : M heap unit :=
  (a <- deref l ;; store l (imul_slice_scalar a start stop c))%py.

End Np.

(** ** Collaborators that are not part of the file under study *)

(** Modelled from the spec: [convert_decibels_to_amplitude_ratio] of
    [audiomentations.core.utils], of which only the contract is known: the
    pure function [db -> 10^(db/20)], scalar or elementwise. *)
Definition convert_decibels_to_amplitude_ratio (decibels : R) : R :=
  Rpower 10 (decibels / 20).

(** ** get_fade_mask *)

Definition get_fade_mask (start_level_db end_level_db : R)
  (fade_time_samples : Z) : result (list R) :=
  match Np.linspace start_level_db end_level_db fade_time_samples with
  | Ok fade_mask => Ok (map convert_decibels_to_amplitude_ratio fade_mask)
  | Raise e => Raise e
  end.

(** ** get_fade_mask in float32

    The mask is a float32 array ([dtype=np.float32], line 27), and the
    conversion of line 29 computes in float32 on it. Rounding to float32
    decides whether an entry is zero or infinite, which the real numbers
    cannot show, so it is written out here. *)

Module Binary32.

(** A binary32 value: a finite number, an infinity or a NaN. The sign of
    a zero is not kept; no operation below tells the two zeros apart. *)
Inductive float : Type :=
| Finite (x : R)
| Infinity (negative : bool)
| NaN.

(** The binade of [x <> 0]: [2^(ilog2 x) <= |x| < 2^(ilog2 x + 1)]. *)
Definition ilog2 (x : R) : Z := Int_part (ln (Rabs x) / ln 2).

(** The exponent of the last place of the binary32 numbers around [x]: 24
    significant bits, and never below that of the subnormal numbers,
    [2^-149]. *)
Definition ulp_exponent (x : R) : Z := Z.max (ilog2 x - 23) (-149).

(** To the nearest multiple of [2^ulp_exponent], ties to even. *)
Definition nearest (x : R) : R :=
  (IZR (round_half_even (x * powerRZ 2 (- ulp_exponent x)))
   * powerRZ 2 (ulp_exponent x))%R.

(** The binary32 value of a real number, as [astype(np.float32)] and
    every float32 operation give it: a magnitude that rounds to [2^128] or
    more is an infinity. *)
Definition round (x : R) : float :=
  if Rleb (powerRZ 2 128) (Rabs (nearest x)) then Infinity (Rltb x 0)
  else Finite (nearest x).

(** [a / 20] on a float32: the quotient, rounded. *)
Definition divide_by_20 (a : float) : float :=
  match a with
  | Finite x => round (x / 20)
  | _ => a
  end.

(** [10 ** a] on a float32: the power, taken as correctly rounded. *)
Definition power_of_10 (a : float) : float :=
  match a with
  | Finite x => round (Rpower 10 x)
  | Infinity true => Finite 0
  | Infinity false => Infinity false
  | NaN => NaN
  end.

(** The order of float32 values; a NaN compares with nothing. *)
Definition le (a b : float) : Prop :=
  match a, b with
  | NaN, _ | _, NaN => False
  | Infinity true, _ => True
  | _, Infinity false => True
  | Finite x, Finite y => (x <= y)%R
  | _, _ => False
  end.

Definition is_positive (a : float) : Prop :=
  match a with
  | Finite x => (0 < x)%R
  | Infinity negative => negative = false
  | NaN => False
  end.

Definition non_decreasing (l : list float) : Prop :=
  forall (i j : nat) (a b : float),
    (i <= j)%nat -> l !! i = Some a -> l !! j = Some b -> le a b.

Definition non_increasing (l : list float) : Prop :=
  forall (i j : nat) (a b : float),
    (i <= j)%nat -> l !! i = Some a -> l !! j = Some b -> le b a.

End Binary32.

(** Modelled from the spec: [convert_decibels_to_amplitude_ratio] on a
    float32 value, [10 ** (decibels / 20)] computed in float32: the
    quotient and the power are each rounded. *)
Definition convert_decibels_to_amplitude_ratio_float32
  (decibels : Binary32.float) : Binary32.float :=
  Binary32.power_of_10 (Binary32.divide_by_20 decibels).

(** [get_fade_mask] with its roundings to float32: [np.linspace] computes
    the levels in binary64, kept exact here, and casts them to float32;
    the conversion then works on the float32 array. [get_fade_mask] above
    is this function without the three roundings. *)
Definition get_fade_mask_float32 (start_level_db end_level_db : R)
  (fade_time_samples : Z) : result (list Binary32.float) :=
  match Np.linspace start_level_db end_level_db fade_time_samples with
  | Ok fade_mask =>
      Ok (map (fun level =>
                 convert_decibels_to_amplitude_ratio_float32
                   (Binary32.round level)) fade_mask)
  | Raise e => Raise e
  end.

(** ** class GainTransition *)

(** The dictionary [self.parameters]: a key that was never assigned is
    [None], and reading it is a [KeyError]. *)
Record parameters : Type := {
  should_apply : option bool;
  fade_time_samples : option Z;
  t0 : option Z;
  start_gain_db : option R;
  end_gain_db : option R
}.

Definition no_parameters : parameters :=
  {| should_apply := None; fade_time_samples := None; t0 := None;
     start_gain_db := None; end_gain_db := None |}.

Definition set_should_apply (v : bool) (ps : parameters) : parameters :=
  {| should_apply := Some v; fade_time_samples := fade_time_samples ps;
     t0 := t0 ps; start_gain_db := start_gain_db ps;
     end_gain_db := end_gain_db ps |}.
Definition set_fade_time_samples (v : Z) (ps : parameters) : parameters :=
  {| should_apply := should_apply ps; fade_time_samples := Some v;
     t0 := t0 ps; start_gain_db := start_gain_db ps;
     end_gain_db := end_gain_db ps |}.
Definition set_t0 (v : Z) (ps : parameters) : parameters :=
  {| should_apply := should_apply ps;
     fade_time_samples := fade_time_samples ps;
     t0 := Some v; start_gain_db := start_gain_db ps;
     end_gain_db := end_gain_db ps |}.
Definition set_start_gain_db (v : R) (ps : parameters) : parameters :=
  {| should_apply := should_apply ps;
     fade_time_samples := fade_time_samples ps;
     t0 := t0 ps; start_gain_db := Some v; end_gain_db := end_gain_db ps |}.
Definition set_end_gain_db (v : R) (ps : parameters) : parameters :=
  {| should_apply := should_apply ps;
     fade_time_samples := fade_time_samples ps;
     t0 := t0 ps; start_gain_db := start_gain_db ps; end_gain_db := Some v |}.

Definition lookup_key {S A} (key : string) (o : option A) : M S A :=
  match o with Some v => ret v | None => raise (KeyError key) end.

(** The attributes of an instance. *)
Record GainTransition : Type := {
  p : R;
  min_gain_db : R;
  max_gain_db : R;
  min_duration : number;
  max_duration : number;
  duration_unit : string;
  params : parameters
}.

Definition with_params (self : GainTransition) (ps : parameters)
  : GainTransition :=
  {| p := p self; min_gain_db := min_gain_db self;
     max_gain_db := max_gain_db self; min_duration := min_duration self;
     max_duration := max_duration self; duration_unit := duration_unit self;
     params := ps |}.

(** The arguments of [__init__]; [None] is an argument left at its default
    [None]. *)
Record init_args : Type := {
  arg_min_gain_in_db : option R;
  arg_max_gain_in_db : option R;
  arg_min_gain_db : option R;
  arg_max_gain_db : option R;
  arg_min_duration : number;
  arg_max_duration : number;
  arg_duration_unit : string;
  arg_p : R
}.

Definition default_args : init_args :=
  {| arg_min_gain_in_db := None; arg_max_gain_in_db := None;
     arg_min_gain_db := None; arg_max_gain_db := None;
     arg_min_duration := PyFloat (2 / 10); arg_max_duration := PyFloat 6;
     arg_duration_unit := "seconds"; arg_p := (5 / 10)%R |}.

Inductive warning : Type :=
| DeprecationWarning (msg : string).

(** Modelled from the spec: [BaseWaveformTransform.__init__(p)], which is
    not in the file: it keeps the probability, which must lie in [0, 1],
    and starts with an empty [parameters] mapping. *)
Definition base_init (p : R) : M (list warning) (R * parameters) :=
  (py_assert (Rleb 0 p && Rleb p 1) ;;;
   ret (p, no_parameters))%py.

Definition warn (w : warning) : M (list warning) unit :=
  modify (fun ws => (ws ++ [w])%list).

(** Lines 77-91 and 93-107: one gain bound from its new name and its
    deprecated alias. *)
Definition resolve_gain (name : string) (new_value old_value : option R)
  (default : R) : M (list warning) R :=
  match new_value, old_value with
  | Some _, Some _ =>
      raise (ValueError ("Passing both " ++ name ++ "_gain_db and " ++ name
                         ++ "_gain_in_db is not supported. Use only "
                         ++ name ++ "_gain_db."))
  | Some v, None => ret v
  | None, Some v =>
      (warn (DeprecationWarning ("The " ++ name ++ "_gain_in_db parameter is"
                                 ++ " deprecated. Use " ++ name
                                 ++ "_gain_db instead.")) ;;;
       ret v)%py
  | None, None => ret default
  end.

(** [GainTransition.__init__]; the state is the list of warnings issued. *)
Definition init (args : init_args) : M (list warning) GainTransition :=
  (base <- base_init (arg_p args) ;;
   min_gain_db <- resolve_gain "min" (arg_min_gain_db args)
                    (arg_min_gain_in_db args) (-24) ;;
   max_gain_db <- resolve_gain "max" (arg_max_gain_db args)
                    (arg_max_gain_in_db args) 6 ;;
   py_assert (Rleb min_gain_db max_gain_db) ;;;
   py_assert (num_lt (PyInt 0) (arg_min_duration args)) ;;;
   py_assert (num_le (arg_min_duration args) (arg_max_duration args)) ;;;
   ret {| p := fst base; min_gain_db := min_gain_db;
          max_gain_db := max_gain_db;
          min_duration := arg_min_duration args;
          max_duration := arg_max_duration args;
          duration_unit := arg_duration_unit args;
          params := snd base |})%py.

(** Construction from nothing: no warning issued yet. *)
Definition construct (args : init_args) : result GainTransition :=
  fst (init args []).

(** Lines 157-169 of [apply]: the window [t0, t0 + fade_time_samples) is
    cut to the waveform, and the fade mask with it. The result is the
    cropped mask with the clamped [start_sample_index] and
    [end_sample_index]. *)
Definition crop {A} (fade_mask : list A) (t0 fade_time_samples num_samples : Z)
  : list A * Z * Z :=
  let start_sample_index := t0 in
  let end_sample_index := start_sample_index + fade_time_samples in
  let '(fade_mask, start_sample_index) :=
    if start_sample_index <? 0 then
      let num_samples_to_shave_off := Z.abs start_sample_index in
      (Py.slice fade_mask (Some num_samples_to_shave_off) None, 0)
    else (fade_mask, start_sample_index) in
  let '(fade_mask, end_sample_index) :=
    if end_sample_index >? num_samples then
      let num_samples_to_shave_off := end_sample_index - num_samples in
      (Py.slice fade_mask None
         (Some (Py.len fade_mask - num_samples_to_shave_off)),
       num_samples)
    else (fade_mask, end_sample_index) in
  (fade_mask, start_sample_index, end_sample_index).

(** What a call works on: the instance, the random source and the store
    of arrays. *)
Record world (G : Type) : Type := {
  w_self : GainTransition;
  w_rng : G;
  w_heap : Np.heap
}.
Arguments w_self {G} w.
Arguments w_rng {G} w.
Arguments w_heap {G} w.

Section Transform.
Context {G : Type} `{RandomSource G}.

Definition on_rng {A} (m : M G A) : M (world G) A :=
  fun w => let '(r, g') := m (w_rng w) in
           (r, {| w_self := w_self w; w_rng := g'; w_heap := w_heap w |}).

Definition on_heap {A} (m : M Np.heap A) : M (world G) A :=
  fun w => let '(r, h') := m (w_heap w) in
           (r, {| w_self := w_self w; w_rng := w_rng w; w_heap := h' |}).

Definition self : M (world G) GainTransition :=
  fun w => (Ok (w_self w), w).

(** [self.parameters[key] = value] *)
Definition set_parameter (f : parameters -> parameters) : M (world G) unit :=
  modify (fun w => {| w_self := with_params (w_self w) (f (params (w_self w)));
                      w_rng := w_rng w; w_heap := w_heap w |}).

(** Modelled from the spec: [BaseWaveformTransform.randomize_parameters],
    which is not in the file: it draws [should_apply] from a Bernoulli
    trial of probability [p]. *)
Definition base_randomize_parameters : M (world G) unit :=
  (u <- on_rng random ;;
   s <- self ;;
   set_parameter (set_should_apply (Rltb u (p s))))%py.

(** Lines 120-134: the duration bounds in samples. *)
Definition duration_in_samples (s : GainTransition) (samples : Np.ndarray)
  (sample_rate : Z) : result (number * number) :=
  if String.eqb (duration_unit s) "samples" then
    Ok (min_duration s, max_duration s)
  else if String.eqb (duration_unit s) "fraction" then
    Ok (PyInt (int_round (num_mul_int (min_duration s) (Np.shape_last samples))),
        PyInt (int_round (num_mul_int (max_duration s) (Np.shape_last samples))))
  else if String.eqb (duration_unit s) "seconds" then
    Ok (PyInt (int_round (num_mul_int (min_duration s) sample_rate)),
        PyInt (int_round (num_mul_int (max_duration s) sample_rate)))
  else Raise (ValueError "Invalid duration_unit").

Definition randomize_parameters (samples : Np.ndarray) (sample_rate : Z)
  : M (world G) unit :=
  (base_randomize_parameters ;;;
   s <- self ;;
   go <- lookup_key "should_apply" (should_apply (params s)) ;;
   if go : bool then
     bounds <- lift_result (duration_in_samples s samples sample_rate) ;;
     r <- on_rng (randint (fst bounds) (snd bounds)) ;;
     set_parameter (set_fade_time_samples (Z.max 3 r)) ;;;
     s <- self ;;
     fts <- lookup_key "fade_time_samples" (fade_time_samples (params s)) ;;
     t <- on_rng (randint (PyInt (- fts + 2))
                          (PyInt (Np.shape_last samples - 2))) ;;
     set_parameter (set_t0 t) ;;;
     s <- self ;;
     a <- on_rng (uniform (min_gain_db s) (max_gain_db s)) ;;
     set_parameter (set_start_gain_db a) ;;;
     s <- self ;;
     b <- on_rng (uniform (min_gain_db s) (max_gain_db s)) ;;
     set_parameter (set_end_gain_db b)
   else ret tt)%py.

End Transform.

(** [GainTransition.apply]: the result is the reference it returns. *)
Definition apply (s : GainTransition) (samples : Np.loc) (sample_rate : Z)
  : M Np.heap Np.loc :=
  (arr <- Np.deref samples ;;
   let num_samples := Np.shape_last arr in
   start_level_db <- lookup_key "start_gain_db" (start_gain_db (params s)) ;;
   end_level_db <- lookup_key "end_gain_db" (end_gain_db (params s)) ;;
   fts <- lookup_key "fade_time_samples" (fade_time_samples (params s)) ;;
   fade_mask <- lift_result (get_fade_mask start_level_db end_level_db fts) ;;
   start_sample_index <- lookup_key "t0" (t0 (params s)) ;;
   let '(fade_mask, start_sample_index, end_sample_index) :=
     crop fade_mask start_sample_index fts num_samples in
   samples <- Np.copy samples ;;
   Np.imul_slice_at samples (Some start_sample_index) (Some end_sample_index)
     fade_mask ;;;
   (if start_sample_index >? 0 then
      Np.imul_slice_scalar_at samples None (Some start_sample_index)
        (convert_decibels_to_amplitude_ratio start_level_db)
    else ret tt) ;;;
   (if end_sample_index <? num_samples then
      Np.imul_slice_scalar_at samples (Some end_sample_index) None
        (convert_decibels_to_amplitude_ratio end_level_db)
    else ret tt) ;;;
   ret samples)%py.

Section Call.
Context {G : Type} `{RandomSource G}.

(** Modelled from the spec: [BaseWaveformTransform.__call__], which is not
    in the file: the parameters are drawn, [apply] is invoked only when
    [should_apply] is true, and otherwise the waveform is returned as it
    came. *)
Definition call (samples : Np.loc) (sample_rate : Z) : M (world G) Np.loc :=
  (arr <- on_heap (Np.deref samples) ;;
   randomize_parameters arr sample_rate ;;;
   s <- self ;;
   go <- lookup_key "should_apply" (should_apply (params s)) ;;
   if go : bool then on_heap (apply s samples sample_rate)
   else ret samples)%py.

End Call.

(** * Properties *)

(** ** The fade mask *)

Lemma linspace_ok (start stop : R) (num : Z) :
  0 <= num ->
  exists y, Np.linspace start stop num = Ok y /\ Py.len y = num.
Proof.
  intros Hn. unfold Np.linspace.
  destruct (num <? 0) eqn:E; [lia|].
  eexists; split; [reflexivity|].
  unfold Py.len.
  destruct (1 <? num); destruct (0 <? num - 1);
    rewrite ?length_insert, ?length_map, ?length_seq; lia.
Qed.

Lemma get_fade_mask_ok (start_level_db end_level_db : R) (n : Z) :
  0 <= n ->
  exists mask, get_fade_mask start_level_db end_level_db n = Ok mask
               /\ Py.len mask = n.
Proof.
  intros Hn. unfold get_fade_mask.
  destruct (linspace_ok start_level_db end_level_db n Hn) as (y & -> & Hy).
  eexists; split; [reflexivity|].
  unfold Py.len in *. now rewrite length_map.
Qed.

(** ** Cropping *)

Lemma slice_from {A} (l : list A) (a : Z) :
  0 <= a <= Py.len l ->
  Py.slice l (Some a) None = skipn (Z.to_nat a) l.
Proof.
  intros Ha. unfold Py.slice, Py.slice_bounds, Py.adjust_index.
  destruct (a <? 0) eqn:E; [lia|].
  rewrite Z.min_l by lia.
  apply firstn_all2. rewrite length_skipn. unfold Py.len in *. lia.
Qed.

Lemma slice_to {A} (l : list A) (b : Z) :
  0 <= b <= Py.len l ->
  Py.slice l None (Some b) = firstn (Z.to_nat b) l.
Proof.
  intros Hb. unfold Py.slice, Py.slice_bounds, Py.adjust_index.
  destruct (b <? 0) eqn:E; [lia|].
  rewrite Z.min_l by lia. simpl. f_equal. lia.
Qed.

Lemma len_skipn {A} (l : list A) (n : nat) :
  Py.len (skipn n l) = Z.max 0 (Py.len l - Z.of_nat n).
Proof. unfold Py.len. rewrite length_skipn. lia. Qed.

(** The indices and the mask that [crop] returns for parameters in the
    range that [randomize_parameters] draws from. *)
Lemma crop_spec {A} (fade_mask : list A) (t fts total : Z) :
  Py.len fade_mask = fts ->
  3 <= fts -> 0 <= total -> - fts + 2 <= t <= total - 2 ->
  crop fade_mask t fts total
  = (firstn (Z.to_nat (Z.min (t + fts) total - Z.max t 0))
       (skipn (Z.to_nat (Z.max t 0 - t)) fade_mask),
     Z.max t 0, Z.min (t + fts) total).
Proof.
  intros Hlen Hf Ht Hr. unfold crop.
  destruct (t <? 0) eqn:E1; destruct (t + fts >? total) eqn:E2;
    rewrite ?Z.gtb_ltb in E2.
  - rewrite slice_from by lia.
    rewrite slice_to by (rewrite len_skipn; lia).
    rewrite len_skipn.
    f_equal; [f_equal |]; try lia.
    f_equal; [lia | f_equal; lia].
  - rewrite slice_from by lia.
    f_equal; [f_equal |]; try lia.
    replace (Z.to_nat (Z.max t 0 - t)) with (Z.to_nat (Z.abs t)) by lia.
    symmetry. apply firstn_all2. rewrite length_skipn.
    unfold Py.len in *. lia.
  - rewrite slice_to by lia.
    f_equal; [f_equal |]; try lia.
    replace (Z.to_nat (Z.max t 0 - t)) with 0%nat by lia.
    simpl. f_equal. lia.
  - f_equal; [f_equal |]; try lia.
    replace (Z.to_nat (Z.max t 0 - t)) with 0%nat by lia.
    simpl. symmetry. apply firstn_all2. unfold Py.len in *. lia.
Qed.

Lemma crop_len {A} (fade_mask : list A) (t fts total : Z) :
  Py.len fade_mask = fts ->
  3 <= fts -> 0 <= total -> - fts + 2 <= t <= total - 2 ->
  Py.len (fst (fst (crop fade_mask t fts total)))
  = Z.min (t + fts) total - Z.max t 0.
Proof.
  intros Hlen Hf Ht Hr. rewrite crop_spec by assumption. simpl.
  unfold Py.len in *. rewrite length_firstn, length_skipn. lia.
Qed.

(** C1. For [fade_time_samples >= 3], a waveform of [total_samples >= 1]
    samples and [t0] in [-fade_time_samples + 2, total_samples - 2], the
    fade mask is produced, and the cropping step of [apply] returns
    [effective_start = max(t0, 0)], [effective_end =
    min(t0 + fade_time_samples, total_samples)] and a cropped mask of
    exactly [effective_end - effective_start] entries. *)
Theorem crop_length_matches_slice
  (start_level_db end_level_db : R) (fts total t : Z) :
  3 <= fts -> 1 <= total -> - fts + 2 <= t <= total - 2 ->
  exists fade_mask cropped effective_start effective_end,
    get_fade_mask start_level_db end_level_db fts = Ok fade_mask
    /\ crop fade_mask t fts total = (cropped, effective_start, effective_end)
    /\ effective_start = Z.max t 0
    /\ effective_end = Z.min (t + fts) total
    /\ Py.len cropped = effective_end - effective_start.
Proof.
  intros Hf Ht Hr.
  destruct (get_fade_mask_ok start_level_db end_level_db fts ltac:(lia))
    as (mask & Hmask & Hlen).
  pose proof (crop_spec mask t fts total Hlen Hf ltac:(lia) Hr) as Hc.
  pose proof (crop_len mask t fts total Hlen Hf ltac:(lia) Hr) as Hl.
  rewrite Hc in Hl. simpl in Hl.
  do 4 eexists. split; [exact Hmask|]. split; [exact Hc|].
  split; [reflexivity|]. split; [reflexivity|]. exact Hl.
Qed.

Lemma crop_length_matches_slice_witness :
  exists fade_mask cropped effective_start effective_end,
    get_fade_mask 0 (-20) 5 = Ok fade_mask
    /\ crop fade_mask (-2) 5 4 = (cropped, effective_start, effective_end)
    /\ effective_start = Z.max (-2) 0
    /\ effective_end = Z.min (-2 + 5) 4
    /\ Py.len cropped = effective_end - effective_start.
Proof.
  apply (crop_length_matches_slice 0 (-20) 5 4 (-2)); lia.
Defined.

(** ** Overlap of the transition window with the waveform *)

(** The number of sample indices of the waveform, [0 <= i < total], that
    lie in the window [t0 <= i < t0 + fade_time_samples]. *)
Definition overlap_count (t0 fade_time_samples total : Z) : nat :=
  length (List.filter (fun i => (t0 <=? i) && (i <? t0 + fade_time_samples))
            (map Z.of_nat (seq 0 (Z.to_nat total)))).

Lemma two_distinct_members {A} (x y : A) (l : list A) :
  In x l -> In y l -> x <> y -> (2 <= length l)%nat.
Proof.
  destruct l as [|a [|b l]]; simpl; intros Hx Hy Hne; try lia.
  destruct Hx as [<-|[]], Hy as [<-|[]]. congruence.
Qed.

Lemma in_overlap (t0 fts total i : Z) :
  0 <= i < total -> t0 <= i < t0 + fts ->
  In i (List.filter (fun i => (t0 <=? i) && (i <? t0 + fts))
          (map Z.of_nat (seq 0 (Z.to_nat total)))).
Proof.
  intros Hi Hw. apply filter_In. split.
  - apply in_map_iff. exists (Z.to_nat i). split; [lia|].
    apply in_seq. lia.
  - apply andb_true_iff. split; [apply Z.leb_le | apply Z.ltb_lt]; lia.
Qed.

(** C7, as the code has it: for [fade_time_samples >= 3], a waveform of at
    least 2 samples and [t0] in [-fade_time_samples + 2, total_samples - 2],
    the window [t0, t0 + fade_time_samples) holds at least 2 sample indices
    of the waveform; they are the two at [max(t0, 0)], the start index that
    [apply] computes, and after it. *)
Theorem window_overlaps_two_samples (fts total t : Z) :
  3 <= fts -> 2 <= total -> - fts + 2 <= t <= total - 2 ->
  (2 <= overlap_count t fts total)%nat.
Proof.
  intros Hf Ht Hr. unfold overlap_count.
  apply (two_distinct_members (Z.max t 0) (Z.max t 0 + 1));
    [apply in_overlap; lia | apply in_overlap; lia | lia].
Qed.

Lemma window_overlaps_two_samples_witness :
  (2 <= overlap_count (-1) 3 2)%nat.
Proof.
  apply (window_overlaps_two_samples 3 2 (-1)); lia.
Defined.

(** C7 fails on a waveform of one sample: with [fade_time_samples = 3] the
    range of [t0] is [-1, -1], and the window [-1, 2) holds the single
    sample index 0. *)
Lemma window_overlap_one_sample_counterexample :
  3 <= 3 /\ - 3 + 2 <= -1 <= 1 - 2 /\ overlap_count (-1) 3 1 = 1%nat
  /\ ~ (2 <= overlap_count (-1) 3 1)%nat.
Proof.
  assert (overlap_count (-1) 3 1 = 1%nat) as E by reflexivity.
  rewrite E. repeat split; lia.
Qed.

(** ** The values of the fade mask *)

(** The level, in decibels, of point [i] of [num] evenly spaced points. *)
Definition level (start stop : R) (num : Z) (i : nat) : R :=
  (start + IZR (Z.of_nat i) * ((stop - start) / IZR (Z.max 1 (num - 1))))%R.

Lemma level_first (start stop : R) (num : Z) : level start stop num 0 = start.
Proof. unfold level. change (Z.of_nat 0) with 0. lra. Qed.

Lemma level_last (start stop : R) (num : Z) :
  2 <= num -> level start stop num (Z.to_nat num - 1) = stop.
Proof.
  intros Hn. unfold level.
  replace (Z.of_nat (Z.to_nat num - 1)) with (num - 1) by lia.
  rewrite Z.max_r by lia.
  assert (IZR (num - 1) <> 0)%R by (apply not_0_IZR; lia).
  field. assumption.
Qed.

Lemma linspace_lookup (start stop : R) (num : Z) (y : list R) (i : nat) :
  1 <= num -> Np.linspace start stop num = Ok y -> (i < Z.to_nat num)%nat ->
  y !! i = Some (level start stop num i).
Proof.
  intros Hn Hy Hi. unfold Np.linspace in Hy.
  destruct (num <? 0) eqn:E0; [lia|].
  injection Hy as <-.
  change (@map) with (@fmap list _) in *.
  destruct (1 <? num) eqn:E1.
  - assert ((0 <? num - 1) = true) as -> by (apply Z.ltb_lt; lia).
    rewrite length_fmap, length_fmap, length_seq.
    destruct (decide (i = Nat.pred (Z.to_nat num))) as [->|Hne].
    + rewrite list_lookup_insert_eq
        by (rewrite !length_fmap, length_seq; lia).
      f_equal. replace (Nat.pred (Z.to_nat num)) with (Z.to_nat num - 1)%nat
        by lia.
      symmetry. apply level_last. lia.
    + rewrite list_lookup_insert_ne by congruence.
      rewrite !list_lookup_fmap, lookup_seq_lt by lia. simpl.
      f_equal. unfold level. rewrite Z.max_r by lia. lra.
  - assert ((0 <? num - 1) = false) as -> by (apply Z.ltb_ge; lia).
    rewrite !list_lookup_fmap, lookup_seq_lt by lia. simpl.
    f_equal. assert (i = 0)%nat as -> by lia. rewrite level_first.
    change (Z.of_nat 0) with 0. lra.
Qed.

Lemma get_fade_mask_lookup (start stop : R) (num : Z) (mask : list R)
  (i : nat) :
  1 <= num -> get_fade_mask start stop num = Ok mask ->
  (i < Z.to_nat num)%nat ->
  mask !! i
  = Some (convert_decibels_to_amplitude_ratio (level start stop num i)).
Proof.
  intros Hn Hm Hi. unfold get_fade_mask in Hm.
  destruct (Np.linspace start stop num) as [y|e] eqn:Hy; [|discriminate].
  injection Hm as <-.
  change (@map) with (@fmap list _).
  rewrite list_lookup_fmap, (linspace_lookup start stop num y i) by assumption.
  reflexivity.
Qed.

Lemma amplitude_ratio_pos (db : R) :
  (0 < convert_decibels_to_amplitude_ratio db)%R.
Proof. unfold convert_decibels_to_amplitude_ratio, Rpower. apply exp_pos. Qed.

Lemma amplitude_ratio_mono (a b : R) :
  (a <= b)%R ->
  (convert_decibels_to_amplitude_ratio a
   <= convert_decibels_to_amplitude_ratio b)%R.
Proof.
  intros Hab. unfold convert_decibels_to_amplitude_ratio.
  apply Rle_Rpower; lra.
Qed.

Lemma level_mono (start stop : R) (num : Z) (i j : nat) :
  (i <= j)%nat ->
  ((start <= stop -> level start stop num i <= level start stop num j)
   /\ (stop <= start -> level start stop num j <= level start stop num i))%R.
Proof.
  intros Hij. unfold level.
  assert (0 < IZR (Z.max 1 (num - 1)))%R as Hd by (apply IZR_lt; lia).
  assert (IZR (Z.of_nat i) <= IZR (Z.of_nat j))%R as Hle
    by (apply IZR_le; lia).
  pose proof (Rinv_0_lt_compat _ Hd) as Hinv.
  unfold Rdiv. split; intros Hs.
  - apply Rplus_le_compat_l, Rmult_le_compat_r; [|exact Hle].
    apply Rmult_le_pos; lra.
  - apply Rplus_le_compat_l.
    assert (0 <= (start - stop) * / IZR (Z.max 1 (num - 1)))%R
      by (apply Rmult_le_pos; lra).
    nra.
Qed.

(** The levels stay between the two ends. *)
Lemma level_between (start stop : R) (num : Z) (k : nat) :
  (k < Z.to_nat num)%nat ->
  (Rmin start stop <= level start stop num k <= Rmax start stop)%R.
Proof.
  intros Hk.
  destruct (Z.eq_dec num 1) as [->|Hne].
  - assert (k = 0%nat) as -> by lia. rewrite level_first.
    split; [apply Rmin_l | apply Rmax_l].
  - pose proof (level_first start stop num) as H0.
    pose proof (level_last start stop num ltac:(lia)) as Hn.
    pose proof (level_mono start stop num 0 k ltac:(lia)) as [Ha Hb].
    pose proof (level_mono start stop num k (Z.to_nat num - 1) ltac:(lia))
      as [Hc Hd].
    rewrite H0 in Ha, Hb. rewrite Hn in Hc, Hd.
    unfold Rmin, Rmax. destruct (Rle_dec start stop) as [Hle|Hgt].
    + split; [now apply Ha | now apply Hc].
    + assert (stop <= start)%R by lra. split; [now apply Hd | now apply Hb].
Qed.

(** ** Rounding *)

Lemma round_half_even_mono (x y : R) :
  (x <= y)%R -> round_half_even x <= round_half_even y.
Proof.
  intros Hxy. unfold round_half_even, frac_part.
  pose proof (base_Int_part x) as [Hx1 Hx2].
  pose proof (base_Int_part y) as [Hy1 Hy2].
  assert (Int_part x <= Int_part y) as Hf.
  { apply Z.lt_succ_r, lt_IZR. rewrite succ_IZR. lra. }
  destruct (Z.eq_dec (Int_part x) (Int_part y)) as [Heq|Hne].
  - rewrite <- Heq in *.
    destruct (Rlt_dec (x - IZR (Int_part x)) (1 / 2));
      destruct (Rlt_dec (1 / 2) (x - IZR (Int_part x)));
      destruct (Rlt_dec (y - IZR (Int_part x)) (1 / 2));
      destruct (Rlt_dec (1 / 2) (y - IZR (Int_part x)));
      destruct (Z.even (Int_part x)); try lia; lra.
  - destruct (Rlt_dec (x - IZR (Int_part x)) (1 / 2));
      destruct (Rlt_dec (1 / 2) (x - IZR (Int_part x)));
      destruct (Rlt_dec (y - IZR (Int_part y)) (1 / 2));
      destruct (Rlt_dec (1 / 2) (y - IZR (Int_part y)));
      destruct (Z.even (Int_part x)); destruct (Z.even (Int_part y)); lia.
Qed.

Lemma round_half_even_IZR (z : Z) : round_half_even (IZR z) = z.
Proof.
  assert (Int_part (IZR z) = z) as Hz by (symmetry; apply Int_part_spec; lra).
  unfold round_half_even, frac_part. rewrite Hz.
  destruct (Rlt_dec (IZR z - IZR z) (1 / 2)); [reflexivity | lra].
Qed.

Lemma pow2_pos (k : Z) : (0 < powerRZ 2 k)%R.
Proof. apply powerRZ_lt. lra. Qed.

Lemma pow2_le (j k : Z) : j <= k -> (powerRZ 2 j <= powerRZ 2 k)%R.
Proof.
  intros Hjk. rewrite !powerRZ_Rpower by lra.
  apply Rle_Rpower; [lra | now apply IZR_le].
Qed.

Lemma pow2_lt (j k : Z) : j < k -> (powerRZ 2 j < powerRZ 2 k)%R.
Proof.
  intros Hjk. rewrite !powerRZ_Rpower by lra.
  apply Rpower_lt; [lra | now apply IZR_lt].
Qed.

Lemma pow2_lt_inv (j k : Z) : (powerRZ 2 j < powerRZ 2 k)%R -> j < k.
Proof.
  intros Hlt. destruct (Z_lt_le_dec j k) as [|Hge]; [assumption|].
  apply pow2_le in Hge. lra.
Qed.

Lemma pow2_add (j k : Z) :
  powerRZ 2 (j + k) = (powerRZ 2 j * powerRZ 2 k)%R.
Proof. apply powerRZ_add. lra. Qed.

Lemma pow2_cancel (k : Z) : (powerRZ 2 (- k) * powerRZ 2 k = 1)%R.
Proof. rewrite <- pow2_add. now replace (- k + k) with 0 by lia. Qed.

Lemma pow2_IZR (k : Z) : 0 <= k -> powerRZ 2 k = IZR (2 ^ k).
Proof.
  intros Hk. rewrite <- (Z2Nat.id k Hk) at 1.
  rewrite <- pow_powerRZ, pow_IZR. now rewrite Z2Nat.id.
Qed.

(** [ilog2 x] is the binade of [x]. *)
Lemma ilog2_spec (x : R) :
  x <> 0%R ->
  (powerRZ 2 (Binary32.ilog2 x) <= Rabs x
   < powerRZ 2 (Binary32.ilog2 x + 1))%R.
Proof.
  intros Hx. unfold Binary32.ilog2.
  assert (0 < Rabs x)%R as Hpos by now apply Rabs_pos_lt.
  assert (0 < ln 2)%R as Hln2 by (rewrite <- ln_1; apply ln_increasing; lra).
  set (L := (ln (Rabs x) / ln 2)%R).
  assert (Rabs x = Rpower 2 L) as Hx2.
  { unfold Rpower, L. replace (ln (Rabs x) / ln 2 * ln 2)%R
      with (ln (Rabs x)) by (field; lra).
    now rewrite exp_ln. }
  destruct (base_Int_part L) as [Hlo Hhi].
  rewrite !powerRZ_Rpower by lra. rewrite Hx2, plus_IZR. split.
  - apply Rle_Rpower; lra.
  - apply Rpower_lt; lra.
Qed.

Lemma ilog2_unique (x : R) (k : Z) :
  (powerRZ 2 k <= Rabs x < powerRZ 2 (k + 1))%R -> Binary32.ilog2 x = k.
Proof.
  intros [Hlo Hhi].
  assert (x <> 0%R) as Hx.
  { intros ->. rewrite Rabs_R0 in Hlo. pose proof (pow2_pos k). lra. }
  destruct (ilog2_spec x Hx) as [Hlo' Hhi'].
  assert (Binary32.ilog2 x < k + 1) by (apply pow2_lt_inv; lra).
  assert (k < Binary32.ilog2 x + 1) by (apply pow2_lt_inv; lra).
  lia.
Qed.

Lemma ilog2_mono (x y : R) :
  x <> 0%R -> (Rabs x <= Rabs y)%R -> Binary32.ilog2 x <= Binary32.ilog2 y.
Proof.
  intros Hx Hxy.
  assert (y <> 0%R) as Hy.
  { intros ->. rewrite Rabs_R0 in Hxy.
    pose proof (Rabs_pos_lt x Hx). lra. }
  destruct (ilog2_spec x Hx) as [Hlo _].
  destruct (ilog2_spec y Hy) as [_ Hhi].
  assert (Binary32.ilog2 x < Binary32.ilog2 y + 1)
    by (apply pow2_lt_inv; lra).
  lia.
Qed.

Lemma ilog2_opp (x : R) : Binary32.ilog2 (- x) = Binary32.ilog2 x.
Proof. unfold Binary32.ilog2. now rewrite Rabs_Ropp. Qed.
Lemma round_half_even_opp (s : R) :
  round_half_even (- s) = - round_half_even s.
Proof.
  destruct (base_Int_part s) as [Hlo Hhi].
  destruct (Req_dec s (IZR (Int_part s))) as [Heq|Hne].
  - rewrite Heq, <- opp_IZR. now rewrite !round_half_even_IZR.
  - assert (Int_part (- s) = - Int_part s - 1) as Hf.
    { symmetry. apply Int_part_spec.
      rewrite minus_IZR, opp_IZR. lra. }
    unfold round_half_even, frac_part. rewrite Hf.
    rewrite minus_IZR, opp_IZR.
    assert (Z.even (- Int_part s - 1) = negb (Z.even (Int_part s))) as ->.
    { rewrite Z.even_sub, Z.even_opp. now destruct (Z.even (Int_part s)). }
    destruct (Rlt_dec (s - IZR (Int_part s)) (1 / 2));
      destruct (Rlt_dec (1 / 2) (s - IZR (Int_part s)));
      destruct (Rlt_dec (- s - (- IZR (Int_part s) - 1)) (1 / 2));
      destruct (Rlt_dec (1 / 2) (- s - (- IZR (Int_part s) - 1)));
      destruct (Z.even (Int_part s)); simpl; try lia; lra.
Qed.

Lemma round_half_even_ge (z : Z) (s : R) :
  (IZR z <= s)%R -> z <= round_half_even s.
Proof.
  intros Hs. rewrite <- (round_half_even_IZR z).
  now apply round_half_even_mono.
Qed.

Lemma round_half_even_le (z : Z) (s : R) :
  (s <= IZR z)%R -> round_half_even s <= z.
Proof.
  intros Hs. rewrite <- (round_half_even_IZR z).
  now apply round_half_even_mono.
Qed.

(** Above one half, rounding gives at least 1. *)
Lemma round_half_even_pos (s : R) : (1 / 2 < s)%R -> 1 <= round_half_even s.
Proof.
  intros Hs. destruct (base_Int_part s) as [Hlo Hhi].
  assert (0 <= Int_part s).
  { apply Z.lt_succ_r, lt_IZR. rewrite succ_IZR. lra. }
  unfold round_half_even, frac_part.
  destruct (Rlt_dec (s - IZR (Int_part s)) (1 / 2)) as [Hd|Hd].
  - assert (Int_part s <> 0) by (intros E; rewrite E in Hd; lra). lia.
  - destruct (Rlt_dec (1 / 2) (s - IZR (Int_part s))); [lia|].
    destruct (Z.even (Int_part s)) eqn:E; [|lia].
    assert (Int_part s <> 0); [|lia].
    intros E0. rewrite E0 in *. lra.
Qed.

(** Up to one half, rounding gives 0. *)
Lemma round_half_even_small (s : R) :
  (0 <= s <= 1 / 2)%R -> round_half_even s = 0.
Proof.
  intros Hs.
  assert (Int_part s = 0) as Hf by (symmetry; apply Int_part_spec; lra).
  unfold round_half_even, frac_part. rewrite Hf.
  destruct (Rlt_dec (s - 0) (1 / 2)); [reflexivity|].
  destruct (Rlt_dec (1 / 2) (s - 0)); [lra | reflexivity].
Qed.

(** *** Rounding to binary32 *)

Lemma ulp_exponent_opp (x : R) :
  Binary32.ulp_exponent (- x) = Binary32.ulp_exponent x.
Proof. unfold Binary32.ulp_exponent. now rewrite ilog2_opp. Qed.

Lemma nearest_opp (x : R) :
  Binary32.nearest (- x) = (- Binary32.nearest x)%R.
Proof.
  unfold Binary32.nearest. rewrite ulp_exponent_opp.
  rewrite Ropp_mult_distr_l_reverse, round_half_even_opp, opp_IZR. ring.
Qed.

Lemma nearest_0 : Binary32.nearest 0 = 0%R.
Proof.
  unfold Binary32.nearest. rewrite Rmult_0_l.
  change 0%R with (IZR 0). rewrite round_half_even_IZR. simpl. ring.
Qed.

Lemma nearest_nonneg (x : R) : (0 <= x)%R -> (0 <= Binary32.nearest x)%R.
Proof.
  intros Hx. unfold Binary32.nearest.
  pose proof (pow2_pos (Binary32.ulp_exponent x)).
  pose proof (pow2_pos (- Binary32.ulp_exponent x)).
  apply Rmult_le_pos; [|lra].
  apply IZR_le, round_half_even_ge. simpl. now apply Rmult_le_pos; [|lra].
Qed.

Lemma nearest_nonpos (x : R) : (x <= 0)%R -> (Binary32.nearest x <= 0)%R.
Proof.
  intros Hx. pose proof (nearest_nonneg (- x) ltac:(lra)) as Hn.
  rewrite nearest_opp in Hn. lra.
Qed.

(** The significand of a binary32 number has 24 bits. *)
Lemma scaled_lt (x : R) :
  (0 < x)%R ->
  (x * powerRZ 2 (- Binary32.ulp_exponent x) < IZR (2 ^ 24))%R.
Proof.
  intros Hx. destruct (ilog2_spec x ltac:(lra)) as [_ Hhi].
  rewrite Rabs_pos_eq in Hhi by lra.
  rewrite <- pow2_IZR by lia.
  replace 24 with ((Binary32.ilog2 x + 1) + (23 - Binary32.ilog2 x)) by lia.
  rewrite pow2_add.
  pose proof (pow2_pos (- Binary32.ulp_exponent x)).
  pose proof (pow2_pos (Binary32.ilog2 x + 1)).
  assert (powerRZ 2 (- Binary32.ulp_exponent x)
          <= powerRZ 2 (23 - Binary32.ilog2 x))%R
    by (apply pow2_le; unfold Binary32.ulp_exponent; lia).
  apply Rlt_le_trans
    with (powerRZ 2 (Binary32.ilog2 x + 1)
          * powerRZ 2 (- Binary32.ulp_exponent x))%R.
  - apply Rmult_lt_compat_r; assumption.
  - apply Rmult_le_compat_l; lra.
Qed.

(** A normal number has its leading bit set. *)
Lemma scaled_ge (x : R) :
  (0 < x)%R -> -149 < Binary32.ulp_exponent x ->
  (IZR (2 ^ 23) <= x * powerRZ 2 (- Binary32.ulp_exponent x))%R.
Proof.
  intros Hx He. destruct (ilog2_spec x ltac:(lra)) as [Hlo _].
  rewrite Rabs_pos_eq in Hlo by lra.
  assert (Binary32.ulp_exponent x = Binary32.ilog2 x - 23) as ->
    by (unfold Binary32.ulp_exponent in *; lia).
  rewrite <- pow2_IZR by lia.
  replace 23 with (Binary32.ilog2 x + - (Binary32.ilog2 x - 23)) at 1 by lia.
  rewrite pow2_add.
  pose proof (pow2_pos (- (Binary32.ilog2 x - 23))).
  apply Rmult_le_compat_r; lra.
Qed.

Lemma ulp_exponent_mono (x y : R) :
  (0 < x <= y)%R -> Binary32.ulp_exponent x <= Binary32.ulp_exponent y.
Proof.
  intros [Hx Hxy]. unfold Binary32.ulp_exponent.
  assert (Binary32.ilog2 x <= Binary32.ilog2 y); [|lia].
  apply ilog2_mono; [lra|]. rewrite !Rabs_pos_eq by lra. exact Hxy.
Qed.

Lemma nearest_mono_pos (x y : R) :
  (0 < x <= y)%R -> (Binary32.nearest x <= Binary32.nearest y)%R.
Proof.
  intros [Hx Hxy].
  pose proof (ulp_exponent_mono x y ltac:(lra)) as He.
  unfold Binary32.nearest.
  set (ex := Binary32.ulp_exponent x) in *.
  set (ey := Binary32.ulp_exponent y) in *.
  destruct (Z.eq_dec ex ey) as [Heq|Hne].
  - rewrite <- Heq. pose proof (pow2_pos ex). pose proof (pow2_pos (- ex)).
    apply Rmult_le_compat_r; [lra|].
    apply IZR_le, round_half_even_mono.
    apply Rmult_le_compat_r; lra.
  - pose proof (scaled_lt x Hx) as Hsx. fold ex in Hsx.
    pose proof (scaled_ge y ltac:(lra)) as Hsy. fold ey in Hsy.
    assert (-149 <= ex) by (unfold ex, Binary32.ulp_exponent; lia).
    specialize (Hsy ltac:(lia)).
    apply round_half_even_ge in Hsy.
    apply Rlt_le, round_half_even_le in Hsx.
    apply IZR_le in Hsx, Hsy. rewrite <- !pow2_IZR in Hsx, Hsy by lia.
    pose proof (pow2_pos ex). pose proof (pow2_pos ey).
    apply Rle_trans with (powerRZ 2 24 * powerRZ 2 ex)%R;
      [apply Rmult_le_compat_r; lra|].
    apply Rle_trans with (powerRZ 2 23 * powerRZ 2 ey)%R;
      [|apply Rmult_le_compat_r; lra].
    rewrite <- !pow2_add. apply pow2_le. lia.
Qed.

Lemma nearest_mono (x y : R) :
  (x <= y)%R -> (Binary32.nearest x <= Binary32.nearest y)%R.
Proof.
  intros Hxy.
  destruct (Rlt_dec 0 x) as [Hx|Hx].
  - apply nearest_mono_pos. lra.
  - destruct (Rlt_dec y 0) as [Hy|Hy].
    + pose proof (nearest_mono_pos (- y) (- x) ltac:(lra)) as Hn.
      rewrite !nearest_opp in Hn. lra.
    + pose proof (nearest_nonpos x ltac:(lra)).
      pose proof (nearest_nonneg y ltac:(lra)). lra.
Qed.

(** An integer of at most 24 bits is a binary32 number. *)
Lemma nearest_integer (m : Z) :
  Z.abs m < 2 ^ 24 -> Binary32.nearest (IZR m) = IZR m.
Proof.
  intros Hm. destruct (Z.eq_dec m 0) as [->|Hne]; [apply nearest_0|].
  assert (IZR m <> 0%R) as Hx by now apply not_0_IZR.
  destruct (ilog2_spec (IZR m) Hx) as [Hlo Hhi].
  rewrite <- abs_IZR in Hlo, Hhi.
  set (k := Binary32.ilog2 (IZR m)) in *.
  assert (0 <= k).
  { assert (0 < k + 1); [|lia]. apply pow2_lt_inv.
    change (powerRZ 2 0) with 1%R.
    assert (1 <= IZR (Z.abs m))%R by (apply IZR_le; lia). lra. }
  assert (k < 24).
  { apply pow2_lt_inv. rewrite (pow2_IZR 24) by lia.
    apply IZR_lt in Hm. lra. }
  unfold Binary32.nearest, Binary32.ulp_exponent. fold k.
  rewrite Z.max_l by lia.
  replace (- (k - 23)) with (23 - k) by lia.
  rewrite (pow2_IZR (23 - k)) by lia.
  rewrite <- mult_IZR, round_half_even_IZR, mult_IZR.
  rewrite <- pow2_IZR by lia. rewrite Rmult_assoc, <- pow2_add.
  replace (23 - k + (k - 23)) with 0 by lia. simpl. ring.
Qed.

(** A magnitude of at most half the least subnormal rounds to zero. *)
Lemma nearest_underflow (x : R) :
  (0 <= x <= powerRZ 2 (-150))%R -> Binary32.nearest x = 0%R.
Proof.
  intros [Hx0 Hx]. destruct (Req_dec x 0) as [->|Hne]; [apply nearest_0|].
  destruct (ilog2_spec x Hne) as [Hlo _].
  rewrite Rabs_pos_eq in Hlo by lra.
  assert (Binary32.ilog2 x < -149).
  { apply pow2_lt_inv. pose proof (pow2_lt (-150) (-149) ltac:(lia)). lra. }
  unfold Binary32.nearest, Binary32.ulp_exponent.
  rewrite Z.max_r by lia.
  rewrite round_half_even_small; [simpl; ring|].
  pose proof (pow2_pos (- -149)). split; [apply Rmult_le_pos; lra|].
  apply Rle_trans with (powerRZ 2 (-150) * powerRZ 2 (- -149))%R;
    [apply Rmult_le_compat_r; lra|].
  rewrite <- pow2_add. simpl. lra.
Qed.

(** Above half the least subnormal, the rounding is not zero. *)
Lemma nearest_pos (x : R) :
  (powerRZ 2 (-150) < x)%R -> (0 < Binary32.nearest x)%R.
Proof.
  intros Hx. pose proof (pow2_pos (-150)).
  unfold Binary32.nearest.
  pose proof (pow2_pos (Binary32.ulp_exponent x)).
  apply Rmult_lt_0_compat; [|assumption].
  apply IZR_lt. apply Z.lt_le_trans with 1; [lia|].
  destruct (Z.eq_dec (Binary32.ulp_exponent x) (-149)) as [->|Hne].
  - apply round_half_even_pos.
    apply Rle_lt_trans with (powerRZ 2 (-150) * powerRZ 2 (- -149))%R;
      [rewrite <- pow2_add; simpl; lra|].
    pose proof (pow2_pos (- -149)). apply Rmult_lt_compat_r; lra.
  - assert (-149 < Binary32.ulp_exponent x)
      by (unfold Binary32.ulp_exponent in *; lia).
    pose proof (scaled_ge x ltac:(lra) ltac:(assumption)) as Hs.
    apply round_half_even_ge in Hs. lia.
Qed.

(** *** The order of binary32 values *)

Lemma round_not_nan (x : R) : Binary32.round x <> Binary32.NaN.
Proof. unfold Binary32.round. now destruct (Rleb _ _). Qed.

Lemma le_negative_infinity (a : Binary32.float) :
  a <> Binary32.NaN -> Binary32.le (Binary32.Infinity true) a.
Proof. now destruct a as [x|[|]|]. Qed.

Lemma le_positive_infinity (a : Binary32.float) :
  a <> Binary32.NaN -> Binary32.le a (Binary32.Infinity false).
Proof. now destruct a as [x|[|]|]. Qed.

Lemma round_integer (m : Z) :
  Z.abs m < 2 ^ 24 -> Binary32.round (IZR m) = Binary32.Finite (IZR m).
Proof.
  intros Hm. unfold Binary32.round. rewrite nearest_integer by exact Hm.
  assert (Rleb (powerRZ 2 128) (Rabs (IZR m)) = false) as ->; [|reflexivity].
  unfold Rleb. destruct (Rle_dec _ _) as [Hle|]; [|reflexivity].
  rewrite <- abs_IZR, pow2_IZR in Hle by lia. apply le_IZR in Hle. lia.
Qed.

Lemma round_mono (x y : R) :
  (x <= y)%R -> Binary32.le (Binary32.round x) (Binary32.round y).
Proof.
  intros Hxy. pose proof (nearest_mono x y Hxy) as Hn.
  pose proof (pow2_pos 128) as Hp.
  assert (0 <= x -> 0 <= Binary32.nearest x)%R by apply nearest_nonneg.
  assert (x <= 0 -> Binary32.nearest x <= 0)%R by apply nearest_nonpos.
  assert (0 <= y -> 0 <= Binary32.nearest y)%R by apply nearest_nonneg.
  assert (y <= 0 -> Binary32.nearest y <= 0)%R by apply nearest_nonpos.
  unfold Binary32.round, Rleb, Rltb.
  destruct (Rle_dec _ (Rabs (Binary32.nearest x))) as [Hx|Hx];
    destruct (Rle_dec _ (Rabs (Binary32.nearest y))) as [Hy|Hy];
    destruct (Rlt_dec x 0); destruct (Rlt_dec y 0); simpl; try exact I;
    try exact Hn;
    revert Hx Hy; unfold Rabs;
    destruct (Rcase_abs (Binary32.nearest x));
    destruct (Rcase_abs (Binary32.nearest y)); lra.
Qed.

Lemma round_nonneg (x : R) :
  (0 <= x)%R -> Binary32.le (Binary32.Finite 0) (Binary32.round x).
Proof.
  intros Hx. change 0%R with (IZR 0). rewrite <- (round_integer 0) by lia.
  now apply round_mono.
Qed.

Lemma round_is_positive (x : R) :
  (powerRZ 2 (-150) < x)%R -> Binary32.is_positive (Binary32.round x).
Proof.
  intros Hx. pose proof (pow2_pos (-150)).
  unfold Binary32.round. destruct (Rleb _ _); simpl.
  - unfold Rltb. destruct (Rlt_dec x 0); [lra | reflexivity].
  - now apply nearest_pos.
Qed.

Lemma is_positive_le (a b : Binary32.float) :
  Binary32.is_positive a -> Binary32.le a b -> Binary32.is_positive b.
Proof.
  destruct a as [x|[|]|], b as [y|[|]|]; simpl; try tauto; try discriminate.
  lra.
Qed.

(** *** The conversion to an amplitude ratio, in float32 *)

Lemma divide_by_20_not_nan (a : Binary32.float) :
  a <> Binary32.NaN -> Binary32.divide_by_20 a <> Binary32.NaN.
Proof. destruct a; simpl; [intros _; apply round_not_nan | easy | easy]. Qed.

Lemma power_of_10_not_nan (a : Binary32.float) :
  a <> Binary32.NaN -> Binary32.power_of_10 a <> Binary32.NaN.
Proof.
  destruct a as [x|[|]|]; simpl; [intros _; apply round_not_nan|easy..].
Qed.

Lemma le_not_nan (a b : Binary32.float) :
  Binary32.le a b -> a <> Binary32.NaN /\ b <> Binary32.NaN.
Proof. destruct a as [x|[|]|], b as [y|[|]|]; simpl; easy. Qed.

Lemma divide_by_20_mono (a b : Binary32.float) :
  Binary32.le a b ->
  Binary32.le (Binary32.divide_by_20 a) (Binary32.divide_by_20 b).
Proof.
  intros Hab. destruct (le_not_nan a b Hab) as [Ha Hb].
  destruct a as [x|[|]|], b as [y|[|]|]; simpl in *; try easy.
  - apply round_mono. lra.
  - apply le_positive_infinity, round_not_nan.
  - apply le_negative_infinity, round_not_nan.
Qed.

Lemma power_of_10_nonneg (a : Binary32.float) :
  a <> Binary32.NaN ->
  Binary32.le (Binary32.Finite 0) (Binary32.power_of_10 a).
Proof.
  destruct a as [x|[|]|]; simpl; intros Ha; try easy; try lra.
  apply round_nonneg. unfold Rpower. left. apply exp_pos.
Qed.

Lemma power_of_10_mono (a b : Binary32.float) :
  Binary32.le a b ->
  Binary32.le (Binary32.power_of_10 a) (Binary32.power_of_10 b).
Proof.
  intros Hab. destruct (le_not_nan a b Hab) as [Ha Hb].
  destruct a as [x|[|]|], b as [y|[|]|]; simpl in *; try easy; try lra.
  - apply round_mono. apply Rle_Rpower; lra.
  - apply le_positive_infinity, round_not_nan.
  - apply round_nonneg. unfold Rpower. left. apply exp_pos.
Qed.

Lemma amplitude_ratio_float32_mono (a b : Binary32.float) :
  Binary32.le a b ->
  Binary32.le (convert_decibels_to_amplitude_ratio_float32 a)
    (convert_decibels_to_amplitude_ratio_float32 b).
Proof.
  intros Hab. now apply power_of_10_mono, divide_by_20_mono.
Qed.

Lemma amplitude_ratio_float32_nonneg (x : R) :
  Binary32.le (Binary32.Finite 0)
    (convert_decibels_to_amplitude_ratio_float32 (Binary32.round x)).
Proof.
  apply power_of_10_nonneg, divide_by_20_not_nan, round_not_nan.
Qed.

(** The ratio of an integer number of bels. *)
Lemma amplitude_ratio_float32_bels (q : Z) :
  Z.abs (20 * q) < 2 ^ 24 ->
  convert_decibels_to_amplitude_ratio_float32 (Binary32.round (IZR (20 * q)))
  = Binary32.round (Rpower 10 (IZR q)).
Proof.
  intros Hq. rewrite round_integer by exact Hq.
  unfold convert_decibels_to_amplitude_ratio_float32. simpl.
  replace (IZR (20 * q) / 20)%R with (IZR q) by (rewrite mult_IZR; field).
  now rewrite round_integer by lia.
Qed.

Lemma power_of_10_integer (q : Z) : Rpower 10 (IZR q) = powerRZ 10 q.
Proof. symmetry. apply powerRZ_Rpower. lra. Qed.

(** [10^-37] is a normal float32, [10^-46] is below half the least
    subnormal. *)
Lemma normal_ratio : (powerRZ 2 (-126) <= Rpower 10 (-37))%R.
Proof.
  rewrite power_of_10_integer. unfold powerRZ. rewrite !pow_IZR.
  apply Rinv_le_contravar; [apply IZR_lt; now vm_compute|].
  apply IZR_le. now vm_compute.
Qed.

Lemma greatest_zero_ratio (q : Z) :
  q <= -46 -> Binary32.round (Rpower 10 (IZR q)) = Binary32.Finite 0.
Proof.
  intros Hq.
  assert (0 < Rpower 10 (IZR q) <= powerRZ 2 (-150))%R as [Hpos Hle].
  { split; [apply exp_pos|].
    apply Rle_trans with (Rpower 10 (-46)).
    - apply Rle_Rpower; [lra | now apply IZR_le].
    - rewrite power_of_10_integer. unfold powerRZ. rewrite !pow_IZR.
      apply Rinv_le_contravar; [apply IZR_lt; now vm_compute|].
      apply IZR_le. now vm_compute. }
  unfold Binary32.round. rewrite nearest_underflow by lra.
  rewrite Rabs_R0. unfold Rleb.
  pose proof (pow2_pos 128).
  destruct (Rle_dec (powerRZ 2 128) 0); [lra | reflexivity].
Qed.

(** *** The float32 fade mask *)

Lemma get_fade_mask_float32_ok (start_level_db end_level_db : R) (n : Z) :
  0 <= n ->
  exists mask, get_fade_mask_float32 start_level_db end_level_db n = Ok mask
               /\ Py.len mask = n.
Proof.
  intros Hn. unfold get_fade_mask_float32.
  destruct (linspace_ok start_level_db end_level_db n Hn) as (y & -> & Hy).
  eexists; split; [reflexivity|].
  unfold Py.len in *. now rewrite length_map.
Qed.

Lemma get_fade_mask_float32_lookup (start stop : R) (num : Z)
  (mask : list Binary32.float) (i : nat) :
  1 <= num -> get_fade_mask_float32 start stop num = Ok mask ->
  (i < Z.to_nat num)%nat ->
  mask !! i
  = Some (convert_decibels_to_amplitude_ratio_float32
            (Binary32.round (level start stop num i))).
Proof.
  intros Hn Hm Hi. unfold get_fade_mask_float32 in Hm.
  destruct (Np.linspace start stop num) as [y|e] eqn:Hy; [|discriminate].
  injection Hm as <-.
  change (@map) with (@fmap list _).
  rewrite list_lookup_fmap, (linspace_lookup start stop num y i) by assumption.
  reflexivity.
Qed.

(** From -740 dB up, the float32 amplitude ratio is at least [10^-37], a
    normal float32, and so not zero. *)
Lemma amplitude_ratio_float32_positive (x : R) :
  (-740 <= x)%R ->
  Binary32.is_positive
    (convert_decibels_to_amplitude_ratio_float32 (Binary32.round x)).
Proof.
  intros Hx.
  apply (is_positive_le (Binary32.round (Rpower 10 (-37)))).
  - apply round_is_positive.
    pose proof normal_ratio. pose proof (pow2_lt (-150) (-126) ltac:(lia)).
    lra.
  - rewrite <- (amplitude_ratio_float32_bels (-37)) by now vm_compute.
    apply amplitude_ratio_float32_mono, round_mono. exact Hx.
Qed.

(** C3, as the code has it. For [length >= 1] the fade mask has exactly
    [length] float32 entries, none of them negative, and all of them
    strictly positive when both levels are at least -740 dB, where the
    amplitude ratio is a normal float32: the ratio of a lower level can
    underflow to [0.0]. The first entry is the float32 amplitude ratio
    [10^(start_level_db/20)], and the mask is non-decreasing when
    [start_level_db <= end_level_db] and non-increasing otherwise. The last
    entry is the float32 amplitude ratio [10^(end_level_db/20)] when
    [length >= 2]; a mask of one entry holds the start level only. *)
Theorem fade_mask_curve (start_level_db end_level_db : R) (n : Z) :
  1 <= n ->
  exists mask,
    get_fade_mask_float32 start_level_db end_level_db n = Ok mask
    /\ Py.len mask = n
    /\ Forall (Binary32.le (Binary32.Finite 0)) mask
    /\ ((-740 <= start_level_db)%R -> (-740 <= end_level_db)%R ->
        Forall Binary32.is_positive mask)
    /\ head mask
       = Some (convert_decibels_to_amplitude_ratio_float32
                 (Binary32.round start_level_db))
    /\ (2 <= n ->
        last mask
        = Some (convert_decibels_to_amplitude_ratio_float32
                  (Binary32.round end_level_db)))
    /\ (n = 1 ->
        last mask
        = Some (convert_decibels_to_amplitude_ratio_float32
                  (Binary32.round start_level_db)))
    /\ ((start_level_db <= end_level_db)%R -> Binary32.non_decreasing mask)
    /\ ((end_level_db < start_level_db)%R -> Binary32.non_increasing mask).
Proof.
  intros Hn.
  destruct (get_fade_mask_float32_ok start_level_db end_level_db n
              ltac:(lia)) as (mask & Hmask & Hlen).
  pose proof (get_fade_mask_float32_lookup start_level_db end_level_db n mask)
    as Hlk.
  assert (length mask = Z.to_nat n) as Hlen' by (unfold Py.len in Hlen; lia).
  exists mask. split; [exact Hmask|]. split; [exact Hlen|].
  split; [|split; [|split; [|split; [|split; [|split]]]]].
  - apply Forall_lookup. intros i x Hx.
    pose proof (lookup_lt_Some _ _ _ Hx) as Hi.
    rewrite Hlk in Hx by (assumption || lia).
    injection Hx as <-. apply amplitude_ratio_float32_nonneg.
  - intros Hs He. apply Forall_lookup. intros i x Hx.
    pose proof (lookup_lt_Some _ _ _ Hx) as Hi.
    rewrite Hlk in Hx by (assumption || lia).
    injection Hx as <-. apply amplitude_ratio_float32_positive.
    pose proof (level_between start_level_db end_level_db n i ltac:(lia))
      as [Hlo _].
    revert Hlo. unfold Rmin. destruct (Rle_dec _ _); lra.
  - rewrite head_lookup, Hlk by (assumption || lia).
    now rewrite level_first.
  - intros H2. rewrite last_lookup, Hlk by (assumption || lia).
    rewrite Hlen'.
    replace (Nat.pred (Z.to_nat n)) with (Z.to_nat n - 1)%nat by lia.
    now rewrite level_last.
  - intros ->. rewrite last_lookup, Hlk by (assumption || lia).
    rewrite Hlen'. simpl. now rewrite level_first.
  - intros Hs i j a b Hij Ha Hb.
    pose proof (lookup_lt_Some _ _ _ Ha). pose proof (lookup_lt_Some _ _ _ Hb).
    rewrite Hlk in Ha, Hb by (assumption || lia).
    injection Ha as <-. injection Hb as <-.
    apply amplitude_ratio_float32_mono, round_mono.
    now apply (level_mono start_level_db end_level_db n i j Hij).
  - intros Hs i j a b Hij Ha Hb.
    pose proof (lookup_lt_Some _ _ _ Ha). pose proof (lookup_lt_Some _ _ _ Hb).
    rewrite Hlk in Ha, Hb by (assumption || lia).
    injection Ha as <-. injection Hb as <-.
    apply amplitude_ratio_float32_mono, round_mono.
    apply (level_mono start_level_db end_level_db n i j Hij). lra.
Qed.

Lemma fade_mask_curve_witness :
  exists mask,
    get_fade_mask_float32 0 (-20) 5 = Ok mask
    /\ Py.len mask = 5
    /\ Forall (Binary32.le (Binary32.Finite 0)) mask
    /\ Forall Binary32.is_positive mask
    /\ head mask
       = Some (convert_decibels_to_amplitude_ratio_float32 (Binary32.round 0))
    /\ last mask
       = Some (convert_decibels_to_amplitude_ratio_float32
                 (Binary32.round (-20)))
    /\ Binary32.non_increasing mask.
Proof.
  destruct (fade_mask_curve 0 (-20) 5 ltac:(lia))
    as (mask & Hmask & Hlen & Hnn & Hpos & Hfirst & Hlast & _ & _ & Hdown).
  exists mask. repeat split; try assumption.
  - apply Hpos; lra.
  - apply Hlast. lia.
  - apply Hdown. lra.
Defined.

Lemma amplitude_ratio_float32_0 :
  convert_decibels_to_amplitude_ratio_float32 (Binary32.round 0)
  = Binary32.Finite 1.
Proof.
  change 0%R with (IZR (20 * 0)).
  rewrite amplitude_ratio_float32_bels by now vm_compute.
  rewrite Rpower_O by lra. apply (round_integer 1). now vm_compute.
Qed.

Lemma amplitude_ratio_float32_20 :
  convert_decibels_to_amplitude_ratio_float32 (Binary32.round 20)
  = Binary32.Finite 10.
Proof.
  change 20%R with (IZR (20 * 1)).
  rewrite amplitude_ratio_float32_bels by now vm_compute.
  rewrite Rpower_1 by lra. apply (round_integer 10). now vm_compute.
Qed.

(** C3 fails in two ways. At [length = 1] the mask from 0 dB to 20 dB is
    the start level alone, so its last entry is [10^0 = 1] and not
    [10^(20/20) = 10], exactly or in float32. And the mask of three points
    from 0 dB to -2000 dB is [1.0, 0.0, 0.0]: the ratios [10^-50] and
    [10^-100] are below the least positive float32, so not every entry is
    strictly positive. *)
Lemma fade_mask_counterexample :
  (1 <= 1
   /\ get_fade_mask_float32 0 20 1 = Ok [Binary32.Finite 1]
   /\ Binary32.Finite 1 <> Binary32.Finite (Rpower 10 (20 / 20))
   /\ Binary32.Finite 1
      <> convert_decibels_to_amplitude_ratio_float32 (Binary32.round 20))
  /\ (1 <= 3
      /\ get_fade_mask_float32 0 (-2000) 3
         = Ok [Binary32.Finite 1; Binary32.Finite 0; Binary32.Finite 0]
      /\ ~ Forall Binary32.is_positive
             [Binary32.Finite 1; Binary32.Finite 0; Binary32.Finite 0]).
Proof.
  split.
  - split; [lia|]. split; [|split].
    + unfold get_fade_mask_float32. simpl.
      change (Z.of_nat 0) with 0.
      replace (0 * (20 - 0) + 0)%R with 0%R by lra.
      now rewrite amplitude_ratio_float32_0.
    + intros [= Heq]. replace (20 / 20)%R with 1%R in Heq by lra.
      rewrite Rpower_1 in Heq by lra. lra.
    + rewrite amplitude_ratio_float32_20. intros [= Heq]. lra.
  - split; [lia|]. split.
    + unfold get_fade_mask_float32. simpl.
      change (Z.of_nat 0) with 0. change (Z.of_nat 1) with 1.
      change (3 - 1) with 2.
      replace (0 * ((-2000 - 0) / 2) + 0)%R with 0%R by lra.
      replace (1 * ((-2000 - 0) / 2) + 0)%R with (IZR (20 * -50))
        by (change (20 * -50) with (-1000); lra).
      change (-2000)%R with (IZR (20 * -100)).
      rewrite amplitude_ratio_float32_0.
      rewrite !amplitude_ratio_float32_bels by now vm_compute.
      now rewrite !greatest_zero_ratio by lia.
    + intros Hall. apply Forall_cons in Hall as [_ Hall].
      apply Forall_cons in Hall as [Hz _]. simpl in Hz. lra.
Qed.

(** ** In-place multiplication of a slice *)

Section ImulRow.
Variables (a b : Z) (v row : list R).
Hypothesis Hab : 0 <= a <= b.
Hypothesis Hb : b <= Py.len row.
Hypothesis Hv : length v = Z.to_nat (b - a).

Lemma imul_row_length : length (Np.imul_row a b v row) = length row.
Proof.
  unfold Np.imul_row, Py.len in *.
  rewrite !length_app, length_zip_with, !length_firstn, !length_skipn. lia.
Qed.

Lemma imul_row_before (i : nat) :
  Z.of_nat i < a -> Np.imul_row a b v row !! i = row !! i.
Proof.
  intros Hi. unfold Np.imul_row, Py.len in *.
  rewrite lookup_app_l by (rewrite length_firstn; lia).
  apply lookup_take_lt. lia.
Qed.

Lemma imul_row_inside (i : nat) (x : R) :
  a <= Z.of_nat i < b -> row !! i = Some x ->
  exists m, v !! (i - Z.to_nat a)%nat = Some m
            /\ Np.imul_row a b v row !! i = Some (x * m)%R.
Proof.
  intros Hi Hx. unfold Np.imul_row, Py.len in *.
  destruct (lookup_lt_is_Some_2 v (i - Z.to_nat a)) as [m Hm]; [lia|].
  exists m. split; [exact Hm|].
  rewrite lookup_app_r by (rewrite length_firstn; lia).
  rewrite length_firstn, Nat.min_l by lia.
  rewrite lookup_app_l
    by (rewrite length_zip_with, length_firstn, length_skipn; lia).
  rewrite lookup_zip_with, lookup_take_lt, lookup_drop by lia.
  replace (Z.to_nat a + (i - Z.to_nat a))%nat with i by lia.
  rewrite Hx, Hm. reflexivity.
Qed.

Lemma imul_row_after (i : nat) :
  b <= Z.of_nat i -> Np.imul_row a b v row !! i = row !! i.
Proof.
  intros Hi. unfold Np.imul_row, Py.len in *.
  rewrite lookup_app_r by (rewrite length_firstn; lia).
  rewrite length_firstn, Nat.min_l by lia.
  rewrite lookup_app_r
    by (rewrite length_zip_with, length_firstn, length_skipn; lia).
  rewrite length_zip_with, length_firstn, length_skipn, lookup_drop.
  f_equal. lia.
Qed.

End ImulRow.

(** ** What [apply] does to one channel *)

(** The gain that sample [i] is multiplied by: the held start gain before
    [effective_start], the cropped curve from there to [effective_end],
    the held end gain from there on. *)
Definition multiplier (effective_start effective_end : Z) (cropped : list R)
  (start_gain_db end_gain_db : R) (i : nat) : option R :=
  if Z.of_nat i <? effective_start then
    Some (convert_decibels_to_amplitude_ratio start_gain_db)
  else if Z.of_nat i <? effective_end then
    cropped !! (i - Z.to_nat effective_start)%nat
  else Some (convert_decibels_to_amplitude_ratio end_gain_db).

(** The three in-place updates of lines 173-181 on one channel. *)
Definition apply_row (s e total : Z) (cropped : list R) (g0 g1 : R)
  (row : list R) : list R :=
  Np.imul_row e total (replicate (Z.to_nat (total - e)) g1)
    (Np.imul_row 0 s (replicate (Z.to_nat (s - 0)) g0)
       (Np.imul_row s e cropped row)).

Local Ltac row_side :=
  rewrite ?length_replicate; unfold Py.len in *; lia.

Section ApplyRow.
Variables (s e total : Z) (cropped row : list R).
Variables (start_gain_db end_gain_db : R).
Hypothesis Hse : 0 <= s <= e.
Hypothesis He : e <= total.
Hypothesis Hrow : Py.len row = total.
Hypothesis Hcropped : Py.len cropped = e - s.

Let g0 := convert_decibels_to_amplitude_ratio start_gain_db.
Let g1 := convert_decibels_to_amplitude_ratio end_gain_db.
Let r1 := Np.imul_row s e cropped row.
Let r2 := Np.imul_row 0 s (replicate (Z.to_nat (s - 0)) g0) r1.

Lemma apply_row_r1_length : length r1 = length row.
Proof. apply imul_row_length; unfold Py.len in *; lia. Qed.

Lemma apply_row_r2_length : length r2 = length row.
Proof.
  unfold r2. rewrite imul_row_length; [apply apply_row_r1_length | lia | |].
  - unfold Py.len. rewrite apply_row_r1_length. unfold Py.len in *. lia.
  - now rewrite length_replicate.
Qed.

Lemma apply_row_length :
  length (apply_row s e total cropped g0 g1 row) = length row.
Proof.
  unfold apply_row. fold r1. fold r2.
  rewrite imul_row_length; [apply apply_row_r2_length | lia | |].
  - unfold Py.len. rewrite apply_row_r2_length. unfold Py.len in *. lia.
  - now rewrite length_replicate.
Qed.

Lemma apply_row_lookup (i : nat) (x : R) :
  row !! i = Some x ->
  exists m,
    multiplier s e cropped start_gain_db end_gain_db i = Some m
    /\ apply_row s e total cropped g0 g1 row !! i = Some (x * m)%R.
Proof.
  intros Hx. pose proof (lookup_lt_Some _ _ _ Hx) as Hi.
  pose proof apply_row_r1_length as L1. pose proof apply_row_r2_length as L2.
  assert (Hr1 : Py.len r1 = total) by (unfold Py.len in *; lia).
  assert (Hr2 : Py.len r2 = total) by (unfold Py.len in *; lia).
  unfold apply_row, multiplier. fold r1. fold r2.
  destruct (Z.of_nat i <? s) eqn:E1; [|destruct (Z.of_nat i <? e) eqn:E2].
  - apply Z.ltb_lt in E1. exists g0. split; [reflexivity|].
    rewrite imul_row_before by row_side.
    destruct (imul_row_inside 0 s (replicate (Z.to_nat (s - 0)) g0) r1
                ltac:(lia) ltac:(lia) ltac:(now rewrite length_replicate)
                i x ltac:(lia)) as (m & Hm & Hr).
    { unfold r1. rewrite imul_row_before by row_side. exact Hx. }
    apply lookup_replicate in Hm as [-> _]. exact Hr.
  - apply Z.ltb_ge in E1. apply Z.ltb_lt in E2.
    destruct (imul_row_inside s e cropped row ltac:(lia) ltac:(lia)
                ltac:(unfold Py.len in *; lia) i x ltac:(lia) Hx)
      as (m & Hm & Hr).
    exists m. split; [exact Hm|].
    rewrite imul_row_before by row_side.
    unfold r2. rewrite imul_row_after by row_side. exact Hr.
  - apply Z.ltb_ge in E1. apply Z.ltb_ge in E2.
    exists g1. split; [reflexivity|].
    destruct (imul_row_inside e total (replicate (Z.to_nat (total - e)) g1) r2
                ltac:(lia) ltac:(lia) ltac:(now rewrite length_replicate)
                i x ltac:(unfold Py.len in *; lia)) as (m & Hm & Hr).
    { unfold r2. rewrite imul_row_after by row_side.
      unfold r1. rewrite imul_row_after by row_side. exact Hx. }
    apply lookup_replicate in Hm as [-> _]. exact Hr.
Qed.

End ApplyRow.

(** ** Arrays under the in-place updates *)

Lemma imul_row_empty (a : Z) (v row : list R) : Np.imul_row a a v row = row.
Proof.
  unfold Np.imul_row. rewrite Z.sub_diag. simpl.
  rewrite Nat.add_0_r. apply firstn_skipn.
Qed.

Lemma channels_len (arr : Np.ndarray) :
  Np.wf arr ->
  Forall (fun row => Py.len row = Np.shape_last arr) (Np.channels arr).
Proof.
  destruct arr as [dt data | dt ncols rows]; simpl; intros Hwf.
  - constructor; [reflexivity | constructor].
  - eapply Forall_impl; [exact Hwf|]. intros row Hrow. simpl in Hrow.
    unfold Py.len. lia.
Qed.

Section MapLastAxis.
Variables (f : list R -> list R) (arr : Np.ndarray).
Hypothesis Hf : Forall (fun row => length (f row) = length row)
                  (Np.channels arr).

Lemma map_last_axis_shape :
  Np.shape (Np.map_last_axis f arr) = Np.shape arr.
Proof.
  destruct arr as [dt data | dt ncols rows]; simpl in *.
  - inversion Hf; subst. unfold Py.len. congruence.
  - unfold Py.len. now rewrite length_map.
Qed.

Lemma map_last_axis_shape_last :
  Np.shape_last (Np.map_last_axis f arr) = Np.shape_last arr.
Proof.
  destruct arr as [dt data | dt ncols rows]; simpl in *; [|reflexivity].
  inversion Hf; subst. unfold Py.len. congruence.
Qed.

Lemma map_last_axis_dtype :
  Np.dtype_of (Np.map_last_axis f arr) = Np.dtype_of arr.
Proof. destruct arr; reflexivity. Qed.

Lemma map_last_axis_wf : Np.wf arr -> Np.wf (Np.map_last_axis f arr).
Proof.
  destruct arr as [dt data | dt ncols rows]; simpl in *; [trivial|].
  intros Hwf. apply Forall_map.
  rewrite Forall_forall in *. intros row Hin. simpl.
  rewrite Hf by assumption. now apply Hwf.
Qed.

Lemma map_last_axis_channels :
  Np.channels (Np.map_last_axis f arr) = map f (Np.channels arr).
Proof. destruct arr; reflexivity. Qed.

End MapLastAxis.

Lemma map_last_axis_compose (f g : list R -> list R) (arr : Np.ndarray) :
  Np.map_last_axis f (Np.map_last_axis g arr)
  = Np.map_last_axis (fun row => f (g row)) arr.
Proof.
  destruct arr as [dt data | dt ncols rows]; simpl; [reflexivity|].
  now rewrite map_map.
Qed.

Lemma map_last_axis_ext (f g : list R -> list R) (arr : Np.ndarray) :
  (forall row, f row = g row) ->
  Np.map_last_axis f arr = Np.map_last_axis g arr.
Proof.
  intros Hfg. destruct arr as [dt data | dt ncols rows]; simpl.
  - now rewrite Hfg.
  - f_equal. apply map_ext. exact Hfg.
Qed.

Lemma map_last_axis_id (f : list R -> list R) (arr : Np.ndarray) :
  (forall row, f row = row) -> Np.map_last_axis f arr = arr.
Proof.
  intros Hf. destruct arr as [dt data | dt ncols rows]; simpl.
  - now rewrite Hf.
  - f_equal. rewrite <- (map_id rows) at 2. apply map_ext. exact Hf.
Qed.

(** ** Running [apply] *)

Lemma imul_slice_at_ok (l : Np.loc) (h : Np.heap) (arr : Np.ndarray)
  (s e : Z) (v : list R) :
  h !! l = Some arr ->
  0 <= s <= e -> e <= Np.shape_last arr -> length v = Z.to_nat (e - s) ->
  Np.imul_slice_at l (Some s) (Some e) v h
  = (Ok tt, <[l := Np.map_last_axis (Np.imul_row s e v) arr]> h).
Proof.
  intros Hl Hse He Hv.
  unfold Np.imul_slice_at, bind, Np.deref, lift_result, Np.store.
  rewrite Hl. unfold Np.imul_slice, Py.slice_bounds, Py.adjust_index.
  destruct (s <? 0) eqn:E1; [lia|]. destruct (e <? 0) eqn:E2; [lia|].
  rewrite !Z.min_l by lia.
  unfold Np.broadcast_to. rewrite Hv, Nat.eqb_refl. reflexivity.
Qed.

Lemma imul_slice_scalar_prefix (l : Np.loc) (h : Np.heap) (arr : Np.ndarray)
  (s : Z) (c : R) :
  h !! l = Some arr -> 0 <= s <= Np.shape_last arr ->
  Np.imul_slice_scalar_at l None (Some s) c h
  = (Ok tt,
     <[l := Np.map_last_axis
              (Np.imul_row 0 s (replicate (Z.to_nat (s - 0)) c)) arr]> h).
Proof.
  intros Hl Hs.
  unfold Np.imul_slice_scalar_at, bind, Np.deref, Np.store. rewrite Hl.
  unfold Np.imul_slice_scalar, Py.slice_bounds, Py.adjust_index.
  destruct (s <? 0) eqn:E1; [lia|]. rewrite Z.min_l by lia. reflexivity.
Qed.

Lemma imul_slice_scalar_suffix (l : Np.loc) (h : Np.heap) (arr : Np.ndarray)
  (e : Z) (c : R) :
  h !! l = Some arr -> 0 <= e <= Np.shape_last arr ->
  Np.imul_slice_scalar_at l (Some e) None c h
  = (Ok tt,
     <[l := Np.map_last_axis
              (Np.imul_row e (Np.shape_last arr)
                 (replicate (Z.to_nat (Np.shape_last arr - e)) c)) arr]> h).
Proof.
  intros Hl He.
  unfold Np.imul_slice_scalar_at, bind, Np.deref, Np.store. rewrite Hl.
  unfold Np.imul_slice_scalar, Py.slice_bounds, Py.adjust_index.
  destruct (e <? 0) eqn:E1; [lia|]. rewrite Z.min_l by lia. reflexivity.
Qed.

Lemma shape_last_nonneg (arr : Np.ndarray) : 0 <= Np.shape_last arr.
Proof. destruct arr; simpl; unfold Py.len; lia. Qed.

Lemma held_start_gain (l : Np.loc) (h : Np.heap) (arr : Np.ndarray)
  (s : Z) (c : R) :
  h !! l = Some arr -> 0 <= s <= Np.shape_last arr ->
  (if s >? 0 then Np.imul_slice_scalar_at l None (Some s) c else ret tt) h
  = (Ok tt,
     <[l := Np.map_last_axis
              (Np.imul_row 0 s (replicate (Z.to_nat (s - 0)) c)) arr]> h).
Proof.
  intros Hl Hs. destruct (s >? 0) eqn:E.
  - now apply imul_slice_scalar_prefix.
  - assert (s = 0) as -> by lia.
    rewrite map_last_axis_id by (intros; apply imul_row_empty).
    unfold ret. now rewrite insert_id.
Qed.

Lemma held_end_gain (l : Np.loc) (h : Np.heap) (arr : Np.ndarray)
  (e : Z) (c : R) :
  h !! l = Some arr -> 0 <= e <= Np.shape_last arr ->
  (if e <? Np.shape_last arr
   then Np.imul_slice_scalar_at l (Some e) None c else ret tt) h
  = (Ok tt,
     <[l := Np.map_last_axis
              (Np.imul_row e (Np.shape_last arr)
                 (replicate (Z.to_nat (Np.shape_last arr - e)) c)) arr]> h).
Proof.
  intros Hl He. destruct (e <? Np.shape_last arr) eqn:E.
  - now apply imul_slice_scalar_suffix.
  - assert (e = Np.shape_last arr) as -> by lia.
    rewrite map_last_axis_id by (intros; apply imul_row_empty).
    unfold ret. now rewrite insert_id.
Qed.

(** The array that [apply] returns for parameters in the range that
    [randomize_parameters] draws from. *)
Definition applied (arr : Np.ndarray) (fade_mask : list R)
  (t0 fade_time_samples : Z) (start_gain_db end_gain_db : R) : Np.ndarray :=
  let '(cropped, s, e) :=
    crop fade_mask t0 fade_time_samples (Np.shape_last arr) in
  Np.map_last_axis
    (apply_row s e (Np.shape_last arr) cropped
       (convert_decibels_to_amplitude_ratio start_gain_db)
       (convert_decibels_to_amplitude_ratio end_gain_db)) arr.

Section ApplyRuns.
Variables (slf : GainTransition) (samples : Np.loc) (sample_rate : Z).
Variables (h : Np.heap) (arr : Np.ndarray).
Variables (fts t : Z) (sg eg : R) (fade_mask : list R).
Hypothesis Hsamples : h !! samples = Some arr.
Hypothesis Hwf : Np.wf arr.
Hypothesis Hfts : fade_time_samples (params slf) = Some fts.
Hypothesis Ht0 : t0 (params slf) = Some t.
Hypothesis Hsg : start_gain_db (params slf) = Some sg.
Hypothesis Heg : end_gain_db (params slf) = Some eg.
Hypothesis Hfts3 : 3 <= fts.
Hypothesis Hrange : - fts + 2 <= t <= Np.shape_last arr - 2.
Hypothesis Hmask : get_fade_mask sg eg fts = Ok fade_mask.

Lemma apply_runs :
  apply slf samples sample_rate h
  = (Ok (fresh (dom h)),
     <[fresh (dom h) := applied arr fade_mask t fts sg eg]> h).
Proof.
  pose proof (shape_last_nonneg arr) as Htotal.
  destruct (get_fade_mask_ok sg eg fts ltac:(lia)) as (mask' & Hm' & Hlen).
  rewrite Hmask in Hm'. injection Hm' as <-.
  pose proof (crop_spec fade_mask t fts _ Hlen Hfts3 Htotal Hrange) as Hc.
  pose proof (crop_len fade_mask t fts _ Hlen Hfts3 Htotal Hrange) as Hcl.
  unfold applied. rewrite Hc in *. simpl in Hcl.
  set (cropped := firstn _ _) in *.
  set (s := Z.max t 0) in *. set (e := Z.min (t + fts) (Np.shape_last arr)) in *.
  set (total := Np.shape_last arr) in *.
  assert (Hrows : Forall (fun row => Py.len row = total) (Np.channels arr))
    by now apply channels_len.
  assert (H1 : Forall (fun row => length (Np.imul_row s e cropped row)
                                  = length row) (Np.channels arr)).
  { eapply Forall_impl; [exact Hrows|]. intros row Hrow. simpl in Hrow.
    apply imul_row_length; unfold Py.len in *; lia. }
  set (g0 := convert_decibels_to_amplitude_ratio sg).
  set (g1 := convert_decibels_to_amplitude_ratio eg).
  set (arr1 := Np.map_last_axis (Np.imul_row s e cropped) arr).
  assert (Hs1 : Np.shape_last arr1 = total)
    by (apply map_last_axis_shape_last; exact H1).
  assert (Hrows1 : Forall (fun row => Py.len row = total) (Np.channels arr1)).
  { unfold arr1. rewrite map_last_axis_channels by exact H1. apply Forall_map.
    rewrite Forall_forall in *. intros row Hin. simpl.
    unfold Py.len in *. rewrite H1 by assumption. now apply Hrows. }
  set (f2 := Np.imul_row 0 s (replicate (Z.to_nat (s - 0)) g0)).
  assert (H2 : Forall (fun row => length (f2 row) = length row)
                 (Np.channels arr1)).
  { eapply Forall_impl; [exact Hrows1|]. intros row Hrow. simpl in Hrow.
    apply imul_row_length; rewrite ?length_replicate; unfold Py.len in *; lia. }
  set (arr2 := Np.map_last_axis f2 arr1).
  assert (Hs2 : Np.shape_last arr2 = total)
    by (unfold arr2; rewrite map_last_axis_shape_last; assumption).
  set (l := fresh (dom h)).
  unfold apply. unfold bind at 1. unfold Np.deref at 1. rewrite Hsamples.
  rewrite Hsg, Heg, Hfts, Ht0. cbn [lookup_key bind ret].
  rewrite Hmask. cbn [lift_result bind ret].
  fold total. rewrite Hc. fold cropped. fold s. fold e. fold g0. fold g1.
  assert (Hcopy : Np.copy samples h = (Ok l, <[l := arr]> h)).
  { unfold Np.copy, bind, Np.deref, Np.alloc. now rewrite Hsamples. }
  unfold bind at 1. rewrite Hcopy.
  unfold bind at 1.
  rewrite (imul_slice_at_ok l _ arr s e cropped)
    by (rewrite ?lookup_insert_eq; unfold Py.len in *; lia || reflexivity).
  rewrite insert_insert_eq. fold arr1.
  unfold bind at 1.
  rewrite (held_start_gain l _ arr1 s g0)
    by (rewrite ?lookup_insert_eq; lia || reflexivity).
  rewrite insert_insert_eq. fold f2. fold arr2.
  unfold bind at 1. rewrite <- Hs2.
  rewrite (held_end_gain l _ arr2 e g1)
    by (rewrite ?lookup_insert_eq; lia || reflexivity).
  rewrite insert_insert_eq. rewrite Hs2. unfold ret.
  do 2 f_equal. unfold arr2, arr1.
  rewrite !map_last_axis_compose. reflexivity.
Qed.

End ApplyRuns.

(** ** The array that [apply] returns *)

Section Applied.
Variables (arr : Np.ndarray) (fade_mask : list R) (t fts : Z) (sg eg : R).
Hypothesis Hwf : Np.wf arr.
Hypothesis Hlen : Py.len fade_mask = fts.
Hypothesis Hfts3 : 3 <= fts.
Hypothesis Hrange : - fts + 2 <= t <= Np.shape_last arr - 2.

Let total := Np.shape_last arr.
Let effective_start := Z.max t 0.
Let effective_end := Z.min (t + fts) total.
Let cropped := fst (fst (crop fade_mask t fts total)).

Lemma applied_eq :
  applied arr fade_mask t fts sg eg
  = Np.map_last_axis
      (apply_row effective_start effective_end total cropped
         (convert_decibels_to_amplitude_ratio sg)
         (convert_decibels_to_amplitude_ratio eg)) arr.
Proof.
  unfold applied, cropped, total.
  now rewrite (crop_spec fade_mask t fts _ Hlen Hfts3
                 (shape_last_nonneg arr) Hrange).
Qed.

Lemma applied_rows :
  Forall (fun row =>
            length (apply_row effective_start effective_end total cropped
                      (convert_decibels_to_amplitude_ratio sg)
                      (convert_decibels_to_amplitude_ratio eg) row)
            = length row) (Np.channels arr).
Proof.
  pose proof (shape_last_nonneg arr) as Htotal.
  pose proof (crop_len fade_mask t fts _ Hlen Hfts3 Htotal Hrange) as Hcl.
  eapply Forall_impl; [apply channels_len, Hwf|].
  intros row Hrow. simpl in Hrow.
  apply apply_row_length; subst effective_start effective_end total;
    try assumption; lia.
Qed.

Lemma applied_shape :
  Np.shape (applied arr fade_mask t fts sg eg) = Np.shape arr.
Proof. rewrite applied_eq. apply map_last_axis_shape, applied_rows. Qed.

Lemma applied_dtype :
  Np.dtype_of (applied arr fade_mask t fts sg eg) = Np.dtype_of arr.
Proof. rewrite applied_eq. apply map_last_axis_dtype, applied_rows. Qed.

Lemma applied_wf : Np.wf (applied arr fade_mask t fts sg eg).
Proof. rewrite applied_eq. apply map_last_axis_wf; [apply applied_rows|exact Hwf]. Qed.

Lemma applied_channels :
  Np.channels (applied arr fade_mask t fts sg eg)
  = map (apply_row effective_start effective_end total cropped
           (convert_decibels_to_amplitude_ratio sg)
           (convert_decibels_to_amplitude_ratio eg)) (Np.channels arr).
Proof. rewrite applied_eq. apply map_last_axis_channels, applied_rows. Qed.

Lemma applied_lookup (c : nat) (row : list R) (i : nat) (x : R) :
  Np.channels arr !! c = Some row -> row !! i = Some x ->
  exists m row',
    multiplier effective_start effective_end cropped sg eg i = Some m
    /\ Np.channels (applied arr fade_mask t fts sg eg) !! c = Some row'
    /\ row' !! i = Some (x * m)%R.
Proof.
  intros Hc Hx.
  pose proof (shape_last_nonneg arr) as Htotal.
  pose proof (crop_len fade_mask t fts _ Hlen Hfts3 Htotal Hrange) as Hcl.
  assert (Hrow : Py.len row = total).
  { pose proof (channels_len arr Hwf) as Hall.
    rewrite Forall_forall in Hall. apply Hall.
    eapply list_elem_of_lookup_2, Hc. }
  destruct (apply_row_lookup effective_start effective_end total cropped row
              sg eg) with (i := i) (x := x) as (m & Hm & Hout);
    try assumption; try (unfold effective_start, effective_end, total; lia).
  exists m. eexists. split; [exact Hm|]. split; [|exact Hout].
  rewrite applied_channels, list_lookup_fmap. now rewrite Hc.
Qed.

End Applied.

(** A transform whose parameters were drawn: a fade of three samples that
    starts one sample before the waveform, from 0 dB down to -6 dB. *)
Definition drawn_parameters : parameters :=
  {| should_apply := Some true; fade_time_samples := Some 3; t0 := Some (-1);
     start_gain_db := Some 0%R; end_gain_db := Some (-6)%R |}.

Definition drawn_transform : GainTransition :=
  {| p := 1; min_gain_db := (-24); max_gain_db := 6;
     min_duration := PyFloat (2 / 10); max_duration := PyFloat 6;
     duration_unit := "seconds"; params := drawn_parameters |}.

(** A stereo waveform of four samples, stored at reference 1. *)
Definition stereo : Np.ndarray :=
  Np.Arr2 Np.float32 4 [[1; 2; 3; 4]; [5; 6; 7; 8]]%R.

Definition stereo_heap : Np.heap := {[ 1%positive := stereo ]}.

(** Inside the window the cropped mask keeps each point of the curve on
    its sample: entry [i - effective_start] of the cropped mask is point
    [i - t0] of the curve from [sg] to [eg]. *)
Lemma cropped_curve_lookup (mask : list R) (t fts total : Z) (sg eg : R)
  (i : nat) :
  get_fade_mask sg eg fts = Ok mask -> 3 <= fts -> 0 <= total ->
  - fts + 2 <= t <= total - 2 ->
  Z.max t 0 <= Z.of_nat i < Z.min (t + fts) total ->
  fst (fst (crop mask t fts total)) !! (i - Z.to_nat (Z.max t 0))%nat
  = Some (convert_decibels_to_amplitude_ratio
            (sg + IZR (Z.of_nat i - t) * ((eg - sg) / IZR (fts - 1)))).
Proof.
  intros Hmask Hfts Htotal Hr Hi.
  destruct (get_fade_mask_ok sg eg fts ltac:(lia)) as (mask' & Hm' & Hlen).
  rewrite Hmask in Hm'. injection Hm' as <-.
  rewrite (crop_spec mask t fts total Hlen Hfts Htotal Hr). cbn [fst].
  rewrite lookup_take_lt, lookup_drop by lia.
  replace (Z.to_nat (Z.max t 0 - t) + (i - Z.to_nat (Z.max t 0)))%nat
    with (Z.to_nat (Z.of_nat i - t)) by lia.
  rewrite (get_fade_mask_lookup sg eg fts mask _ ltac:(lia) Hmask)
    by lia.
  unfold level. rewrite Z.max_r by lia.
  now replace (Z.of_nat (Z.to_nat (Z.of_nat i - t))) with (Z.of_nat i - t)
    by lia.
Qed.

(** C4. With parameters in the range that [randomize_parameters] draws from
    ([fade_time_samples >= 3], [t0] in
    [[-fade_time_samples + 2, total_samples - 2]]), [apply] returns a new
    array in which, in every channel, the sample at index [i] is the input
    sample at [i] times a gain [gain i] that does not depend on the
    channel: the amplitude ratio of [start_gain_db] before
    [effective_start]; inside the window the entry [i - effective_start] of
    the cropped fade mask, which is the amplitude ratio of the level
    interpolated at point [i - t0] of the [fade_time_samples] points from
    [start_gain_db] to [end_gain_db]; the amplitude ratio of [end_gain_db]
    from [effective_end] on. *)
Theorem apply_multiplies_each_sample
  (slf : GainTransition) (samples : Np.loc) (sample_rate : Z)
  (h : Np.heap) (arr : Np.ndarray) (fts t : Z) (sg eg : R) :
  h !! samples = Some arr -> Np.wf arr ->
  fade_time_samples (params slf) = Some fts ->
  t0 (params slf) = Some t ->
  start_gain_db (params slf) = Some sg ->
  end_gain_db (params slf) = Some eg ->
  3 <= fts -> - fts + 2 <= t <= Np.shape_last arr - 2 ->
  exists out arr' fade_mask (gain : nat -> R),
    apply slf samples sample_rate h = (Ok out, <[out := arr']> h)
    /\ get_fade_mask sg eg fts = Ok fade_mask
    /\ let total_samples := Np.shape_last arr in
       let effective_start := Z.max t 0 in
       let effective_end := Z.min (t + fts) total_samples in
       let cropped := fst (fst (crop fade_mask t fts total_samples)) in
       (forall i : nat,
          (Z.of_nat i < effective_start ->
           gain i = convert_decibels_to_amplitude_ratio sg)
          /\ (effective_start <= Z.of_nat i < effective_end ->
              cropped !! (i - Z.to_nat effective_start)%nat = Some (gain i)
              /\ gain i
                 = convert_decibels_to_amplitude_ratio
                     (sg + IZR (Z.of_nat i - t)
                           * ((eg - sg) / IZR (fts - 1))))
          /\ (effective_end <= Z.of_nat i ->
              gain i = convert_decibels_to_amplitude_ratio eg))
       /\ forall c row i x,
            Np.channels arr !! c = Some row -> row !! i = Some x ->
            exists row',
              Np.channels arr' !! c = Some row'
              /\ row' !! i = Some (x * gain i)%R.
Proof.
  intros Hs Hwf Hfts Ht Hsg Heg Hfts3 Hrange.
  pose proof (shape_last_nonneg arr) as Htotal.
  destruct (get_fade_mask_ok sg eg fts ltac:(lia)) as (mask & Hmask & Hlen).
  pose proof (cropped_curve_lookup mask t fts (Np.shape_last arr) sg eg)
    as Hcurve.
  exists (fresh (dom h)), (applied arr mask t fts sg eg), mask.
  exists (fun i =>
            if Z.of_nat i <? Z.max t 0
            then convert_decibels_to_amplitude_ratio sg
            else if Z.of_nat i <? Z.min (t + fts) (Np.shape_last arr)
            then convert_decibels_to_amplitude_ratio
                   (sg + IZR (Z.of_nat i - t) * ((eg - sg) / IZR (fts - 1)))
            else convert_decibels_to_amplitude_ratio eg).
  split; [|split; [exact Hmask|]].
  - now apply apply_runs with (arr := arr) (fts := fts) (t := t)
                              (sg := sg) (eg := eg).
  - intros total_samples effective_start effective_end cropped.
    subst total_samples effective_start effective_end cropped. split.
    + intros i. split; [|split].
      * intros Hi. now rewrite (proj2 (Z.ltb_lt _ _) Hi).
      * intros [Hlo Hhi].
        rewrite (proj2 (Z.ltb_ge _ _) Hlo), (proj2 (Z.ltb_lt _ _) Hhi).
        split; [now apply Hcurve | reflexivity].
      * intros Hi.
        assert ((Z.of_nat i <? Z.max t 0) = false) as -> by lia.
        now rewrite (proj2 (Z.ltb_ge _ _) Hi).
    + intros c row i x Hc Hx.
      destruct (applied_lookup arr mask t fts sg eg Hwf Hlen Hfts3 Hrange
                  c row i x Hc Hx) as (m & row' & Hm & Hrow' & Hout).
      exists row'. split; [exact Hrow'|]. rewrite Hout. do 2 f_equal.
      unfold multiplier in Hm.
      destruct (Z.of_nat i <? Z.max t 0) eqn:E1; [congruence|].
      destruct (Z.of_nat i <? Z.min (t + fts) (Np.shape_last arr)) eqn:E2;
        [|congruence].
      rewrite Hcurve in Hm by (assumption || lia). congruence.
Qed.

Lemma apply_multiplies_each_sample_witness :
  exists out arr' fade_mask (gain : nat -> R),
    apply drawn_transform 1%positive 44100 stereo_heap
    = (Ok out, <[out := arr']> stereo_heap)
    /\ get_fade_mask 0 (-6) 3 = Ok fade_mask
    /\ (forall i : nat,
          (Z.of_nat i < Z.max (-1) 0 ->
           gain i = convert_decibels_to_amplitude_ratio 0)
          /\ (Z.max (-1) 0 <= Z.of_nat i < Z.min (-1 + 3) 4 ->
              fst (fst (crop fade_mask (-1) 3 4))
                !! (i - Z.to_nat (Z.max (-1) 0))%nat = Some (gain i)
              /\ gain i
                 = convert_decibels_to_amplitude_ratio
                     (0 + IZR (Z.of_nat i - -1) * ((-6 - 0) / IZR (3 - 1))))
          /\ (Z.min (-1 + 3) 4 <= Z.of_nat i ->
              gain i = convert_decibels_to_amplitude_ratio (-6)))
       /\ forall c row i x,
            Np.channels stereo !! c = Some row -> row !! i = Some x ->
            exists row',
              Np.channels arr' !! c = Some row'
              /\ row' !! i = Some (x * gain i)%R.
Proof.
  apply (apply_multiplies_each_sample drawn_transform 1%positive 44100
           stereo_heap stereo 3 (-1) 0 (-6)).
  - reflexivity.
  - repeat constructor.
  - reflexivity.
  - reflexivity.
  - reflexivity.
  - reflexivity.
  - lia.
  - simpl. lia.
Defined.

(** C5. With parameters in the range that [randomize_parameters] draws
    from, the array that [apply] returns has the shape, the number of
    channels and the dtype of the input, one- or two-dimensional; a float32
    waveform stays float32. *)
Theorem apply_preserves_shape_and_dtype
  (slf : GainTransition) (samples : Np.loc) (sample_rate : Z)
  (h : Np.heap) (arr : Np.ndarray) (fts t : Z) (sg eg : R) :
  h !! samples = Some arr -> Np.wf arr ->
  fade_time_samples (params slf) = Some fts ->
  t0 (params slf) = Some t ->
  start_gain_db (params slf) = Some sg ->
  end_gain_db (params slf) = Some eg ->
  3 <= fts -> - fts + 2 <= t <= Np.shape_last arr - 2 ->
  exists out arr',
    apply slf samples sample_rate h = (Ok out, <[out := arr']> h)
    /\ Np.wf arr'
    /\ Np.shape arr' = Np.shape arr
    /\ length (Np.channels arr') = length (Np.channels arr)
    /\ Np.dtype_of arr' = Np.dtype_of arr
    /\ (Np.dtype_of arr = Np.float32 -> Np.dtype_of arr' = Np.float32).
Proof.
  intros Hs Hwf Hfts Ht Hsg Heg Hfts3 Hrange.
  destruct (get_fade_mask_ok sg eg fts ltac:(lia)) as (mask & Hmask & Hlen).
  exists (fresh (dom h)), (applied arr mask t fts sg eg).
  assert (Hd : Np.dtype_of (applied arr mask t fts sg eg) = Np.dtype_of arr)
    by now apply applied_dtype.
  repeat split.
  - now apply apply_runs with (arr := arr) (fts := fts) (t := t)
                              (sg := sg) (eg := eg).
  - now apply applied_wf.
  - now apply applied_shape.
  - rewrite applied_channels by assumption. apply length_map.
  - exact Hd.
  - intros <-. exact Hd.
Qed.

Lemma apply_preserves_shape_and_dtype_witness :
  exists out arr',
    apply drawn_transform 1%positive 44100 stereo_heap
    = (Ok out, <[out := arr']> stereo_heap)
    /\ Np.wf arr'
    /\ Np.shape arr' = Np.shape stereo
    /\ length (Np.channels arr') = length (Np.channels stereo)
    /\ Np.dtype_of arr' = Np.dtype_of stereo
    /\ (Np.dtype_of stereo = Np.float32 -> Np.dtype_of arr' = Np.float32).
Proof.
  apply (apply_preserves_shape_and_dtype drawn_transform 1%positive 44100
           stereo_heap stereo 3 (-1) 0 (-6)).
  - reflexivity.
  - repeat constructor.
  - reflexivity.
  - reflexivity.
  - reflexivity.
  - reflexivity.
  - lia.
  - simpl. lia.
Defined.

(** ** The frame of [apply] *)

(** [written_at l h0 hh]: the store [hh] is [h0] but for the array at [l]. *)
Definition written_at (l : Np.loc) (h0 hh : Np.heap) : Prop :=
  exists a, hh = <[l := a]> h0.

Lemma written_at_store (l : Np.loc) (h0 hh : Np.heap) (a : Np.ndarray) :
  written_at l h0 hh -> written_at l h0 (<[l := a]> hh).
Proof. intros [a0 ->]. exists a. apply insert_insert_eq. Qed.

Lemma imul_slice_at_frame (l : Np.loc) (start stop : option Z) (v : list R)
  (h0 hh : Np.heap) :
  written_at l h0 hh ->
  written_at l h0 (snd (Np.imul_slice_at l start stop v hh)).
Proof.
  intros Hw. unfold Np.imul_slice_at, bind, Np.deref, lift_result, Np.store.
  destruct (hh !! l) as [a|]; [|exact Hw].
  destruct (Np.imul_slice a start stop v); [|exact Hw].
  now apply written_at_store.
Qed.

Lemma imul_slice_scalar_at_frame (l : Np.loc) (start stop : option Z) (c : R)
  (h0 hh : Np.heap) :
  written_at l h0 hh ->
  written_at l h0 (snd (Np.imul_slice_scalar_at l start stop c hh)).
Proof.
  intros Hw. unfold Np.imul_slice_scalar_at, bind, Np.deref, Np.store.
  destruct (hh !! l) as [a|]; [|exact Hw].
  now apply written_at_store.
Qed.

Lemma bind_frame {A B} (l : Np.loc) (h0 hh : Np.heap)
  (m : M Np.heap A) (k : A -> M Np.heap B) :
  written_at l h0 (snd (m hh)) ->
  (forall a hh', written_at l h0 hh' -> written_at l h0 (snd (k a hh'))) ->
  written_at l h0 (snd (bind m k hh)).
Proof.
  intros Hm Hk. unfold bind. destruct (m hh) as [[a|e] hh']; simpl in *.
  - now apply Hk.
  - exact Hm.
Qed.

(** Lines 173-182 of [apply], on the copy at [l]. *)
Lemma apply_updates_frame (l : Np.loc) (h0 hh : Np.heap) (mask : list R)
  (s0 e0 total : Z) (g0 g1 : R) :
  let updates : M Np.heap Np.loc :=
    (Np.imul_slice_at l (Some s0) (Some e0) mask ;;;
     (if s0 >? 0 then Np.imul_slice_scalar_at l None (Some s0) g0
      else ret tt) ;;;
     (if e0 <? total then Np.imul_slice_scalar_at l (Some e0) None g1
      else ret tt) ;;;
     ret l)%py in
  written_at l h0 hh ->
  written_at l h0 (snd (updates hh))
  /\ forall out, fst (updates hh) = Ok out -> out = l.
Proof.
  intros updates Hw. split.
  - apply bind_frame; [now apply imul_slice_at_frame|]. intros _ h2 H2.
    apply bind_frame.
    { destruct (s0 >? 0); [now apply imul_slice_scalar_at_frame|exact H2]. }
    intros _ h3 H3. apply bind_frame; [|intros _ h4 H4; exact H4].
    destruct (e0 <? total); [now apply imul_slice_scalar_at_frame|exact H3].
  - intros out. unfold updates, bind, ret.
    repeat match goal with
           | |- context [match ?m with _ => _ end] =>
               destruct m as [[[]|?] ?]
           end; simpl; congruence.
Qed.

(** Whatever [apply] does, raising or returning, the store it leaves is
    the one it found, or that store with one more array at the reference
    that [np.copy] made; it returns no other reference than that one. *)
Lemma apply_frame (s : GainTransition) (samples : Np.loc) (sample_rate : Z)
  (h h' : Np.heap) (r : result Np.loc) :
  apply s samples sample_rate h = (r, h') ->
  (h' = h /\ is_ok r = false)
  \/ (written_at (fresh (dom h)) h h'
      /\ forall out, r = Ok out -> out = fresh (dom h)).
Proof.
  unfold apply. unfold bind at 1. unfold Np.deref at 1.
  destruct (h !! samples) as [arr|] eqn:Hs;
    [|intros [= <- <-]; now left].
  destruct (start_gain_db (params s)) as [sg|];
    [|intros [= <- <-]; now left].
  destruct (end_gain_db (params s)) as [eg|];
    [|intros [= <- <-]; now left].
  destruct (fade_time_samples (params s)) as [fts|];
    [|intros [= <- <-]; now left].
  cbn [lookup_key bind ret lift_result].
  destruct (get_fade_mask sg eg fts) as [mask|e];
    [|intros [= <- <-]; now left].
  destruct (t0 (params s)) as [t|]; [|intros [= <- <-]; now left].
  cbn [lookup_key bind ret].
  destruct (crop mask t fts (Np.shape_last arr)) as [[cropped s0] e0].
  unfold bind at 1. unfold Np.copy, Np.alloc, bind at 1, Np.deref at 1.
  rewrite Hs. intros E. right.
  set (l := fresh (dom h)) in *.
  assert (H1 : written_at l h (<[l := arr]> h)) by now exists arr.
  destruct (apply_updates_frame l h _ cropped s0 e0 (Np.shape_last arr)
              (convert_decibels_to_amplitude_ratio sg)
              (convert_decibels_to_amplitude_ratio eg) H1) as [Ha Hb].
  cbv zeta in Ha, Hb. rewrite E in Ha, Hb. now split.
Qed.

Lemma fresh_unallocated (h : Np.heap) : h !! fresh (dom h) = None.
Proof. apply not_elem_of_dom, is_fresh. Qed.

Lemma written_at_fresh (h h' : Np.heap) (l : Np.loc) (a : Np.ndarray) :
  written_at (fresh (dom h)) h h' -> h !! l = Some a -> h' !! l = Some a.
Proof.
  intros [a' ->] Hl. rewrite lookup_insert_ne; [exact Hl|].
  intros <-. rewrite fresh_unallocated in Hl. discriminate.
Qed.

(** C6. [apply] never writes to the caller's waveform: whatever the
    parameters and whether it returns or raises, the input array (and every
    other array there was) holds afterwards the values it held before; and
    the reference that [apply] returns is one that did not exist before the
    call, hence not the input's, holding an array of its own. *)
Theorem apply_never_mutates_input
  (slf : GainTransition) (samples : Np.loc) (sample_rate : Z)
  (h : Np.heap) (arr : Np.ndarray) :
  h !! samples = Some arr ->
  let r := fst (apply slf samples sample_rate h) in
  let h' := snd (apply slf samples sample_rate h) in
  h' !! samples = Some arr
  /\ (forall l a, h !! l = Some a -> h' !! l = Some a)
  /\ forall out, r = Ok out ->
       out <> samples /\ h !! out = None /\ is_Some (h' !! out).
Proof.
  intros Hs r h'. subst r h'.
  destruct (apply slf samples sample_rate h) as [r h'] eqn:E. simpl.
  apply apply_frame in E as [[-> Hr]|[Hw Hout]].
  - split; [exact Hs|]. split; [auto|].
    intros out ->. discriminate.
  - split; [now apply (written_at_fresh h)|].
    split; [intros l a; now apply written_at_fresh|].
    intros out ->%Hout. split; [|split].
    + intros Heq. rewrite <- Heq, fresh_unallocated in Hs. discriminate.
    + apply fresh_unallocated.
    + destruct Hw as [a ->]. rewrite lookup_insert_eq. now eexists.
Qed.

Lemma apply_never_mutates_input_witness :
  let r := fst (apply drawn_transform 1%positive 44100 stereo_heap) in
  let h' := snd (apply drawn_transform 1%positive 44100 stereo_heap) in
  h' !! 1%positive = Some stereo
  /\ (forall l a, stereo_heap !! l = Some a -> h' !! l = Some a)
  /\ forall out, r = Ok out ->
       out <> 1%positive /\ stereo_heap !! out = None /\ is_Some (h' !! out).
Proof.
  apply (apply_never_mutates_input drawn_transform 1%positive 44100
           stereo_heap stereo).
  reflexivity.
Defined.

(** ** Construction *)

Definition with_duration_unit (u : string) (args : init_args) : init_args :=
  {| arg_min_gain_in_db := arg_min_gain_in_db args;
     arg_max_gain_in_db := arg_max_gain_in_db args;
     arg_min_gain_db := arg_min_gain_db args;
     arg_max_gain_db := arg_max_gain_db args;
     arg_min_duration := arg_min_duration args;
     arg_max_duration := arg_max_duration args;
     arg_duration_unit := u; arg_p := arg_p args |}.

(** What [__init__] leaves in the instance when it returns. *)
Lemma init_ok (args : init_args) (ws ws' : list warning) (t : GainTransition) :
  init args ws = (Ok t, ws') ->
  exists lo hi ws1,
    resolve_gain "min" (arg_min_gain_db args) (arg_min_gain_in_db args) (-24)
      ws = (Ok lo, ws1)
    /\ resolve_gain "max" (arg_max_gain_db args) (arg_max_gain_in_db args) 6
         ws1 = (Ok hi, ws')
    /\ Rleb 0 (arg_p args) && Rleb (arg_p args) 1 = true
    /\ Rleb lo hi = true
    /\ num_lt (PyInt 0) (arg_min_duration args) = true
    /\ num_le (arg_min_duration args) (arg_max_duration args) = true
    /\ t = {| p := arg_p args; min_gain_db := lo; max_gain_db := hi;
              min_duration := arg_min_duration args;
              max_duration := arg_max_duration args;
              duration_unit := arg_duration_unit args;
              params := no_parameters |}.
Proof.
  unfold init, base_init, bind, py_assert, ret, raise.
  destruct (Rleb 0 (arg_p args) && Rleb (arg_p args) 1) eqn:Hp;
    [|discriminate].
  destruct (resolve_gain "min" _ _ _ ws) as [[lo|e] ws1] eqn:Hlo;
    [|discriminate].
  destruct (resolve_gain "max" _ _ _ ws1) as [[hi|e] ws2] eqn:Hhi;
    [|discriminate].
  destruct (Rleb lo hi) eqn:Hle; [|discriminate].
  destruct (num_lt _ _) eqn:Hmin; [|discriminate].
  destruct (num_le _ _) eqn:Hmax; [|discriminate].
  intros [= <- <-]. exists lo, hi, ws1. repeat split; assumption.
Qed.

(** The converse: when the checks pass, [__init__] returns. *)
Lemma init_runs (args : init_args) (ws ws1 ws2 : list warning) (lo hi : R) :
  Rleb 0 (arg_p args) && Rleb (arg_p args) 1 = true ->
  resolve_gain "min" (arg_min_gain_db args) (arg_min_gain_in_db args) (-24)
    ws = (Ok lo, ws1) ->
  resolve_gain "max" (arg_max_gain_db args) (arg_max_gain_in_db args) 6
    ws1 = (Ok hi, ws2) ->
  Rleb lo hi = true ->
  num_lt (PyInt 0) (arg_min_duration args) = true ->
  num_le (arg_min_duration args) (arg_max_duration args) = true ->
  init args ws
  = (Ok {| p := arg_p args; min_gain_db := lo; max_gain_db := hi;
           min_duration := arg_min_duration args;
           max_duration := arg_max_duration args;
           duration_unit := arg_duration_unit args;
           params := no_parameters |}, ws2).
Proof.
  intros Hp Hlo Hhi Hle Hmin Hmax.
  unfold init, base_init, bind, py_assert, ret, raise.
  now rewrite Hp, Hlo, Hhi, Hle, Hmin, Hmax.
Qed.

(** [__init__] never looks at [duration_unit]: it only stores it. *)
Lemma init_ignores_duration_unit (u : string) (args : init_args)
  (ws ws' : list warning) (t : GainTransition) :
  init args ws = (Ok t, ws') ->
  init (with_duration_unit u args) ws
  = (Ok {| p := p t; min_gain_db := min_gain_db t;
           max_gain_db := max_gain_db t; min_duration := min_duration t;
           max_duration := max_duration t; duration_unit := u;
           params := params t |}, ws').
Proof.
  intros (lo & hi & ws1 & Hlo & Hhi & Hp & Hle & Hmin & Hmax & ->)%init_ok.
  now apply init_runs with (ws1 := ws1).
Qed.

Lemma construct_default_args (u : string) :
  construct (with_duration_unit u default_args)
  = Ok {| p := 5 / 10; min_gain_db := -24; max_gain_db := 6;
          min_duration := PyFloat (2 / 10); max_duration := PyFloat 6;
          duration_unit := u; params := no_parameters |}.
Proof.
  unfold construct.
  rewrite (init_runs _ [] [] [] (-24) 6); try reflexivity.
  - apply andb_true_iff; split; apply Rleb_true; simpl; lra.
  - apply Rleb_true; lra.
  - apply Rltb_true; simpl; lra.
  - apply Rleb_true; simpl; lra.
Qed.

(** ** Drawing the parameters *)

Section Randomize.
Context {G : Type} `{RandomSource G}.

(** The world after the Bernoulli trial of the base class. *)
Definition after_trial (w : world G) : world G :=
  {| w_self := with_params (w_self w)
                 (set_should_apply
                    (Rltb (fst (random_float (w_rng w))) (p (w_self w)))
                    (params (w_self w)));
     w_rng := snd (random_float (w_rng w));
     w_heap := w_heap w |}.

Lemma base_randomize_parameters_run (w : world G) :
  base_randomize_parameters w = (Ok tt, after_trial w).
Proof.
  unfold base_randomize_parameters, bind, on_rng, random, self,
    set_parameter, modify, after_trial.
  destruct (random_float (w_rng w)) as [u g']. reflexivity.
Qed.

Lemma duration_in_samples_invalid (s : GainTransition) (samples : Np.ndarray)
  (sample_rate : Z) :
  duration_unit s <> "seconds" -> duration_unit s <> "samples" ->
  duration_unit s <> "fraction" ->
  duration_in_samples s samples sample_rate
  = Raise (ValueError "Invalid duration_unit").
Proof.
  intros H1 H2 H3. unfold duration_in_samples.
  apply String.eqb_neq in H1, H2, H3. now rewrite H1, H2, H3.
Qed.

Lemma duration_in_samples_valid (s : GainTransition) (samples : Np.ndarray)
  (sample_rate : Z) :
  duration_unit s = "seconds" \/ duration_unit s = "samples"
  \/ duration_unit s = "fraction" ->
  exists bounds, duration_in_samples s samples sample_rate = Ok bounds.
Proof.
  unfold duration_in_samples.
  intros [-> | [-> | ->]]; simpl; eexists; reflexivity.
Qed.

(** With an unrecognised unit, [randomize_parameters] raises as soon as the
    trial says that the transform applies, and only then. *)
Lemma randomize_parameters_invalid_unit (samples : Np.ndarray)
  (sample_rate : Z) (w : world G) :
  duration_unit (w_self w) <> "seconds" ->
  duration_unit (w_self w) <> "samples" ->
  duration_unit (w_self w) <> "fraction" ->
  randomize_parameters samples sample_rate w
  = (if Rltb (fst (random_float (w_rng w))) (p (w_self w))
     then Raise (ValueError "Invalid duration_unit") else Ok tt,
     after_trial w).
Proof.
  intros H1 H2 H3. unfold randomize_parameters.
  unfold bind at 1. rewrite base_randomize_parameters_run.
  unfold bind at 1, self at 1. unfold bind at 1.
  cbn [after_trial w_self with_params params set_should_apply should_apply
       lookup_key ret].
  destruct (Rltb _ _); [|reflexivity].
  unfold bind at 1. rewrite duration_in_samples_invalid by assumption.
  reflexivity.
Qed.

End Randomize.

(** A source whose every raw draw is 0: [random()] returns 0.0. *)
Definition zero_tape : tape := {| raw := fun _ => 0; pos := 0 |}.

Lemma zero_tape_random_float (n : nat) :
  fst (random_float {| raw := fun _ => 0; pos := n |}) = 0%R.
Proof. cbn. unfold Rdiv. apply Rmult_0_l. Qed.

Definition mono : Np.ndarray := Np.Arr1 Np.float32 [1; 2; 3; 4]%R.

(** C2, as the spec states it, fails: with the unrecognised unit
    ["minutes"] and every other argument at its default, construction
    returns, and the next [randomize_parameters] reaches the unit check and
    raises there. *)
Lemma construct_unknown_unit_counterexample :
  let args := with_duration_unit "minutes" default_args in
  arg_duration_unit args <> "seconds"
  /\ arg_duration_unit args <> "samples"
  /\ arg_duration_unit args <> "fraction"
  /\ exists t,
       construct args = Ok t
       /\ duration_unit t = "minutes"
       /\ fst (randomize_parameters mono 44100
                 {| w_self := t; w_rng := zero_tape; w_heap := ∅ |})
          = Raise (ValueError "Invalid duration_unit").
Proof.
  cbv zeta. repeat split; try discriminate.
  eexists. split; [apply construct_default_args|]. split; [reflexivity|].
  rewrite randomize_parameters_invalid_unit by discriminate.
  cbn [fst w_rng w_self p]. unfold zero_tape.
  rewrite zero_tape_random_float.
  assert (Rltb 0 (5 / 10) = true) as -> by (apply Rltb_true; lra).
  reflexivity.
Qed.

(** C2, amended. [__init__] does not check [duration_unit]: it stores the
    value it is given, and arguments that construct a transform construct
    one as well with any unrecognised unit [u] in place of theirs. The check
    is the one in [randomize_parameters], which such a transform reaches:
    it raises [ValueError "Invalid duration_unit"] when the trial sets
    [should_apply], and returns when it does not. *)
Theorem duration_unit_checked_at_randomization
  {G : Type} `{RandomSource G}
  (args : init_args) (t : GainTransition) (u : string)
  (rng : G) (h : Np.heap) (samples : Np.ndarray) (sample_rate : Z) :
  construct args = Ok t ->
  u <> "seconds" -> u <> "samples" -> u <> "fraction" ->
  duration_unit t = arg_duration_unit args
  /\ exists t',
       construct (with_duration_unit u args) = Ok t'
       /\ duration_unit t' = u
       /\ fst (randomize_parameters samples sample_rate
                 {| w_self := t'; w_rng := rng; w_heap := h |})
          = if Rltb (fst (random_float rng)) (p t')
            then Raise (ValueError "Invalid duration_unit") else Ok tt.
Proof.
  unfold construct. intros Ht H1 H2 H3.
  destruct (init args []) as [r ws'] eqn:E. simpl in Ht. subst r.
  split.
  - apply init_ok in E as (lo & hi & ws1 & _ & _ & _ & _ & _ & _ & ->).
    reflexivity.
  - rewrite (init_ignores_duration_unit u _ _ _ _ E). simpl.
    eexists. split; [reflexivity|]. split; [reflexivity|].
    now rewrite randomize_parameters_invalid_unit.
Qed.

Lemma duration_unit_checked_at_randomization_witness :
  duration_unit
    {| p := 5 / 10; min_gain_db := -24; max_gain_db := 6;
       min_duration := PyFloat (2 / 10); max_duration := PyFloat 6;
       duration_unit := "seconds"; params := no_parameters |}
  = arg_duration_unit default_args
  /\ exists t',
       construct (with_duration_unit "minutes" default_args) = Ok t'
       /\ duration_unit t' = "minutes"
       /\ fst (randomize_parameters mono 44100
                 {| w_self := t'; w_rng := zero_tape; w_heap := ∅ |})
          = if Rltb (fst (random_float zero_tape)) (p t')
            then Raise (ValueError "Invalid duration_unit") else Ok tt.
Proof.
  apply (duration_unit_checked_at_randomization default_args _ "minutes"
           zero_tape ∅ mono 44100).
  - exact (construct_default_args "seconds").
  - discriminate.
  - discriminate.
  - discriminate.
Defined.

(** ** The gain bounds and their deprecated aliases *)

Lemma resolve_gain_ok (name : string) (new_value old_value : option R)
  (default v : R) (ws ws' : list warning) :
  resolve_gain name new_value old_value default ws = (Ok v, ws') ->
  (new_value = Some v /\ old_value = None)
  \/ (new_value = None /\ old_value = Some v)
  \/ (new_value = None /\ old_value = None /\ v = default).
Proof.
  unfold resolve_gain, bind, warn, modify, ret, raise.
  destruct new_value as [a|], old_value as [b|]; intros [= <- <-]; auto.
Qed.

Lemma resolve_gain_both (name : string) (a b default : R)
  (ws : list warning) :
  resolve_gain name (Some a) (Some b) default ws
  = (Raise (ValueError ("Passing both " ++ name ++ "_gain_db and " ++ name
                        ++ "_gain_in_db is not supported. Use only "
                        ++ name ++ "_gain_db.")), ws).
Proof. reflexivity. Qed.

(** Only the deprecated alias of the lower bound given, here -12 dB. *)
Definition deprecated_args : init_args :=
  {| arg_min_gain_in_db := Some (-12)%R; arg_max_gain_in_db := None;
     arg_min_gain_db := None; arg_max_gain_db := None;
     arg_min_duration := PyFloat (2 / 10); arg_max_duration := PyFloat 6;
     arg_duration_unit := "seconds"; arg_p := (5 / 10)%R |}.

Lemma construct_deprecated_args :
  construct deprecated_args
  = Ok {| p := 5 / 10; min_gain_db := -12; max_gain_db := 6;
          min_duration := PyFloat (2 / 10); max_duration := PyFloat 6;
          duration_unit := "seconds"; params := no_parameters |}.
Proof.
  unfold construct.
  erewrite (init_runs _ [] _ _ (-12) 6); try reflexivity.
  - apply andb_true_iff; split; apply Rleb_true; simpl; lra.
  - apply Rleb_true; lra.
  - apply Rltb_true; simpl; lra.
  - apply Rleb_true; simpl; lra.
Qed.

(** C10. Each gain bound is resolved from its new name and its deprecated
    alias in a fixed order: construction raises when both are passed (a
    [ValueError] with the message of the source once the base class has
    accepted [p]); when it returns, a bound given only by its deprecated
    alias is stored in the new field, and a bound not given at all is the
    default, -24 dB for the lower and 6 dB for the upper. *)
Theorem gain_bounds_precedence (args : init_args) :
  (forall a b,
     arg_min_gain_db args = Some a -> arg_min_gain_in_db args = Some b ->
     is_ok (construct args) = false
     /\ (Rleb 0 (arg_p args) && Rleb (arg_p args) 1 = true ->
         construct args
         = Raise (ValueError
                    ("Passing both min_gain_db and min_gain_in_db is not "
                     ++ "supported. Use only min_gain_db."))))
  /\ (forall a b,
        arg_max_gain_db args = Some a -> arg_max_gain_in_db args = Some b ->
        is_ok (construct args) = false)
  /\ forall t, construct args = Ok t ->
       (forall v, arg_min_gain_db args = None ->
                  arg_min_gain_in_db args = Some v -> min_gain_db t = v)
       /\ (forall v, arg_max_gain_db args = None ->
                     arg_max_gain_in_db args = Some v -> max_gain_db t = v)
       /\ (arg_min_gain_db args = None -> arg_min_gain_in_db args = None ->
           min_gain_db t = (-24)%R)
       /\ (arg_max_gain_db args = None -> arg_max_gain_in_db args = None ->
           max_gain_db t = 6%R).
Proof.
  split; [|split].
  - intros a b Ha Hb.
    unfold construct, init, base_init, bind, py_assert, ret, raise.
    rewrite Ha, Hb.
    destruct (Rleb 0 (arg_p args) && Rleb (arg_p args) 1); simpl.
    + split; [reflexivity|]. intros _. reflexivity.
    + split; [reflexivity|]. discriminate.
  - intros a b Ha Hb.
    unfold construct, init, base_init, bind, py_assert, ret, raise.
    rewrite Ha, Hb.
    destruct (Rleb 0 (arg_p args) && Rleb (arg_p args) 1); [|reflexivity].
    destruct (resolve_gain "min" _ _ _ _) as [[lo|e] ws1]; reflexivity.
  - unfold construct. intros t Ht.
    destruct (init args []) as [r ws'] eqn:E. simpl in Ht. subst r.
    apply init_ok in E as (lo & hi & ws1 & Hlo & Hhi & _ & _ & _ & _ & ->).
    apply resolve_gain_ok in Hlo, Hhi. simpl.
    repeat split; intros; intuition congruence.
Qed.

Lemma gain_bounds_precedence_witness :
  min_gain_db
    {| p := 5 / 10; min_gain_db := -12; max_gain_db := 6;
       min_duration := PyFloat (2 / 10); max_duration := PyFloat 6;
       duration_unit := "seconds"; params := no_parameters |} = (-12)%R.
Proof.
  apply (proj1 (proj2 (proj2 (gain_bounds_precedence deprecated_args)) _
                  construct_deprecated_args) (-12)%R).
  - reflexivity.
  - reflexivity.
Defined.

(** ** The drawn duration *)

Section Drawn.
Context {G : Type} `{RandomSource G}.

Lemma on_rng_randint_cases (a b : number) (w : world G) :
  (exists e, on_rng (randint a b) w = (Raise e, w))
  \/ (exists lo hi r g',
        a = PyInt lo /\ b = PyInt hi /\ lo <= r <= hi
        /\ on_rng (randint a b) w
           = (Ok r, {| w_self := w_self w; w_rng := g';
                       w_heap := w_heap w |})).
Proof.
  unfold on_rng, randint, raise.
  destruct a as [a|a], b as [b|b];
    try (left; eexists; destruct w; reflexivity).
  destruct (0 <? b + 1 - a) eqn:E.
  - right. pose proof (randbelow_range (b + 1 - a) (w_rng w)) as Hr.
    destruct (randbelow (b + 1 - a) (w_rng w)) as [r g'].
    exists a, b, (a + r), g'. simpl in Hr. repeat split; try lia.
  - left. eexists. destruct w; reflexivity.
Qed.

Lemma on_rng_uniform_run (a b : R) (w : world G) :
  on_rng (uniform a b) w
  = (Ok (a + (b - a) * fst (random_float (w_rng w)))%R,
     {| w_self := w_self w; w_rng := snd (random_float (w_rng w));
        w_heap := w_heap w |}).
Proof.
  unfold on_rng, uniform. now destruct (random_float (w_rng w)).
Qed.

(** What one call of [randomize_parameters] on [samples] can leave behind:
    the result and the world after it. *)
Inductive randomized (samples : Np.ndarray) (sample_rate : Z) (w : world G)
  : result unit -> world G -> Prop :=
| trial_says_no :
    Rltb (fst (random_float (w_rng w))) (p (w_self w)) = false ->
    randomized samples sample_rate w (Ok tt) (after_trial w)
| raised_before_duration e :
    Rltb (fst (random_float (w_rng w))) (p (w_self w)) = true ->
    randomized samples sample_rate w (Raise e) (after_trial w)
| raised_after_duration e lo hi r g' :
    Rltb (fst (random_float (w_rng w))) (p (w_self w)) = true ->
    duration_in_samples (w_self w) samples sample_rate
    = Ok (PyInt lo, PyInt hi) ->
    lo <= r <= hi ->
    randomized samples sample_rate w (Raise e)
      {| w_self := with_params (w_self w)
                     (set_fade_time_samples (Z.max 3 r)
                        (params (w_self (after_trial w))));
         w_rng := g'; w_heap := w_heap w |}
| all_drawn lo hi r t a b g' :
    Rltb (fst (random_float (w_rng w))) (p (w_self w)) = true ->
    duration_in_samples (w_self w) samples sample_rate
    = Ok (PyInt lo, PyInt hi) ->
    lo <= r <= hi ->
    - Z.max 3 r + 2 <= t <= Np.shape_last samples - 2 ->
    randomized samples sample_rate w (Ok tt)
      {| w_self := with_params (w_self w)
                     (set_end_gain_db b
                        (set_start_gain_db a
                           (set_t0 t
                              (set_fade_time_samples (Z.max 3 r)
                                 (params (w_self (after_trial w)))))));
         w_rng := g'; w_heap := w_heap w |}.

Lemma randomize_parameters_randomized (samples : Np.ndarray)
  (sample_rate : Z) (w w' : world G) (r : result unit) :
  randomize_parameters samples sample_rate w = (r, w') ->
  randomized samples sample_rate w r w'.
Proof.
  unfold randomize_parameters.
  unfold bind at 1. rewrite base_randomize_parameters_run.
  unfold bind at 1, self at 1. unfold bind at 1.
  change (should_apply (params (w_self (after_trial w))))
    with (Some (Rltb (fst (random_float (w_rng w))) (p (w_self w)))).
  cbn [lookup_key ret].
  destruct (Rltb _ _) eqn:Htrial;
    [|intros [= <- <-]; now apply trial_says_no].
  unfold bind at 1, lift_result at 1.
  change (duration_in_samples (w_self (after_trial w)) samples sample_rate)
    with (duration_in_samples (w_self w) samples sample_rate).
  destruct (duration_in_samples _ samples sample_rate) as [[lo hi]|e] eqn:Hd;
    [|intros [= <- <-]; now apply raised_before_duration].
  unfold bind at 1. cbn [fst snd].
  destruct (on_rng_randint_cases lo hi (after_trial w))
    as [[e ->]|(lo' & hi' & r0 & g1 & -> & -> & Hr0 & ->)];
    [intros [= <- <-]; now apply raised_before_duration|].
  unfold bind at 1, set_parameter at 1, modify at 1.
  unfold bind at 1, self at 1. unfold bind at 1.
  cbn [w_self w_rng w_heap with_params params set_fade_time_samples
       fade_time_samples lookup_key ret].
  unfold bind at 1.
  match goal with
  | |- context [on_rng (randint ?a ?b) ?w1] =>
      destruct (on_rng_randint_cases a b w1)
        as [[e ->]|(a' & b' & t & g2 & [= <-] & [= <-] & Ht & ->)]
  end; [intros [= <- <-]; eapply raised_after_duration; eauto|].
  unfold bind at 1, set_parameter at 1, modify at 1.
  unfold bind at 1, self at 1.
  unfold bind at 1. rewrite on_rng_uniform_run.
  unfold bind at 1, set_parameter at 1, modify at 1.
  unfold bind at 1, self at 1.
  unfold bind at 1. rewrite on_rng_uniform_run.
  unfold set_parameter, modify.
  cbn [fst snd w_self w_rng w_heap with_params params p min_gain_db
       max_gain_db].
  intros [= <- <-]. eapply all_drawn; eauto.
Qed.

End Drawn.

Section DrawnDuration.
Context {G : Type} `{RandomSource G}.

(** [should_apply] after a call is what the trial said. *)
Lemma randomized_should_apply (samples : Np.ndarray) (sample_rate : Z)
  (w w' : world G) (r : result unit) :
  randomized samples sample_rate w r w' ->
  should_apply (params (w_self w'))
  = Some (Rltb (fst (random_float (w_rng w))) (p (w_self w))).
Proof. intros []; reflexivity. Qed.

Lemma on_rng_randint_ok (lo hi : Z) (w : world G) :
  lo <= hi ->
  exists r g',
    on_rng (randint (PyInt lo) (PyInt hi)) w
    = (Ok r, {| w_self := w_self w; w_rng := g'; w_heap := w_heap w |}).
Proof.
  intros Hle. unfold on_rng, randint.
  destruct (0 <? hi + 1 - lo) eqn:E; [|lia].
  destruct (randbelow (hi + 1 - lo) (w_rng w)) as [r g'].
  now exists (lo + r), g'.
Qed.

(** [randomize_parameters] returns when the duration bounds are integers
    in order and the waveform is not empty. *)
Lemma randomize_parameters_returns (samples : Np.ndarray) (sample_rate : Z)
  (w : world G) (lo hi : Z) :
  duration_in_samples (w_self w) samples sample_rate
  = Ok (PyInt lo, PyInt hi) ->
  lo <= hi -> 1 <= Np.shape_last samples ->
  fst (randomize_parameters samples sample_rate w) = Ok tt.
Proof.
  intros Hd Hle Hn. unfold randomize_parameters.
  unfold bind at 1. rewrite base_randomize_parameters_run.
  unfold bind at 1, self at 1. unfold bind at 1.
  change (should_apply (params (w_self (after_trial w))))
    with (Some (Rltb (fst (random_float (w_rng w))) (p (w_self w)))).
  cbn [lookup_key ret].
  destruct (Rltb _ _); [|reflexivity].
  unfold bind at 1, lift_result at 1.
  change (duration_in_samples (w_self (after_trial w)) samples sample_rate)
    with (duration_in_samples (w_self w) samples sample_rate).
  rewrite Hd. unfold bind at 1. cbn [fst snd].
  destruct (on_rng_randint_ok lo hi (after_trial w) Hle) as (r0 & g1 & ->).
  unfold bind at 1, set_parameter at 1, modify at 1.
  unfold bind at 1, self at 1. unfold bind at 1.
  cbn [w_self w_rng w_heap with_params params set_fade_time_samples
       fade_time_samples lookup_key ret].
  unfold bind at 1.
  match goal with
  | |- context [on_rng (randint (PyInt ?a) (PyInt ?b)) ?w1] =>
      destruct (on_rng_randint_ok a b w1 ltac:(lia)) as (t & g2 & ->)
  end.
  unfold bind at 1, set_parameter at 1, modify at 1.
  unfold bind at 1, self at 1.
  unfold bind at 1. rewrite on_rng_uniform_run.
  unfold bind at 1, set_parameter at 1, modify at 1.
  unfold bind at 1, self at 1.
  unfold bind at 1. rewrite on_rng_uniform_run.
  reflexivity.
Qed.

(** C8. After a call of [randomize_parameters] that returns with
    [should_apply] true, the stored [fade_time_samples] is [max(3, draw)]
    for a draw from [[min_duration_in_samples, max_duration_in_samples]],
    an integer at least 3, whatever the waveform, the sample rate and the
    configuration. And whether the call returns or raises, a stored
    [fade_time_samples] that was at least 3 before it, or absent, is not
    below 3 after it. *)
Theorem fade_time_samples_at_least_3 (samples : Np.ndarray) (sample_rate : Z)
  (w : world G) :
  let r := fst (randomize_parameters samples sample_rate w) in
  let w' := snd (randomize_parameters samples sample_rate w) in
  should_apply (params (w_self w')) = Some true ->
  (r = Ok tt ->
   exists lo hi draw,
     duration_in_samples (w_self w) samples sample_rate
     = Ok (PyInt lo, PyInt hi)
     /\ lo <= draw <= hi
     /\ fade_time_samples (params (w_self w')) = Some (Z.max 3 draw)
     /\ 3 <= Z.max 3 draw)
  /\ ((forall v0, fade_time_samples (params (w_self w)) = Some v0 -> 3 <= v0)
      -> forall v, fade_time_samples (params (w_self w')) = Some v -> 3 <= v).
Proof.
  intros r w'. subst r w'.
  destruct (randomize_parameters samples sample_rate w) as [r w'] eqn:E.
  apply randomize_parameters_randomized in E. simpl.
  intros Hgo. rewrite (randomized_should_apply _ _ _ _ _ E) in Hgo.
  injection Hgo as Hgo.
  destruct E as [Hno | e _ | e lo hi draw g' _ Hd Hr
                | lo hi draw t a b g' _ Hd Hr Ht]; simpl.
  - congruence.
  - split; [discriminate|]. intros Hinv v. apply Hinv.
  - split; [discriminate|]. intros _ v [= <-]. lia.
  - split.
    + intros _. exists lo, hi, draw. repeat split; try assumption; lia.
    + intros _ v [= <-]. lia.
Qed.

End DrawnDuration.

(** A transform on durations in samples that always applies. *)
Definition in_samples : GainTransition :=
  {| p := 1; min_gain_db := (-24); max_gain_db := 6;
     min_duration := PyInt 1; max_duration := PyInt 10;
     duration_unit := "samples"; params := no_parameters |}.

Definition in_samples_world : world tape :=
  {| w_self := in_samples; w_rng := zero_tape; w_heap := stereo_heap |}.

Lemma in_samples_trial :
  Rltb (fst (random_float (w_rng in_samples_world))) (p (w_self in_samples_world))
  = true.
Proof.
  apply Rltb_true.
  change (fst (random_float {| raw := fun _ => 0%Z; pos := 0 |}) < 1)%R.
  rewrite zero_tape_random_float. lra.
Qed.

Lemma fade_time_samples_at_least_3_witness :
  exists lo hi draw,
    duration_in_samples in_samples stereo 44100 = Ok (PyInt lo, PyInt hi)
    /\ lo <= draw <= hi
    /\ fade_time_samples
         (params (w_self (snd (randomize_parameters stereo 44100
                                 in_samples_world))))
       = Some (Z.max 3 draw)
    /\ 3 <= Z.max 3 draw.
Proof.
  refine (proj1 (fade_time_samples_at_least_3 stereo 44100
                   in_samples_world _) _).
  - rewrite (randomized_should_apply stereo 44100 in_samples_world _
               (fst (randomize_parameters stereo 44100 in_samples_world))).
    + f_equal. exact in_samples_trial.
    + apply randomize_parameters_randomized. apply surjective_pairing.
  - apply (randomize_parameters_returns stereo 44100 in_samples_world 1 10).
    + reflexivity.
    + lia.
    + simpl. lia.
Defined.

(** ** Two runs *)

Section HeapBlind.
Context {G : Type} `{RandomSource G}.

Definition set_heap (h : Np.heap) (w : world G) : world G :=
  {| w_self := w_self w; w_rng := w_rng w; w_heap := h |}.

(** A computation that neither reads nor writes the store of arrays. *)
Definition heap_blind {A} (m : M (world G) A) : Prop :=
  forall w h, m (set_heap h w) = (fst (m w), set_heap h (snd (m w))).

Lemma heap_blind_const {A} (r : result A) :
  heap_blind (fun w => (r, w)).
Proof. intros w h. reflexivity. Qed.

Lemma heap_blind_lookup_key {A} (key : string) (o : option A) :
  heap_blind (lookup_key key o).
Proof. destruct o; apply heap_blind_const. Qed.

Lemma heap_blind_bind {A B} (m : M (world G) A) (k : A -> M (world G) B) :
  heap_blind m -> (forall a, heap_blind (k a)) -> heap_blind (bind m k).
Proof.
  intros Hm Hk w h. unfold bind. rewrite Hm.
  destruct (m w) as [[a|e] w1]; simpl; [apply Hk|reflexivity].
Qed.

Lemma heap_blind_on_rng {A} (m : M G A) : heap_blind (on_rng m).
Proof.
  intros w h. unfold on_rng. simpl. now destruct (m (w_rng w)).
Qed.

Lemma heap_blind_self : heap_blind self.
Proof. intros w h. reflexivity. Qed.

Lemma heap_blind_set_parameter (f : parameters -> parameters) :
  heap_blind (set_parameter f).
Proof. intros w h. reflexivity. Qed.

Lemma heap_blind_randomize_parameters (samples : Np.ndarray)
  (sample_rate : Z) :
  heap_blind (randomize_parameters samples sample_rate).
Proof.
  unfold randomize_parameters, base_randomize_parameters.
  repeat first
    [ apply heap_blind_bind; [|intros ?]
    | apply heap_blind_on_rng
    | apply heap_blind_self
    | apply heap_blind_set_parameter
    | apply heap_blind_lookup_key
    | apply heap_blind_const
    | match goal with |- heap_blind (if ?b then _ else _) => destruct b end ].
Qed.

End HeapBlind.

(** The array that [apply] computes from the contents of its input,
    wherever the input is stored: [apply] without the store. *)
Definition updates_array (arr : Np.ndarray) (mask : list R)
  (s0 e0 total : Z) (g0 g1 : R) : result Np.ndarray :=
  match Np.imul_slice arr (Some s0) (Some e0) mask with
  | Raise e => Raise e
  | Ok a1 =>
      let a2 := if s0 >? 0 then Np.imul_slice_scalar a1 None (Some s0) g0
                else a1 in
      Ok (if e0 <? total then Np.imul_slice_scalar a2 (Some e0) None g1
          else a2)
  end.

Definition apply_array (s : GainTransition) (arr : Np.ndarray)
  : result Np.ndarray :=
  match start_gain_db (params s) with
  | None => Raise (KeyError "start_gain_db")
  | Some sg =>
  match end_gain_db (params s) with
  | None => Raise (KeyError "end_gain_db")
  | Some eg =>
  match fade_time_samples (params s) with
  | None => Raise (KeyError "fade_time_samples")
  | Some fts =>
  match get_fade_mask sg eg fts with
  | Raise e => Raise e
  | Ok mask =>
  match t0 (params s) with
  | None => Raise (KeyError "t0")
  | Some t =>
      let '(cropped, s0, e0) := crop mask t fts (Np.shape_last arr) in
      updates_array arr cropped s0 e0 (Np.shape_last arr)
        (convert_decibels_to_amplitude_ratio sg)
        (convert_decibels_to_amplitude_ratio eg)
  end end end end end.

(** What a caller can observe of a result: the exception, or the array
    behind the reference returned. *)
Definition returned (x : result Np.loc * Np.heap)
  : result (option Np.ndarray) :=
  match fst x with
  | Ok out => Ok (snd x !! out)
  | Raise e => Raise e
  end.

Definition observed (r : result Np.ndarray) : result (option Np.ndarray) :=
  match r with Ok a => Ok (Some a) | Raise e => Raise e end.

Lemma imul_slice_at_insert (l : Np.loc) (start stop : option Z) (v : list R)
  (a : Np.ndarray) (h : Np.heap) :
  Np.imul_slice_at l start stop v (<[l := a]> h)
  = match Np.imul_slice a start stop v with
    | Ok a' => (Ok tt, <[l := a']> h)
    | Raise e => (Raise e, <[l := a]> h)
    end.
Proof.
  unfold Np.imul_slice_at, bind, Np.deref, lift_result, Np.store.
  rewrite lookup_insert_eq.
  destruct (Np.imul_slice a start stop v); [|reflexivity].
  now rewrite insert_insert_eq.
Qed.

Lemma imul_slice_scalar_at_insert (l : Np.loc) (start stop : option Z)
  (c : R) (a : Np.ndarray) (h : Np.heap) :
  Np.imul_slice_scalar_at l start stop c (<[l := a]> h)
  = (Ok tt, <[l := Np.imul_slice_scalar a start stop c]> h).
Proof.
  unfold Np.imul_slice_scalar_at, bind, Np.deref, Np.store.
  rewrite lookup_insert_eq. now rewrite insert_insert_eq.
Qed.

Lemma updates_returned (l : Np.loc) (h : Np.heap) (arr : Np.ndarray)
  (mask : list R) (s0 e0 total : Z) (g0 g1 : R) :
  returned
    ((Np.imul_slice_at l (Some s0) (Some e0) mask ;;;
      (if s0 >? 0 then Np.imul_slice_scalar_at l None (Some s0) g0
       else ret tt) ;;;
      (if e0 <? total then Np.imul_slice_scalar_at l (Some e0) None g1
       else ret tt) ;;;
      ret l)%py (<[l := arr]> h))
  = observed (updates_array arr mask s0 e0 total g0 g1).
Proof.
  unfold updates_array. unfold bind at 1. rewrite imul_slice_at_insert.
  destruct (Np.imul_slice arr (Some s0) (Some e0) mask) as [a1|e];
    [|reflexivity].
  unfold bind at 1.
  destruct (s0 >? 0); rewrite ?imul_slice_scalar_at_insert; unfold ret at 1;
    unfold bind at 1;
    destruct (e0 <? total); rewrite ?imul_slice_scalar_at_insert;
    unfold ret, returned; simpl; now rewrite lookup_insert_eq.
Qed.

(** [apply] computes [apply_array] of the contents of its input. *)
Lemma apply_returned (s : GainTransition) (samples : Np.loc)
  (sample_rate : Z) (h : Np.heap) (arr : Np.ndarray) :
  h !! samples = Some arr ->
  returned (apply s samples sample_rate h) = observed (apply_array s arr).
Proof.
  intros Hs. unfold apply, apply_array.
  unfold bind at 1. unfold Np.deref at 1. rewrite Hs.
  destruct (start_gain_db (params s)) as [sg|]; [|reflexivity].
  destruct (end_gain_db (params s)) as [eg|]; [|reflexivity].
  destruct (fade_time_samples (params s)) as [fts|]; [|reflexivity].
  cbn [lookup_key bind ret lift_result].
  destruct (get_fade_mask sg eg fts) as [mask|e]; [|reflexivity].
  destruct (t0 (params s)) as [t|]; [|reflexivity].
  cbn [lookup_key bind ret].
  destruct (crop mask t fts (Np.shape_last arr)) as [[cropped s0] e0].
  unfold bind at 1. unfold Np.copy, Np.alloc, bind at 1, Np.deref at 1.
  rewrite Hs. apply updates_returned.
Qed.

Section TwoRuns.
Context {G : Type} `{RandomSource G}.

(** What a caller can observe of a run of the transform: the exception or
    the array returned, the instance and the random source afterwards. *)
Definition observe (x : result Np.loc * world G)
  : result (option Np.ndarray) * GainTransition * G :=
  (returned (fst x, w_heap (snd x)), w_self (snd x), w_rng (snd x)).

(** The same, computed without any store from the instance, the random
    source, the contents of the waveform and the sample rate. *)
Definition call_observed (t : GainTransition) (rng : G) (arr : Np.ndarray)
  (sample_rate : Z) : result (option Np.ndarray) * GainTransition * G :=
  let x := randomize_parameters arr sample_rate
             {| w_self := t; w_rng := rng; w_heap := ∅ |} in
  (match fst x with
   | Raise e => Raise e
   | Ok _ =>
       match should_apply (params (w_self (snd x))) with
       | None => Raise (KeyError "should_apply")
       | Some true => observed (apply_array (w_self (snd x)) arr)
       | Some false => Ok (Some arr)
       end
   end, w_self (snd x), w_rng (snd x)).

Lemma call_observed_eq (t : GainTransition) (rng : G) (h : Np.heap)
  (samples : Np.loc) (arr : Np.ndarray) (sample_rate : Z) :
  h !! samples = Some arr ->
  observe (call samples sample_rate
             {| w_self := t; w_rng := rng; w_heap := h |})
  = call_observed t rng arr sample_rate.
Proof.
  intros Hs. unfold call, call_observed.
  unfold bind at 1, on_heap at 1, Np.deref at 1. cbn [w_heap w_self w_rng].
  rewrite Hs. unfold bind at 1.
  pose proof (heap_blind_randomize_parameters arr sample_rate
                {| w_self := t; w_rng := rng; w_heap := ∅ |} h) as Hb.
  unfold set_heap in Hb at 1. cbn [w_self w_rng] in Hb. rewrite Hb. clear Hb.
  destruct (randomize_parameters arr sample_rate
              {| w_self := t; w_rng := rng; w_heap := ∅ |}) as [[[]|e] w'];
    cbn [fst snd]; [|reflexivity].
  unfold bind at 1, self at 1. unfold bind at 1.
  cbn [set_heap w_self].
  destruct (should_apply (params (w_self w'))) as [[|]|];
    cbn [lookup_key ret raise]; unfold observe.
  - unfold on_heap, set_heap. cbn [w_heap w_self w_rng].
    pose proof (apply_returned (w_self w') samples sample_rate h arr Hs) as Ha.
    destruct (apply (w_self w') samples sample_rate h) as [r h'].
    cbn [fst snd w_heap w_self w_rng]. now rewrite <- Ha.
  - unfold returned, set_heap, ret. cbn [fst snd w_heap w_self w_rng].
    now rewrite Hs.
  - reflexivity.
Qed.

(** The two methods in sequence, without the probability check of the
    base class. *)
Definition randomize_then_apply (samples : Np.loc) (sample_rate : Z)
  : M (world G) Np.loc :=
  (arr <- on_heap (Np.deref samples) ;;
   randomize_parameters arr sample_rate ;;;
   s <- self ;;
   on_heap (apply s samples sample_rate))%py.

Definition randomize_then_apply_observed (t : GainTransition) (rng : G)
  (arr : Np.ndarray) (sample_rate : Z)
  : result (option Np.ndarray) * GainTransition * G :=
  let x := randomize_parameters arr sample_rate
             {| w_self := t; w_rng := rng; w_heap := ∅ |} in
  (match fst x with
   | Raise e => Raise e
   | Ok _ => observed (apply_array (w_self (snd x)) arr)
   end, w_self (snd x), w_rng (snd x)).

Lemma randomize_then_apply_observed_eq (t : GainTransition) (rng : G)
  (h : Np.heap) (samples : Np.loc) (arr : Np.ndarray) (sample_rate : Z) :
  h !! samples = Some arr ->
  observe (randomize_then_apply samples sample_rate
             {| w_self := t; w_rng := rng; w_heap := h |})
  = randomize_then_apply_observed t rng arr sample_rate.
Proof.
  intros Hs. unfold randomize_then_apply, randomize_then_apply_observed.
  unfold bind at 1, on_heap at 1, Np.deref at 1. cbn [w_heap w_self w_rng].
  rewrite Hs. unfold bind at 1.
  pose proof (heap_blind_randomize_parameters arr sample_rate
                {| w_self := t; w_rng := rng; w_heap := ∅ |} h) as Hb.
  unfold set_heap in Hb at 1. cbn [w_self w_rng] in Hb. rewrite Hb. clear Hb.
  destruct (randomize_parameters arr sample_rate
              {| w_self := t; w_rng := rng; w_heap := ∅ |}) as [[[]|e] w'];
    cbn [fst snd]; [|reflexivity].
  unfold bind at 1, self at 1, observe, on_heap, set_heap.
  cbn [w_heap w_self w_rng].
  pose proof (apply_returned (w_self w') samples sample_rate h arr Hs) as Ha.
  destruct (apply (w_self w') samples sample_rate h) as [r h'].
  cbn [fst snd w_heap w_self w_rng]. now rewrite <- Ha.
Qed.

End TwoRuns.

Section Planned.
Context {G : Type} `{RandomSource G}.

(** What [randomize_parameters] does, told without the instance it works
    on: the outcome, the assignments made to [self.parameters] as a
    function of the mapping found, and the random source afterwards. Of
    the instance only the configuration is read. *)
Definition planned (s : GainTransition) (rng : G) (samples : Np.ndarray)
  (sample_rate : Z) : result unit * (parameters -> parameters) * G :=
  let u := random_float rng in
  if Rltb (fst u) (p s) then
    match duration_in_samples s samples sample_rate with
    | Raise e => (Raise e, set_should_apply true, snd u)
    | Ok bounds =>
        match randint (fst bounds) (snd bounds) (snd u) with
        | (Raise e, g1) => (Raise e, set_should_apply true, g1)
        | (Ok r, g1) =>
            let fts := Z.max 3 r in
            match randint (PyInt (- fts + 2))
                    (PyInt (Np.shape_last samples - 2)) g1 with
            | (Raise e, g2) =>
                (Raise e,
                 fun ps => set_fade_time_samples fts (set_should_apply true ps),
                 g2)
            | (Ok t, g2) =>
                let a := random_float g2 in
                let b := random_float (snd a) in
                let lo := min_gain_db s in
                let hi := max_gain_db s in
                (Ok tt,
                 fun ps =>
                   set_end_gain_db (lo + (hi - lo) * fst b)%R
                     (set_start_gain_db (lo + (hi - lo) * fst a)%R
                        (set_t0 t
                           (set_fade_time_samples fts
                              (set_should_apply true ps)))),
                 snd b)
            end
        end
    end
  else (Ok tt, set_should_apply false, snd u).

Lemma randomize_parameters_planned (samples : Np.ndarray) (sample_rate : Z)
  (w : world G) :
  randomize_parameters samples sample_rate w
  = (fst (fst (planned (w_self w) (w_rng w) samples sample_rate)),
     {| w_self :=
          with_params (w_self w)
            (snd (fst (planned (w_self w) (w_rng w) samples sample_rate))
               (params (w_self w)));
        w_rng := snd (planned (w_self w) (w_rng w) samples sample_rate);
        w_heap := w_heap w |}).
Proof.
  unfold randomize_parameters, planned.
  unfold bind at 1. rewrite base_randomize_parameters_run.
  unfold bind at 1, self at 1. unfold bind at 1.
  unfold after_trial.
  cbn [w_self w_rng w_heap params with_params should_apply set_should_apply
       lookup_key ret].
  destruct (Rltb _ _) eqn:Htrial; [|reflexivity].
  unfold bind at 1, lift_result at 1.
  change (duration_in_samples _ samples sample_rate)
    with (duration_in_samples (w_self w) samples sample_rate).
  destruct (duration_in_samples _ samples sample_rate) as [[lo hi]|e] eqn:Hd;
    [|reflexivity].
  unfold bind at 1. cbn [fst snd].
  unfold on_rng at 1. cbn [w_rng w_self w_heap].
  destruct (randint lo hi (snd (random_float (w_rng w)))) as [[r|e] g1];
    [|reflexivity].
  unfold bind at 1, set_parameter at 1, modify at 1.
  unfold bind at 1, self at 1. unfold bind at 1.
  cbn [w_self w_rng w_heap with_params params set_fade_time_samples
       fade_time_samples lookup_key ret].
  unfold bind at 1. unfold on_rng at 1. cbn [w_rng w_self w_heap].
  destruct (randint (PyInt (- Z.max 3 r + 2))
              (PyInt (Np.shape_last samples - 2)) g1) as [[t|e] g2];
    [|reflexivity].
  unfold bind at 1, set_parameter at 1, modify at 1.
  unfold bind at 1, self at 1.
  unfold bind at 1. rewrite on_rng_uniform_run.
  unfold bind at 1, set_parameter at 1, modify at 1.
  unfold bind at 1, self at 1.
  unfold bind at 1. rewrite on_rng_uniform_run.
  reflexivity.
Qed.

(** The configuration is all that [planned] reads of the instance. *)
Lemma planned_with_params (s : GainTransition) (ps : parameters) (rng : G)
  (samples : Np.ndarray) (sample_rate : Z) :
  planned (with_params s ps) rng samples sample_rate
  = planned s rng samples sample_rate.
Proof. reflexivity. Qed.

(** Whatever the mapping held before, [should_apply] is assigned, and when
    it is assigned true and the call returns, so is every parameter. *)
Lemma planned_overwrites (s : GainTransition) (rng : G)
  (samples : Np.ndarray) (sample_rate : Z) (ps1 ps2 : parameters) :
  let plan := planned s rng samples sample_rate in
  should_apply (snd (fst plan) ps1)
  = Some (Rltb (fst (random_float rng)) (p s))
  /\ (fst (fst plan) = Ok tt ->
      Rltb (fst (random_float rng)) (p s) = true ->
      snd (fst plan) ps1 = snd (fst plan) ps2).
Proof.
  unfold planned.
  destruct (Rltb _ _) eqn:Htrial; [|split; [reflexivity|discriminate]].
  destruct (duration_in_samples s samples sample_rate) as [[lo hi]|e];
    [|split; [reflexivity|discriminate]].
  cbn [fst snd].
  destruct (randint lo hi _) as [[r|e] g1];
    [|split; [reflexivity|discriminate]].
  destruct (randint (PyInt _) (PyInt _) g1) as [[t|e] g2];
    split; try reflexivity; discriminate.
Qed.

(** What the caller of a run gets, and the random source afterwards. *)
Definition outcome (x : result Np.loc * world G)
  : result (option Np.ndarray) * G :=
  (returned (fst x, w_heap (snd x)), w_rng (snd x)).

Lemma outcome_observe (x : result Np.loc * world G) :
  outcome x = (fst (fst (observe x)), snd (observe x)).
Proof. reflexivity. Qed.

(** A call does not see the parameters that earlier calls left. *)
Lemma call_forgets (t : GainTransition) (ps1 ps2 : parameters) (rng : G)
  (arr : Np.ndarray) (sample_rate : Z) :
  let x1 := call_observed (with_params t ps1) rng arr sample_rate in
  let x2 := call_observed (with_params t ps2) rng arr sample_rate in
  fst (fst x1) = fst (fst x2) /\ snd x1 = snd x2.
Proof.
  unfold call_observed. rewrite !randomize_parameters_planned.
  cbn [fst snd w_self w_rng w_heap]. rewrite !planned_with_params.
  cbn [params with_params].
  pose proof (planned_overwrites t rng arr sample_rate ps1 ps2) as [Hgo Hall].
  pose proof (planned_overwrites t rng arr sample_rate ps2 ps1) as [Hgo' _].
  cbv zeta in Hgo, Hgo', Hall.
  split; [|reflexivity].
  destruct (fst (fst (planned t rng arr sample_rate))) as [[]|e];
    [|reflexivity].
  rewrite Hgo, Hgo'.
  destruct (Rltb (fst (random_float rng)) (p t)); [|reflexivity].
  now rewrite (Hall eq_refl eq_refl).
Qed.

(** Nor does [randomize_parameters] followed by [apply], when
    [should_apply] is drawn true. *)
Lemma randomize_then_apply_forgets (t : GainTransition)
  (ps1 ps2 : parameters) (rng : G) (arr : Np.ndarray) (sample_rate : Z) :
  Rltb (fst (random_float rng)) (p t) = true ->
  let x1 :=
    randomize_then_apply_observed (with_params t ps1) rng arr sample_rate in
  let x2 :=
    randomize_then_apply_observed (with_params t ps2) rng arr sample_rate in
  fst (fst x1) = fst (fst x2) /\ snd x1 = snd x2.
Proof.
  intros Htrial.
  unfold randomize_then_apply_observed. rewrite !randomize_parameters_planned.
  cbn [fst snd w_self w_rng w_heap]. rewrite !planned_with_params.
  cbn [params with_params].
  pose proof (planned_overwrites t rng arr sample_rate ps1 ps2) as [_ Hall].
  cbv zeta in Hall.
  split; [|reflexivity].
  destruct (fst (fst (planned t rng arr sample_rate))) as [[]|e];
    [|reflexivity].
  now rewrite (Hall eq_refl Htrial).
Qed.

End Planned.

(** C9. The transform is deterministic given its entropy source. Two
    instances constructed from the same arguments, each in whatever state
    of use (the parameters that earlier calls left in [self.parameters] may
    differ, or be absent as after [__init__]), run from the same state of
    the random source on waveforms of the same contents (the same array or
    two arrays, in the same store or in two) at the same sample rate, end
    alike: the same exception or equal arrays returned, and the same state
    of the random source. This holds of [__call__] of the base class, which
    applies only when [should_apply] was drawn true; and of
    [randomize_parameters] followed by [apply] without that check, when
    [should_apply] is drawn true or the two instances hold the same
    parameters, as two fresh instances do. *)
Theorem same_seed_same_output {G : Type} `{RandomSource G}
  (args : init_args) (t : GainTransition) (ps1 ps2 : parameters) (rng : G)
  (h1 h2 : Np.heap) (samples1 samples2 : Np.loc) (arr : Np.ndarray)
  (sample_rate : Z) :
  construct args = Ok t ->
  h1 !! samples1 = Some arr -> h2 !! samples2 = Some arr ->
  let w1 := {| w_self := with_params t ps1; w_rng := rng; w_heap := h1 |} in
  let w2 := {| w_self := with_params t ps2; w_rng := rng; w_heap := h2 |} in
  outcome (call samples1 sample_rate w1)
  = outcome (call samples2 sample_rate w2)
  /\ (Rltb (fst (random_float rng)) (p t) = true \/ ps1 = ps2 ->
      outcome (randomize_then_apply samples1 sample_rate w1)
      = outcome (randomize_then_apply samples2 sample_rate w2)).
Proof.
  intros _ Hs1 Hs2 w1 w2. subst w1 w2. rewrite !outcome_observe. split.
  - rewrite (call_observed_eq _ rng h1 samples1 arr sample_rate Hs1).
    rewrite (call_observed_eq _ rng h2 samples2 arr sample_rate Hs2).
    destruct (call_forgets t ps1 ps2 rng arr sample_rate) as [-> ->].
    reflexivity.
  - intros Hcase.
    rewrite (randomize_then_apply_observed_eq _ rng h1 samples1 arr
               sample_rate Hs1).
    rewrite (randomize_then_apply_observed_eq _ rng h2 samples2 arr
               sample_rate Hs2).
    destruct Hcase as [Htrial | ->]; [|reflexivity].
    destruct (randomize_then_apply_forgets t ps1 ps2 rng arr sample_rate
                Htrial) as [-> ->].
    reflexivity.
Qed.

Lemma same_seed_same_output_witness :
  let t := {| p := 5 / 10; min_gain_db := -24; max_gain_db := 6;
              min_duration := PyFloat (2 / 10); max_duration := PyFloat 6;
              duration_unit := "seconds"; params := no_parameters |} in
  let h2 : Np.heap := {[ 7%positive := stereo; 2%positive := mono ]} in
  let w1 := {| w_self := with_params t no_parameters; w_rng := zero_tape;
               w_heap := stereo_heap |} in
  let w2 := {| w_self := with_params t drawn_parameters; w_rng := zero_tape;
               w_heap := h2 |} in
  outcome (call 1%positive 44100 w1) = outcome (call 7%positive 44100 w2)
  /\ outcome (randomize_then_apply 1%positive 44100 w1)
     = outcome (randomize_then_apply 7%positive 44100 w2).
Proof.
  destruct (same_seed_same_output default_args _ no_parameters
              drawn_parameters zero_tape stereo_heap
              {[ 7%positive := stereo; 2%positive := mono ]}
              1%positive 7%positive stereo 44100
              (construct_default_args "seconds")
              ltac:(reflexivity) ltac:(reflexivity))
    as [Hcall Hboth].
  split; [exact Hcall|]. apply Hboth. left. apply Rltb_true.
  change (fst (random_float {| raw := fun _ => 0%Z; pos := 0 |}) < 5 / 10)%R.
  rewrite zero_tape_random_float. lra.
Defined.

(** * Further properties of the code *)

(** ** [apply] on any window that touches the waveform *)

(** The cropping of lines 157-169 for every window from the one that ends
    where the waveform starts to the one that starts where it ends. *)
Lemma crop_touching {A} (fade_mask : list A) (t fts total : Z) :
  Py.len fade_mask = fts -> 0 <= total -> - fts <= t <= total ->
  crop fade_mask t fts total
  = (firstn (Z.to_nat (Z.min (t + fts) total - Z.max t 0))
       (skipn (Z.to_nat (Z.max t 0 - t)) fade_mask),
     Z.max t 0, Z.min (t + fts) total).
Proof.
  intros Hlen Ht Hr. unfold crop.
  pose proof (Py.len_nonneg fade_mask) as Hnn.
  destruct (t <? 0) eqn:E1; destruct (t + fts >? total) eqn:E2;
    rewrite ?Z.gtb_ltb in E2.
  - rewrite slice_from by lia.
    rewrite slice_to by (rewrite len_skipn; lia).
    rewrite len_skipn.
    f_equal; [f_equal |]; try lia.
    f_equal; [lia | f_equal; lia].
  - rewrite slice_from by lia.
    f_equal; [f_equal |]; try lia.
    replace (Z.to_nat (Z.max t 0 - t)) with (Z.to_nat (Z.abs t)) by lia.
    symmetry. apply firstn_all2. rewrite length_skipn.
    unfold Py.len in *. lia.
  - rewrite slice_to by lia.
    f_equal; [f_equal |]; try lia.
    replace (Z.to_nat (Z.max t 0 - t)) with 0%nat by lia.
    simpl. f_equal. lia.
  - f_equal; [f_equal |]; try lia.
    replace (Z.to_nat (Z.max t 0 - t)) with 0%nat by lia.
    simpl. symmetry. apply firstn_all2. unfold Py.len in *. lia.
Qed.

Lemma imul_slice_ok (arr : Np.ndarray) (s e : Z) (v : list R) :
  0 <= s <= e -> e <= Np.shape_last arr -> length v = Z.to_nat (e - s) ->
  Np.imul_slice arr (Some s) (Some e) v
  = Ok (Np.map_last_axis (Np.imul_row s e v) arr).
Proof.
  intros Hse He Hv. unfold Np.imul_slice, Py.slice_bounds, Py.adjust_index.
  destruct (s <? 0) eqn:E1; [lia|]. destruct (e <? 0) eqn:E2; [lia|].
  rewrite !Z.min_l by lia.
  unfold Np.broadcast_to. rewrite Hv, Nat.eqb_refl. reflexivity.
Qed.

Lemma imul_slice_scalar_before (arr : Np.ndarray) (s : Z) (c : R) :
  0 <= s <= Np.shape_last arr ->
  (if s >? 0 then Np.imul_slice_scalar arr None (Some s) c else arr)
  = Np.map_last_axis (Np.imul_row 0 s (replicate (Z.to_nat (s - 0)) c)) arr.
Proof.
  intros Hs. destruct (s >? 0) eqn:E.
  - unfold Np.imul_slice_scalar, Py.slice_bounds, Py.adjust_index.
    destruct (s <? 0) eqn:E1; [lia|]. now rewrite Z.min_l by lia.
  - assert (s = 0) as -> by lia.
    now rewrite map_last_axis_id by (intros; apply imul_row_empty).
Qed.

Lemma imul_slice_scalar_after (arr : Np.ndarray) (e : Z) (c : R) :
  0 <= e <= Np.shape_last arr ->
  (if e <? Np.shape_last arr then Np.imul_slice_scalar arr (Some e) None c
   else arr)
  = Np.map_last_axis
      (Np.imul_row e (Np.shape_last arr)
         (replicate (Z.to_nat (Np.shape_last arr - e)) c)) arr.
Proof.
  intros He. destruct (e <? Np.shape_last arr) eqn:E.
  - unfold Np.imul_slice_scalar, Py.slice_bounds, Py.adjust_index.
    destruct (e <? 0) eqn:E1; [lia|]. now rewrite Z.min_l by lia.
  - assert (e = Np.shape_last arr) as -> by lia.
    now rewrite map_last_axis_id by (intros; apply imul_row_empty).
Qed.

(** The three updates on an array, for indices inside the waveform and a
    mask of the length of its slice. *)
Lemma updates_array_ok (arr : Np.ndarray) (cropped : list R) (s e : Z)
  (sg eg : R) :
  Np.wf arr -> 0 <= s <= e -> e <= Np.shape_last arr ->
  Py.len cropped = e - s ->
  updates_array arr cropped s e (Np.shape_last arr)
    (convert_decibels_to_amplitude_ratio sg)
    (convert_decibels_to_amplitude_ratio eg)
  = Ok (Np.map_last_axis
          (apply_row s e (Np.shape_last arr) cropped
             (convert_decibels_to_amplitude_ratio sg)
             (convert_decibels_to_amplitude_ratio eg)) arr).
Proof.
  intros Hwf Hse He Hcl.
  set (total := Np.shape_last arr) in *.
  set (g0 := convert_decibels_to_amplitude_ratio sg).
  set (g1 := convert_decibels_to_amplitude_ratio eg).
  assert (Hrows : Forall (fun row => Py.len row = total) (Np.channels arr))
    by now apply channels_len.
  assert (H1 : Forall (fun row => length (Np.imul_row s e cropped row)
                                  = length row) (Np.channels arr)).
  { eapply Forall_impl; [exact Hrows|]. intros row Hrow. simpl in Hrow.
    apply imul_row_length; unfold Py.len in *; lia. }
  set (arr1 := Np.map_last_axis (Np.imul_row s e cropped) arr).
  assert (Hs1 : Np.shape_last arr1 = total)
    by (apply map_last_axis_shape_last; exact H1).
  assert (Hrows1 : Forall (fun row => Py.len row = total) (Np.channels arr1)).
  { unfold arr1. rewrite map_last_axis_channels by exact H1. apply Forall_map.
    rewrite Forall_forall in *. intros row Hin. simpl.
    unfold Py.len in *. rewrite H1 by assumption. now apply Hrows. }
  set (f2 := Np.imul_row 0 s (replicate (Z.to_nat (s - 0)) g0)).
  assert (H2 : Forall (fun row => length (f2 row) = length row)
                 (Np.channels arr1)).
  { eapply Forall_impl; [exact Hrows1|]. intros row Hrow. simpl in Hrow.
    apply imul_row_length; rewrite ?length_replicate; unfold Py.len in *; lia. }
  set (arr2 := Np.map_last_axis f2 arr1).
  assert (Hs2 : Np.shape_last arr2 = total)
    by (unfold arr2; rewrite map_last_axis_shape_last; assumption).
  unfold updates_array.
  rewrite imul_slice_ok by (unfold Py.len in *; lia). fold arr1.
  rewrite (imul_slice_scalar_before arr1 s g0) by lia. fold f2. fold arr2.
  pose proof (imul_slice_scalar_after arr2 e g1) as Hafter.
  rewrite Hs2 in Hafter. rewrite Hafter by lia.
  unfold arr2, arr1. now rewrite !map_last_axis_compose.
Qed.

(** [apply] in terms of [apply_array]: the reference it returns is the one
    [np.copy] made, and it holds the array computed. *)
Lemma apply_returns_array (s : GainTransition) (samples : Np.loc)
  (sample_rate : Z) (h : Np.heap) (arr a : Np.ndarray) :
  h !! samples = Some arr -> apply_array s arr = Ok a ->
  apply s samples sample_rate h
  = (Ok (fresh (dom h)), <[fresh (dom h) := a]> h).
Proof.
  intros Hs Ha.
  pose proof (apply_returned s samples sample_rate h arr Hs) as Hr.
  rewrite Ha in Hr.
  destruct (apply s samples sample_rate h) as [r h'] eqn:E.
  unfold returned in Hr. simpl in Hr.
  apply apply_frame in E as [[-> Hno]|[[a0 ->] Hout]].
  - destruct r; [discriminate Hno | discriminate Hr].
  - destruct r as [out|e]; [|discriminate Hr].
    rewrite (Hout out eq_refl) in *.
    rewrite lookup_insert_eq in Hr. now injection Hr as ->.
Qed.

Lemma apply_raises (s : GainTransition) (samples : Np.loc)
  (sample_rate : Z) (h : Np.heap) (arr : Np.ndarray) (e : exn) :
  h !! samples = Some arr -> apply_array s arr = Raise e ->
  fst (apply s samples sample_rate h) = Raise e.
Proof.
  intros Hs Ha.
  pose proof (apply_returned s samples sample_rate h arr Hs) as Hr.
  rewrite Ha in Hr. unfold returned in Hr.
  destruct (fst (apply s samples sample_rate h)); [discriminate|].
  simpl in Hr. congruence.
Qed.

(** The gain of the whole transition, at offset [k] from the start of its
    window: the start gain before the window, the interpolated level inside
    it, the end gain after it. *)
Definition envelope (start_gain_db end_gain_db : R) (fade_time_samples : Z)
  (k : Z) : R :=
  if k <? 0 then convert_decibels_to_amplitude_ratio start_gain_db
  else if k <? fade_time_samples then
    convert_decibels_to_amplitude_ratio
      (level start_gain_db end_gain_db fade_time_samples (Z.to_nat k))
  else convert_decibels_to_amplitude_ratio end_gain_db.

(** The cropped mask is the part of the envelope that lies over the
    waveform: sample [i] meets point [i - t0] of the transition. *)
Lemma multiplier_envelope (mask : list R) (t fts total : Z) (sg eg : R)
  (i : nat) :
  get_fade_mask sg eg fts = Ok mask -> 0 <= fts ->
  - fts <= t <= total -> Z.of_nat i < total ->
  multiplier (Z.max t 0) (Z.min (t + fts) total)
    (firstn (Z.to_nat (Z.min (t + fts) total - Z.max t 0))
       (skipn (Z.to_nat (Z.max t 0 - t)) mask)) sg eg i
  = Some (envelope sg eg fts (Z.of_nat i - t)).
Proof.
  intros Hmask Hfts Hr Hi. unfold multiplier, envelope.
  destruct (Z.of_nat i <? Z.max t 0) eqn:E1.
  - assert ((Z.of_nat i - t <? 0) = true) as -> by lia. reflexivity.
  - destruct (Z.of_nat i <? Z.min (t + fts) total) eqn:E2.
    + assert ((Z.of_nat i - t <? 0) = false) as -> by lia.
      assert ((Z.of_nat i - t <? fts) = true) as -> by lia.
      rewrite lookup_take_lt, lookup_drop by lia.
      replace (Z.to_nat (Z.max t 0 - t) + (i - Z.to_nat (Z.max t 0)))%nat
        with (Z.to_nat (Z.of_nat i - t)) by lia.
      apply get_fade_mask_lookup; [lia | exact Hmask | lia].
    + assert ((Z.of_nat i - t <? 0) = false) as -> by lia.
      assert ((Z.of_nat i - t <? fts) = false) as -> by lia.
      reflexivity.
Qed.

Section TouchingWindow.
Variables (slf : GainTransition) (samples : Np.loc) (sample_rate : Z).
Variables (h : Np.heap) (arr : Np.ndarray).
Variables (fts t : Z) (sg eg : R).
Hypothesis Hsamples : h !! samples = Some arr.
Hypothesis Hwf : Np.wf arr.
Hypothesis Hfts : fade_time_samples (params slf) = Some fts.
Hypothesis Ht0 : t0 (params slf) = Some t.
Hypothesis Hsg : start_gain_db (params slf) = Some sg.
Hypothesis Heg : end_gain_db (params slf) = Some eg.
Hypothesis Hfts0 : 0 <= fts.
Hypothesis Hrange : - fts <= t <= Np.shape_last arr.

(** [apply] multiplies the waveform by the envelope shifted to [t0]. *)
Lemma apply_envelope :
  exists arr',
    apply slf samples sample_rate h
    = (Ok (fresh (dom h)), <[fresh (dom h) := arr']> h)
    /\ Np.shape arr' = Np.shape arr
    /\ forall c row i x,
         Np.channels arr !! c = Some row -> row !! i = Some x ->
         exists row',
           Np.channels arr' !! c = Some row'
           /\ row' !! i = Some (x * envelope sg eg fts (Z.of_nat i - t))%R.
Proof.
  pose proof (shape_last_nonneg arr) as Htotal.
  destruct (get_fade_mask_ok sg eg fts Hfts0) as (mask & Hmask & Hlen).
  pose proof (crop_touching mask t fts _ Hlen Htotal Hrange) as Hc.
  set (total := Np.shape_last arr) in *.
  set (s := Z.max t 0) in *. set (e := Z.min (t + fts) total) in *.
  set (cropped := firstn _ _) in *.
  assert (Hcl : Py.len cropped = e - s).
  { unfold cropped, Py.len in *. rewrite length_firstn, length_skipn. lia. }
  set (f := apply_row s e total cropped
              (convert_decibels_to_amplitude_ratio sg)
              (convert_decibels_to_amplitude_ratio eg)).
  assert (Harr : apply_array slf arr = Ok (Np.map_last_axis f arr)).
  { unfold apply_array. rewrite Hsg, Heg, Hfts, Hmask, Ht0. fold total.
    rewrite Hc. apply updates_array_ok; try assumption; lia. }
  assert (Hrows : Forall (fun row => length (f row) = length row)
                    (Np.channels arr)).
  { eapply Forall_impl; [apply channels_len, Hwf|].
    intros row Hrow. simpl in Hrow.
    apply apply_row_length; try assumption; lia. }
  exists (Np.map_last_axis f arr). split; [|split].
  - now apply apply_returns_array with (arr := arr).
  - now apply map_last_axis_shape.
  - intros c row i x Hc' Hx.
    assert (Hrow : Py.len row = total).
    { pose proof (channels_len arr Hwf) as Hall.
      rewrite Forall_forall in Hall. apply Hall.
      eapply list_elem_of_lookup_2, Hc'. }
    destruct (apply_row_lookup s e total cropped row sg eg) with (i := i)
      (x := x) as (m & Hm & Hout); try assumption; try lia.
    pose proof (lookup_lt_Some _ _ _ Hx) as Hi.
    unfold cropped, s, e in Hm.
    rewrite (multiplier_envelope mask t fts total sg eg i) in Hm;
      [|assumption|assumption|assumption|unfold Py.len in *; lia].
    injection Hm as <-.
    exists (f row). split; [|exact Hout].
    rewrite map_last_axis_channels by exact Hrows.
    rewrite list_lookup_fmap. now rewrite Hc'.
Qed.

End TouchingWindow.

(** The envelope stays between its two gains. *)
Lemma amplitude_ratio_Rmin (a b : R) :
  Rmin (convert_decibels_to_amplitude_ratio a)
       (convert_decibels_to_amplitude_ratio b)
  = convert_decibels_to_amplitude_ratio (Rmin a b).
Proof.
  unfold Rmin at 2. destruct (Rle_dec a b) as [Hle|Hgt].
  - apply Rmin_left. now apply amplitude_ratio_mono.
  - apply Rmin_right. apply amplitude_ratio_mono. lra.
Qed.

Lemma amplitude_ratio_Rmax (a b : R) :
  Rmax (convert_decibels_to_amplitude_ratio a)
       (convert_decibels_to_amplitude_ratio b)
  = convert_decibels_to_amplitude_ratio (Rmax a b).
Proof.
  unfold Rmax at 2. destruct (Rle_dec a b) as [Hle|Hgt].
  - apply Rmax_right. now apply amplitude_ratio_mono.
  - apply Rmax_left. apply amplitude_ratio_mono. lra.
Qed.

Lemma envelope_between (sg eg : R) (fts k : Z) :
  (Rmin (convert_decibels_to_amplitude_ratio sg)
        (convert_decibels_to_amplitude_ratio eg)
   <= envelope sg eg fts k
   <= Rmax (convert_decibels_to_amplitude_ratio sg)
           (convert_decibels_to_amplitude_ratio eg))%R.
Proof.
  unfold envelope.
  destruct (k <? 0) eqn:E1; [split; [apply Rmin_l | apply Rmax_l]|].
  destruct (k <? fts) eqn:E2; [|split; [apply Rmin_r | apply Rmax_r]].
  rewrite amplitude_ratio_Rmin, amplitude_ratio_Rmax.
  pose proof (level_between sg eg fts (Z.to_nat k) ltac:(lia)) as [Hlo Hhi].
  split; now apply amplitude_ratio_mono.
Qed.

Lemma level_constant (g : R) (num : Z) (k : nat) : level g g num k = g.
Proof. unfold level. unfold Rdiv. rewrite Rminus_diag. lra. Qed.

Lemma envelope_constant (g : R) (fts k : Z) :
  envelope g g fts k = convert_decibels_to_amplitude_ratio g.
Proof.
  unfold envelope. destruct (k <? 0); [reflexivity|].
  destruct (k <? fts); [|reflexivity]. now rewrite level_constant.
Qed.

(** Parameters as drawn, with the window of three samples at [t]. *)
Definition transform_at (t : Z) : GainTransition :=
  with_params drawn_transform
    {| should_apply := Some true; fade_time_samples := Some 3; t0 := Some t;
       start_gain_db := Some 0%R; end_gain_db := Some (-6)%R |}.

(** X1. For every window that touches the waveform, from [t0 =
    -fade_time_samples] to [t0 = total_samples], and every
    [fade_time_samples >= 0], [apply] returns a new array of the shape of
    its input in which sample [i] of every channel is the input sample
    times the gain envelope of the whole transition at offset [i - t0]:
    cropping keeps each point of the curve on the sample it belongs to. *)
Theorem apply_shifted_envelope
  (slf : GainTransition) (samples : Np.loc) (sample_rate : Z)
  (h : Np.heap) (arr : Np.ndarray) (fts t : Z) (sg eg : R) :
  h !! samples = Some arr -> Np.wf arr ->
  fade_time_samples (params slf) = Some fts ->
  t0 (params slf) = Some t ->
  start_gain_db (params slf) = Some sg ->
  end_gain_db (params slf) = Some eg ->
  0 <= fts -> - fts <= t <= Np.shape_last arr ->
  exists out arr',
    apply slf samples sample_rate h = (Ok out, <[out := arr']> h)
    /\ Np.shape arr' = Np.shape arr
    /\ forall c row i x,
         Np.channels arr !! c = Some row -> row !! i = Some x ->
         exists row',
           Np.channels arr' !! c = Some row'
           /\ row' !! i = Some (x * envelope sg eg fts (Z.of_nat i - t))%R.
Proof.
  intros Hs Hwf Hfts Ht Hsg Heg Hfts0 Hrange.
  destruct (apply_envelope slf samples sample_rate h arr fts t sg eg)
    as (arr' & Happly & Hshape & Hlk); try assumption.
  now exists (fresh (dom h)), arr'.
Qed.

Lemma apply_shifted_envelope_witness :
  exists out arr',
    apply (transform_at 4) 1%positive 44100 stereo_heap
    = (Ok out, <[out := arr']> stereo_heap)
    /\ Np.shape arr' = Np.shape stereo
    /\ forall c row i x,
         Np.channels stereo !! c = Some row -> row !! i = Some x ->
         exists row',
           Np.channels arr' !! c = Some row'
           /\ row' !! i = Some (x * envelope 0 (-6) 3 (Z.of_nat i - 4))%R.
Proof.
  apply (apply_shifted_envelope (transform_at 4) 1%positive 44100
           stereo_heap stereo 3 4 0 (-6)).
  - reflexivity.
  - repeat constructor.
  - reflexivity.
  - reflexivity.
  - reflexivity.
  - reflexivity.
  - lia.
  - simpl. lia.
Defined.

(** X2. The gain never overshoots: for every window that touches the
    waveform, each output sample of [apply] is the input sample times a
    factor between the amplitude ratios of [start_gain_db] and
    [end_gain_db]. *)
Theorem apply_gain_within_bounds
  (slf : GainTransition) (samples : Np.loc) (sample_rate : Z)
  (h : Np.heap) (arr : Np.ndarray) (fts t : Z) (sg eg : R) :
  h !! samples = Some arr -> Np.wf arr ->
  fade_time_samples (params slf) = Some fts ->
  t0 (params slf) = Some t ->
  start_gain_db (params slf) = Some sg ->
  end_gain_db (params slf) = Some eg ->
  0 <= fts -> - fts <= t <= Np.shape_last arr ->
  exists out arr',
    apply slf samples sample_rate h = (Ok out, <[out := arr']> h)
    /\ forall c row i x,
         Np.channels arr !! c = Some row -> row !! i = Some x ->
         exists m row',
           (Rmin (convert_decibels_to_amplitude_ratio sg)
                 (convert_decibels_to_amplitude_ratio eg) <= m
            <= Rmax (convert_decibels_to_amplitude_ratio sg)
                    (convert_decibels_to_amplitude_ratio eg))%R
           /\ Np.channels arr' !! c = Some row'
           /\ row' !! i = Some (x * m)%R.
Proof.
  intros Hs Hwf Hfts Ht Hsg Heg Hfts0 Hrange.
  destruct (apply_envelope slf samples sample_rate h arr fts t sg eg)
    as (arr' & Happly & Hshape & Hlk); try assumption.
  exists (fresh (dom h)), arr'. split; [exact Happly|].
  intros c row i x Hc Hx.
  destruct (Hlk c row i x Hc Hx) as (row' & Hrow' & Hout).
  exists (envelope sg eg fts (Z.of_nat i - t)), row'.
  split; [apply envelope_between|]. now split.
Qed.

Lemma apply_gain_within_bounds_witness :
  exists out arr',
    apply (transform_at (-1)) 1%positive 44100 stereo_heap
    = (Ok out, <[out := arr']> stereo_heap)
    /\ forall c row i x,
         Np.channels stereo !! c = Some row -> row !! i = Some x ->
         exists m row',
           (Rmin (convert_decibels_to_amplitude_ratio 0)
                 (convert_decibels_to_amplitude_ratio (-6)) <= m
            <= Rmax (convert_decibels_to_amplitude_ratio 0)
                    (convert_decibels_to_amplitude_ratio (-6)))%R
           /\ Np.channels arr' !! c = Some row'
           /\ row' !! i = Some (x * m)%R.
Proof.
  apply (apply_gain_within_bounds (transform_at (-1)) 1%positive 44100
           stereo_heap stereo 3 (-1) 0 (-6)).
  - reflexivity.
  - repeat constructor.
  - reflexivity.
  - reflexivity.
  - reflexivity.
  - reflexivity.
  - lia.
  - simpl. lia.
Defined.

(** A transform whose two gains were drawn equal, at -6 dB. *)
Definition flat_transform : GainTransition :=
  with_params drawn_transform
    {| should_apply := Some true; fade_time_samples := Some 3;
       t0 := Some 1; start_gain_db := Some (-6)%R;
       end_gain_db := Some (-6)%R |}.

(** X3. When the two gains are equal, [apply] is a plain gain: every
    output sample is the input sample times the amplitude ratio of that
    gain, wherever the window lies on the waveform. *)
Theorem apply_equal_gains
  (slf : GainTransition) (samples : Np.loc) (sample_rate : Z)
  (h : Np.heap) (arr : Np.ndarray) (fts t : Z) (g : R) :
  h !! samples = Some arr -> Np.wf arr ->
  fade_time_samples (params slf) = Some fts ->
  t0 (params slf) = Some t ->
  start_gain_db (params slf) = Some g ->
  end_gain_db (params slf) = Some g ->
  0 <= fts -> - fts <= t <= Np.shape_last arr ->
  exists out arr',
    apply slf samples sample_rate h = (Ok out, <[out := arr']> h)
    /\ forall c row i x,
         Np.channels arr !! c = Some row -> row !! i = Some x ->
         exists row',
           Np.channels arr' !! c = Some row'
           /\ row' !! i
              = Some (x * convert_decibels_to_amplitude_ratio g)%R.
Proof.
  intros Hs Hwf Hfts Ht Hsg Heg Hfts0 Hrange.
  destruct (apply_envelope slf samples sample_rate h arr fts t g g)
    as (arr' & Happly & Hshape & Hlk); try assumption.
  exists (fresh (dom h)), arr'. split; [exact Happly|].
  intros c row i x Hc Hx.
  destruct (Hlk c row i x Hc Hx) as (row' & Hrow' & Hout).
  exists row'. split; [exact Hrow'|].
  now rewrite envelope_constant in Hout.
Qed.

Lemma apply_equal_gains_witness :
  exists out arr',
    apply flat_transform 1%positive 44100 stereo_heap
    = (Ok out, <[out := arr']> stereo_heap)
    /\ forall c row i x,
         Np.channels stereo !! c = Some row -> row !! i = Some x ->
         exists row',
           Np.channels arr' !! c = Some row'
           /\ row' !! i
              = Some (x * convert_decibels_to_amplitude_ratio (-6))%R.
Proof.
  apply (apply_equal_gains flat_transform 1%positive 44100
           stereo_heap stereo 3 1 (-6)).
  - reflexivity.
  - repeat constructor.
  - reflexivity.
  - reflexivity.
  - reflexivity.
  - reflexivity.
  - lia.
  - simpl. lia.
Defined.

(** X4. A window that lies just beside the waveform leaves one held gain
    on all of it: with [t0 = -fade_time_samples] every sample is multiplied
    by the amplitude ratio of [end_gain_db], and with [t0 = total_samples]
    by that of [start_gain_db]. *)
Theorem apply_window_beside_waveform
  (slf : GainTransition) (samples : Np.loc) (sample_rate : Z)
  (h : Np.heap) (arr : Np.ndarray) (fts t : Z) (sg eg : R) :
  h !! samples = Some arr -> Np.wf arr ->
  fade_time_samples (params slf) = Some fts ->
  t0 (params slf) = Some t ->
  start_gain_db (params slf) = Some sg ->
  end_gain_db (params slf) = Some eg ->
  0 <= fts -> t = - fts \/ t = Np.shape_last arr ->
  exists out arr',
    apply slf samples sample_rate h = (Ok out, <[out := arr']> h)
    /\ forall c row i x,
         Np.channels arr !! c = Some row -> row !! i = Some x ->
         exists row',
           Np.channels arr' !! c = Some row'
           /\ (t = - fts ->
               row' !! i
               = Some (x * convert_decibels_to_amplitude_ratio eg)%R)
           /\ (t = Np.shape_last arr ->
               row' !! i
               = Some (x * convert_decibels_to_amplitude_ratio sg)%R).
Proof.
  intros Hs Hwf Hfts Ht Hsg Heg Hfts0 Hside.
  pose proof (shape_last_nonneg arr) as Htotal.
  destruct (apply_envelope slf samples sample_rate h arr fts t sg eg)
    as (arr' & Happly & Hshape & Hlk); try assumption; [lia|].
  exists (fresh (dom h)), arr'. split; [exact Happly|].
  intros c row i x Hc Hx.
  destruct (Hlk c row i x Hc Hx) as (row' & Hrow' & Hout).
  assert (Hi : Z.of_nat i < Np.shape_last arr).
  { pose proof (channels_len arr Hwf) as Hall.
    rewrite Forall_forall in Hall.
    pose proof (Hall row (list_elem_of_lookup_2 _ _ _ Hc)) as Hrow.
    pose proof (lookup_lt_Some _ _ _ Hx). unfold Py.len in Hrow. lia. }
  exists row'. split; [exact Hrow'|]. unfold envelope in Hout. split.
  - intros ->.
    assert ((Z.of_nat i - - fts <? 0) = false) as E1 by lia.
    assert ((Z.of_nat i - - fts <? fts) = false) as E2 by lia.
    now rewrite E1, E2 in Hout.
  - intros ->.
    assert ((Z.of_nat i - Np.shape_last arr <? 0) = true) as E1 by lia.
    now rewrite E1 in Hout.
Qed.

Lemma apply_window_beside_waveform_witness :
  exists out arr',
    apply (transform_at (-3)) 1%positive 44100 stereo_heap
    = (Ok out, <[out := arr']> stereo_heap)
    /\ forall c row i x,
         Np.channels stereo !! c = Some row -> row !! i = Some x ->
         exists row',
           Np.channels arr' !! c = Some row'
           /\ (-3 = - 3 ->
               row' !! i
               = Some (x * convert_decibels_to_amplitude_ratio (-6))%R)
           /\ (-3 = Np.shape_last stereo ->
               row' !! i
               = Some (x * convert_decibels_to_amplitude_ratio 0)%R).
Proof.
  apply (apply_window_beside_waveform (transform_at (-3)) 1%positive 44100
           stereo_heap stereo 3 (-3) 0 (-6)).
  - reflexivity.
  - repeat constructor.
  - reflexivity.
  - reflexivity.
  - reflexivity.
  - reflexivity.
  - lia.
  - left. reflexivity.
Defined.

(** ** [apply] on a window before the waveform *)

(** X5. A window that ends before the waveform starts, by fewer samples
    than the waveform has, makes [apply] raise a [ValueError]: the negative
    [end_sample_index] counts from the end of the waveform, so the slice
    is not empty while the cropped mask is. The arrays there were, the
    input among them, are left as they were. *)
Theorem apply_window_before_waveform_raises
  (slf : GainTransition) (samples : Np.loc) (sample_rate : Z)
  (h : Np.heap) (arr : Np.ndarray) (fts t : Z) (sg eg : R) :
  h !! samples = Some arr ->
  fade_time_samples (params slf) = Some fts ->
  t0 (params slf) = Some t ->
  start_gain_db (params slf) = Some sg ->
  end_gain_db (params slf) = Some eg ->
  0 <= fts -> - Np.shape_last arr < t + fts < 0 ->
  (exists msg,
     fst (apply slf samples sample_rate h) = Raise (ValueError msg))
  /\ forall l a, h !! l = Some a ->
                 snd (apply slf samples sample_rate h) !! l = Some a.
Proof.
  intros Hs Hfts Ht Hsg Heg Hfts0 Hrange. split.
  - destruct (get_fade_mask_ok sg eg fts Hfts0) as (mask & Hmask & Hlen).
    eexists. apply apply_raises with (arr := arr); [exact Hs|].
    unfold apply_array. rewrite Hsg, Heg, Hfts, Hmask, Ht.
    unfold crop.
    assert ((t <? 0) = true) as -> by lia.
    assert ((t + fts >? Np.shape_last arr) = false) as -> by lia.
    assert (Py.slice mask (Some (Z.abs t)) None = []) as ->.
    { unfold Py.slice, Py.slice_bounds, Py.adjust_index.
      assert ((Z.abs t <? 0) = false) as -> by lia.
      rewrite Z.min_r by lia. now rewrite Z.sub_diag. }
    unfold updates_array, Np.imul_slice, Py.slice_bounds, Py.adjust_index.
    assert ((0 <? 0) = false) as -> by reflexivity.
    assert ((t + fts <? 0) = true) as -> by lia.
    rewrite Z.min_l, Z.max_l by lia.
    unfold Np.broadcast_to.
    assert ((length (@nil R) =? Z.to_nat (t + fts + Np.shape_last arr - 0))%nat
            = false) as -> by (apply Nat.eqb_neq; simpl; lia).
    reflexivity.
  - intros l a Hl.
    destruct (apply slf samples sample_rate h) as [r h'] eqn:E. simpl.
    apply apply_frame in E as [[-> _]|[Hw _]]; [exact Hl|].
    now apply (written_at_fresh h).
Qed.

Lemma apply_window_before_waveform_raises_witness :
  (exists msg,
     fst (apply (transform_at (-5)) 1%positive 44100 stereo_heap)
     = Raise (ValueError msg))
  /\ forall l a, stereo_heap !! l = Some a ->
                 snd (apply (transform_at (-5)) 1%positive 44100 stereo_heap)
                 !! l = Some a.
Proof.
  apply (apply_window_before_waveform_raises (transform_at (-5)) 1%positive
           44100 stereo_heap stereo 3 (-5) 0 (-6)).
  - reflexivity.
  - reflexivity.
  - reflexivity.
  - reflexivity.
  - reflexivity.
  - lia.
  - simpl. lia.
Defined.

(** ** The shape of the fade mask *)

Lemma level_step (start stop : R) (num : Z) (i : nat) :
  2 <= num ->
  level start stop num (S i)
  = (level start stop num i + (stop - start) / IZR (num - 1))%R.
Proof.
  intros Hn. unfold level. rewrite Z.max_r by lia.
  rewrite Nat2Z.inj_succ, succ_IZR.
  assert (IZR (num - 1) <> 0)%R by (apply not_0_IZR; lia).
  field. assumption.
Qed.

Lemma amplitude_ratio_plus (a b : R) :
  convert_decibels_to_amplitude_ratio (a + b)
  = (convert_decibels_to_amplitude_ratio a
     * convert_decibels_to_amplitude_ratio b)%R.
Proof.
  unfold convert_decibels_to_amplitude_ratio.
  rewrite <- Rpower_plus. f_equal. lra.
Qed.

(** X6. The fade works on a logarithmic scale: the mask of two points or
    more is a geometric progression, each entry being the one before it
    times the amplitude ratio of the step in decibels,
    [(end_level_db - start_level_db) / (fade_time_samples - 1)]. *)
Theorem fade_mask_geometric (start_level_db end_level_db : R) (n : Z) :
  2 <= n ->
  exists mask,
    get_fade_mask start_level_db end_level_db n = Ok mask
    /\ forall i x y,
         mask !! i = Some x -> mask !! S i = Some y ->
         y = (x * convert_decibels_to_amplitude_ratio
                    ((end_level_db - start_level_db) / IZR (n - 1)))%R.
Proof.
  intros Hn.
  destruct (get_fade_mask_ok start_level_db end_level_db n ltac:(lia))
    as (mask & Hmask & Hlen).
  exists mask. split; [exact Hmask|]. intros i x y Hx Hy.
  pose proof (lookup_lt_Some _ _ _ Hy) as Hi. unfold Py.len in Hlen.
  rewrite (get_fade_mask_lookup start_level_db end_level_db n mask)
    in Hx, Hy by (assumption || lia).
  injection Hx as <-. injection Hy as <-.
  now rewrite level_step, amplitude_ratio_plus by lia.
Qed.

Lemma fade_mask_geometric_witness :
  exists mask,
    get_fade_mask 0 (-20) 5 = Ok mask
    /\ forall i x y,
         mask !! i = Some x -> mask !! S i = Some y ->
         y = (x * convert_decibels_to_amplitude_ratio
                    ((-20 - 0) / IZR (5 - 1)))%R.
Proof.
  apply (fade_mask_geometric 0 (-20) 5). lia.
Defined.

Lemma level_reverse (start stop : R) (num : Z) (i : nat) :
  2 <= num -> (i < Z.to_nat num)%nat ->
  level stop start num i = level start stop num (Z.to_nat num - S i).
Proof.
  intros Hn Hi. unfold level. rewrite Z.max_r by lia.
  replace (Z.of_nat (Z.to_nat num - S i)) with (num - 1 - Z.of_nat i) by lia.
  rewrite !minus_IZR.
  assert (IZR num - 1 <> 0)%R.
  { rewrite <- (minus_IZR num 1). apply not_0_IZR. lia. }
  simpl. field. assumption.
Qed.

(** X7. A fade out is the mirror of the fade in: for every length but 1,
    in exact arithmetic, the mask from [b] to [a] is the mask from [a] to
    [b] reversed. (A mask of one point holds its start level, so the two
    differ there.) *)
Theorem fade_mask_reversed (a b : R) (n : Z) :
  0 <= n -> n <> 1 ->
  exists mask,
    get_fade_mask a b n = Ok mask /\ get_fade_mask b a n = Ok (rev mask).
Proof.
  intros Hn Hne.
  destruct (get_fade_mask_ok a b n Hn) as (mask & Hmask & Hlen).
  destruct (get_fade_mask_ok b a n Hn) as (mask' & Hmask' & Hlen').
  exists mask. split; [exact Hmask|]. rewrite Hmask'. f_equal.
  rewrite rev_alt. change (rev_append mask []) with (reverse mask).
  unfold Py.len in *. apply list_eq. intros i.
  destruct (decide (i < Z.to_nat n)%nat) as [Hi|Hi].
  - rewrite reverse_lookup by lia.
    rewrite (get_fade_mask_lookup b a n mask' i) by (assumption || lia).
    rewrite (get_fade_mask_lookup a b n mask) by (assumption || lia).
    do 2 f_equal. replace (length mask) with (Z.to_nat n) by lia.
    apply level_reverse; lia.
  - rewrite !lookup_ge_None_2; [reflexivity | |]; rewrite ?length_reverse; lia.
Qed.

Lemma fade_mask_reversed_witness :
  exists mask,
    get_fade_mask 0 (-20) 5 = Ok mask
    /\ get_fade_mask (-20) 0 5 = Ok (rev mask).
Proof.
  apply (fade_mask_reversed 0 (-20) 5); lia.
Defined.

(** ** What [__init__] accepts *)

(** The bound that lines 77-107 store: the new name when given, else the
    deprecated alias, else the default. *)
Definition resolved (new_value old_value : option R) (default : R) : R :=
  match new_value, old_value with
  | Some v, _ => v
  | None, Some v => v
  | None, None => default
  end.

Lemma resolve_gain_runs (name : string) (new_value old_value : option R)
  (default : R) (ws : list warning) :
  new_value = None \/ old_value = None ->
  exists ws',
    resolve_gain name new_value old_value default ws
    = (Ok (resolved new_value old_value default), ws').
Proof.
  unfold resolve_gain, resolved, bind, warn, modify, ret.
  destruct new_value, old_value; intros [H|H]; try discriminate;
    eexists; reflexivity.
Qed.

Lemma resolve_gain_resolved (name : string) (new_value old_value : option R)
  (default v : R) (ws ws' : list warning) :
  resolve_gain name new_value old_value default ws = (Ok v, ws') ->
  (new_value = None \/ old_value = None)
  /\ v = resolved new_value old_value default.
Proof.
  intros Hr. apply resolve_gain_ok in Hr.
  destruct Hr as [[-> ->]|[[-> ->]|(-> & -> & ->)]]; simpl; auto.
Qed.

(** X8. [__init__] returns exactly when the base class accepts [p], no
    bound is given under both its names, the lower gain bound is at most
    the upper one and [0 < min_duration <= max_duration]; the instance
    then holds [p], the two resolved gain bounds, the durations and the
    unit as given, and no parameters. *)
Theorem construct_succeeds_iff (args : init_args) :
  let lo := resolved (arg_min_gain_db args) (arg_min_gain_in_db args) (-24) in
  let hi := resolved (arg_max_gain_db args) (arg_max_gain_in_db args) 6 in
  ((0 <= arg_p args <= 1)%R
   /\ (arg_min_gain_db args = None \/ arg_min_gain_in_db args = None)
   /\ (arg_max_gain_db args = None \/ arg_max_gain_in_db args = None)
   /\ (lo <= hi)%R
   /\ (0 < to_R (arg_min_duration args))%R
   /\ (to_R (arg_min_duration args) <= to_R (arg_max_duration args))%R)
  <-> construct args
      = Ok {| p := arg_p args; min_gain_db := lo; max_gain_db := hi;
              min_duration := arg_min_duration args;
              max_duration := arg_max_duration args;
              duration_unit := arg_duration_unit args;
              params := no_parameters |}.
Proof.
  intros lo hi. unfold construct. split.
  - intros ([Hp0 Hp1] & Hmin & Hmax & Hle & Hd0 & Hd).
    destruct (resolve_gain_runs "min" _ _ (-24) [] Hmin) as [ws1 Hlo].
    destruct (resolve_gain_runs "max" _ _ 6 ws1 Hmax) as [ws2 Hhi].
    rewrite (init_runs args [] ws1 ws2 lo hi); try assumption.
    + reflexivity.
    + apply andb_true_iff. split; now apply Rleb_true.
    + now apply Rleb_true.
    + apply Rltb_true. exact Hd0.
    + now apply Rleb_true.
  - destruct (init args []) as [r ws'] eqn:E. simpl. intros ->.
    apply init_ok in E
      as (lo' & hi' & ws1 & Hlo & Hhi & Hp & Hle & Hd0 & Hd & Heq).
    apply resolve_gain_resolved in Hlo as [Hmin Hlo'].
    apply resolve_gain_resolved in Hhi as [Hmax Hhi'].
    apply andb_true_iff in Hp as [Hp0 Hp1].
    apply Rleb_true in Hp0, Hp1, Hle, Hd. apply Rltb_true in Hd0.
    subst lo' hi'. repeat split; assumption.
Qed.

Lemma construct_succeeds_iff_witness :
  construct deprecated_args
  = Ok {| p := arg_p deprecated_args;
          min_gain_db :=
            resolved (arg_min_gain_db deprecated_args)
              (arg_min_gain_in_db deprecated_args) (-24);
          max_gain_db :=
            resolved (arg_max_gain_db deprecated_args)
              (arg_max_gain_in_db deprecated_args) 6;
          min_duration := arg_min_duration deprecated_args;
          max_duration := arg_max_duration deprecated_args;
          duration_unit := arg_duration_unit deprecated_args;
          params := no_parameters |}.
Proof.
  apply (proj1 (construct_succeeds_iff deprecated_args)).
  simpl. repeat split; auto; lra.
Defined.

(** The warnings that a construction from [args] issues when it returns:
    one for each gain bound given by its deprecated alias. *)
Definition deprecations (args : init_args) : list warning :=
  (match arg_min_gain_db args, arg_min_gain_in_db args with
   | None, Some _ =>
       [DeprecationWarning
          "The min_gain_in_db parameter is deprecated. Use min_gain_db instead."]
   | _, _ => []
   end
   ++ match arg_max_gain_db args, arg_max_gain_in_db args with
      | None, Some _ =>
          [DeprecationWarning
             "The max_gain_in_db parameter is deprecated. Use max_gain_db instead."]
      | _, _ => []
      end)%list.

Lemma resolve_gain_warnings (name : string) (new_value old_value : option R)
  (default v : R) (ws ws' : list warning) :
  resolve_gain name new_value old_value default ws = (Ok v, ws') ->
  ws' = (ws ++ match new_value, old_value with
               | None, Some _ =>
                   [DeprecationWarning
                      ("The " ++ name ++ "_gain_in_db parameter is"
                       ++ " deprecated. Use " ++ name
                       ++ "_gain_db instead.")]
               | _, _ => []
               end)%list.
Proof.
  unfold resolve_gain, bind, warn, modify, ret, raise.
  destruct new_value, old_value; intros [= <- <-];
    rewrite ?app_nil_r; reflexivity.
Qed.

(** X9. A construction that returns issues one [DeprecationWarning] for
    each gain bound that was given by its deprecated alias, the lower
    bound's first, and no other warning: with the new names only, or with
    the defaults, it issues none. *)
Theorem init_warnings (args : init_args) (ws ws' : list warning)
  (t : GainTransition) :
  init args ws = (Ok t, ws') -> ws' = (ws ++ deprecations args)%list.
Proof.
  intros E.
  apply init_ok in E as (lo & hi & ws1 & Hlo & Hhi & _).
  apply resolve_gain_warnings in Hlo, Hhi. subst ws1 ws'.
  unfold deprecations. now rewrite <- app_assoc.
Qed.

Lemma init_warnings_witness :
  [DeprecationWarning
     "The min_gain_in_db parameter is deprecated. Use min_gain_db instead."]
  = ([] ++ deprecations deprecated_args)%list.
Proof.
  apply (init_warnings deprecated_args []
           [DeprecationWarning
              "The min_gain_in_db parameter is deprecated. Use min_gain_db instead."]
           {| p := 5 / 10; min_gain_db := -12; max_gain_db := 6;
              min_duration := PyFloat (2 / 10); max_duration := PyFloat 6;
              duration_unit := "seconds"; params := no_parameters |}).
  erewrite (init_runs _ [] _ _ (-12) 6); try reflexivity.
  - apply andb_true_iff; split; apply Rleb_true; simpl; lra.
  - apply Rleb_true; lra.
  - apply Rltb_true; simpl; lra.
  - apply Rleb_true; simpl; lra.
Defined.

(** ** [apply] without parameters *)

(** X10. [apply] on an instance whose parameters were never drawn, as
    [__init__] leaves it, raises [KeyError] for [start_gain_db], the first
    parameter it reads, before it copies anything: the store is left as it
    was. *)
Theorem apply_before_randomize (args : init_args) (t : GainTransition)
  (samples : Np.loc) (sample_rate : Z) (h : Np.heap) (arr : Np.ndarray) :
  construct args = Ok t -> h !! samples = Some arr ->
  apply t samples sample_rate h = (Raise (KeyError "start_gain_db"), h).
Proof.
  unfold construct. intros Ht Hs.
  destruct (init args []) as [r ws'] eqn:E. simpl in Ht. subst r.
  apply init_ok in E as (lo & hi & ws1 & _ & _ & _ & _ & _ & _ & ->).
  unfold apply. unfold bind at 1. unfold Np.deref at 1. rewrite Hs.
  reflexivity.
Qed.

Lemma apply_before_randomize_witness :
  apply {| p := 5 / 10; min_gain_db := -24; max_gain_db := 6;
           min_duration := PyFloat (2 / 10); max_duration := PyFloat 6;
           duration_unit := "seconds"; params := no_parameters |}
    1%positive 44100 stereo_heap
  = (Raise (KeyError "start_gain_db"), stereo_heap).
Proof.
  apply (apply_before_randomize default_args _ 1%positive 44100 stereo_heap
           stereo).
  - exact (construct_default_args "seconds").
  - reflexivity.
Defined.

(** ** What [randomize_parameters] draws *)

Section RandomizeRun.
Context {G : Type} `{RandomSource G}.

Lemma on_rng_randint_run (lo hi : Z) (w : world G) :
  lo <= hi ->
  on_rng (randint (PyInt lo) (PyInt hi)) w
  = (Ok (lo + fst (randbelow (hi + 1 - lo) (w_rng w))),
     {| w_self := w_self w;
        w_rng := snd (randbelow (hi + 1 - lo) (w_rng w));
        w_heap := w_heap w |}).
Proof.
  intros Hle. unfold on_rng, randint.
  destruct (0 <? hi + 1 - lo) eqn:E; [|lia].
  now destruct (randbelow (hi + 1 - lo) (w_rng w)).
Qed.

Lemma on_rng_randint_empty (lo hi : Z) (w : world G) :
  hi < lo ->
  exists msg,
    on_rng (randint (PyInt lo) (PyInt hi)) w = (Raise (ValueError msg), w).
Proof.
  intros Hlt. unfold on_rng, randint, raise.
  destruct (0 <? hi + 1 - lo) eqn:E; [lia|].
  eexists. destruct w; reflexivity.
Qed.

(** The world that a call leaves when it draws everything: the draws are
    taken from the source in the order of the source text, the trial, the
    duration, [t0], the start gain and the end gain. *)
Definition all_drawn_world (samples : Np.ndarray) (w : world G) (lo hi : Z)
  : world G :=
  let g1 := snd (random_float (w_rng w)) in
  let d := randbelow (hi + 1 - lo) g1 in
  let fts := Z.max 3 (lo + fst d) in
  let s := randbelow (Np.shape_last samples - 2 + 1 - (- fts + 2)) (snd d) in
  let u1 := random_float (snd s) in
  let u2 := random_float (snd u1) in
  let lo_db := min_gain_db (w_self w) in
  let hi_db := max_gain_db (w_self w) in
  {| w_self :=
       with_params (w_self w)
         {| should_apply := Some true;
            fade_time_samples := Some fts;
            t0 := Some (- fts + 2 + fst s);
            start_gain_db := Some (lo_db + (hi_db - lo_db) * fst u1)%R;
            end_gain_db := Some (lo_db + (hi_db - lo_db) * fst u2)%R |};
     w_rng := snd u2;
     w_heap := w_heap w |}.

Lemma randomize_parameters_run (samples : Np.ndarray) (sample_rate : Z)
  (w : world G) (lo hi : Z) :
  Rltb (fst (random_float (w_rng w))) (p (w_self w)) = true ->
  duration_in_samples (w_self w) samples sample_rate
  = Ok (PyInt lo, PyInt hi) ->
  lo <= hi ->
  3 < Np.shape_last samples
      + Z.max 3 (lo + fst (randbelow (hi + 1 - lo)
                             (snd (random_float (w_rng w))))) ->
  randomize_parameters samples sample_rate w
  = (Ok tt, all_drawn_world samples w lo hi).
Proof.
  intros Htrial Hd Hle Hn. unfold randomize_parameters.
  unfold bind at 1. rewrite base_randomize_parameters_run.
  unfold bind at 1, self at 1. unfold bind at 1.
  change (should_apply (params (w_self (after_trial w))))
    with (Some (Rltb (fst (random_float (w_rng w))) (p (w_self w)))).
  rewrite Htrial. cbn [lookup_key ret].
  unfold bind at 1, lift_result at 1.
  change (duration_in_samples (w_self (after_trial w)) samples sample_rate)
    with (duration_in_samples (w_self w) samples sample_rate).
  rewrite Hd. unfold bind at 1. cbn [fst snd].
  rewrite (on_rng_randint_run lo hi (after_trial w) Hle).
  unfold bind at 1, set_parameter at 1, modify at 1.
  unfold bind at 1, self at 1. unfold bind at 1.
  cbn [w_self w_rng w_heap with_params params set_fade_time_samples
       fade_time_samples lookup_key ret after_trial].
  unfold bind at 1.
  rewrite on_rng_randint_run by (cbn [w_rng]; lia).
  unfold bind at 1, set_parameter at 1, modify at 1.
  unfold bind at 1, self at 1.
  unfold bind at 1. rewrite on_rng_uniform_run.
  unfold bind at 1, set_parameter at 1, modify at 1.
  unfold bind at 1, self at 1.
  unfold bind at 1. rewrite on_rng_uniform_run.
  unfold set_parameter, modify, all_drawn_world.
  cbn [fst snd w_self w_rng w_heap with_params params p min_gain_db
       max_gain_db]. unfold with_params.
  cbn. rewrite Htrial. reflexivity.
Qed.

(** When the range of [t0] is empty, the second [randint] raises. *)
Lemma randomize_parameters_no_room (samples : Np.ndarray) (sample_rate : Z)
  (w : world G) (lo hi : Z) :
  Rltb (fst (random_float (w_rng w))) (p (w_self w)) = true ->
  duration_in_samples (w_self w) samples sample_rate
  = Ok (PyInt lo, PyInt hi) ->
  lo <= hi ->
  Np.shape_last samples
  + Z.max 3 (lo + fst (randbelow (hi + 1 - lo)
                         (snd (random_float (w_rng w))))) <= 3 ->
  exists msg,
    fst (randomize_parameters samples sample_rate w)
    = Raise (ValueError msg).
Proof.
  intros Htrial Hd Hle Hn. unfold randomize_parameters.
  unfold bind at 1. rewrite base_randomize_parameters_run.
  unfold bind at 1, self at 1. unfold bind at 1.
  change (should_apply (params (w_self (after_trial w))))
    with (Some (Rltb (fst (random_float (w_rng w))) (p (w_self w)))).
  rewrite Htrial. cbn [lookup_key ret].
  unfold bind at 1, lift_result at 1.
  change (duration_in_samples (w_self (after_trial w)) samples sample_rate)
    with (duration_in_samples (w_self w) samples sample_rate).
  rewrite Hd. unfold bind at 1. cbn [fst snd].
  rewrite (on_rng_randint_run lo hi (after_trial w) Hle).
  unfold bind at 1, set_parameter at 1, modify at 1.
  unfold bind at 1, self at 1. unfold bind at 1.
  cbn [w_self w_rng w_heap with_params params set_fade_time_samples
       fade_time_samples lookup_key ret after_trial].
  unfold bind at 1.
  match goal with
  | |- context [on_rng (randint (PyInt ?a) (PyInt ?b)) ?w1] =>
      destruct (on_rng_randint_empty a b w1 ltac:(lia)) as [msg ->]
  end.
  now exists msg.
Qed.

End RandomizeRun.

(** ** Rounding the duration bounds *)




(** The transform as [__init__] leaves it with the default arguments. *)
Definition default_transform : GainTransition :=
  {| p := 5 / 10; min_gain_db := -24; max_gain_db := 6;
     min_duration := PyFloat (2 / 10); max_duration := PyFloat 6;
     duration_unit := "seconds"; params := no_parameters |}.

Definition default_world : world tape :=
  {| w_self := default_transform; w_rng := zero_tape;
     w_heap := stereo_heap |}.

(** A transform of probability 0, with parameters left by an earlier
    call. *)
Definition never_world : world tape :=
  {| w_self :=
       {| p := 0; min_gain_db := (-24); max_gain_db := 6;
          min_duration := PyFloat (2 / 10); max_duration := PyFloat 6;
          duration_unit := "seconds"; params := drawn_parameters |};
     w_rng := zero_tape; w_heap := stereo_heap |}.

Section Draws.
Context {G : Type} `{RandomSource G}.


(** X12. When a call of [randomize_parameters] returns with
    [should_apply] true, all four parameters are set: [fade_time_samples]
    is at least 3, [t0] lies in
    [[-fade_time_samples + 2, total_samples - 2]], and, when
    [min_gain_db <= max_gain_db], both gains lie between the two bounds. *)
Theorem randomize_parameters_draws (samples : Np.ndarray) (sample_rate : Z)
  (w : world G) :
  let rp := randomize_parameters samples sample_rate w in
  fst rp = Ok tt ->
  should_apply (params (w_self (snd rp))) = Some true ->
  exists fts t a b,
    params (w_self (snd rp))
    = {| should_apply := Some true; fade_time_samples := Some fts;
         t0 := Some t; start_gain_db := Some a; end_gain_db := Some b |}
    /\ 3 <= fts
    /\ - fts + 2 <= t <= Np.shape_last samples - 2
    /\ ((min_gain_db (w_self w) <= max_gain_db (w_self w))%R ->
        (min_gain_db (w_self w) <= a <= max_gain_db (w_self w))%R
        /\ (min_gain_db (w_self w) <= b <= max_gain_db (w_self w))%R).
Proof.
  intros rp Hok Hgo. subst rp.
  destruct (randomize_parameters samples sample_rate w) as [r w'] eqn:E.
  simpl in Hok, Hgo. subst r.
  pose proof (randomize_parameters_randomized _ _ _ _ _ E) as Hr.
  rewrite (randomized_should_apply _ _ _ _ _ Hr) in Hgo.
  injection Hgo as Htrial.
  assert (exists lo hi,
             duration_in_samples (w_self w) samples sample_rate
             = Ok (PyInt lo, PyInt hi) /\ lo <= hi) as (lo & hi & Hd & Hle).
  { inversion Hr; subst; try congruence. exists lo, hi. split; [assumption|lia]. }
  set (fts := Z.max 3 (lo + fst (randbelow (hi + 1 - lo)
                                   (snd (random_float (w_rng w)))))).
  destruct (Z_lt_le_dec 3 (Np.shape_last samples + fts)) as [Hroom|Hnone].
  - rewrite (randomize_parameters_run samples sample_rate w lo hi)
      in E by assumption.
    injection E as <-. clear Hr. cbn [snd].
    unfold all_drawn_world. cbn [w_self with_params params]. fold fts.
    pose proof (randbelow_range
                  (Np.shape_last samples - 2 + 1 - (- fts + 2))
                  (snd (randbelow (hi + 1 - lo)
                          (snd (random_float (w_rng w)))))
                  ltac:(lia)) as Ht.
    do 4 eexists. split; [reflexivity|].
    split; [lia|]. split; [lia|]. intros Hgain.
    split.
    + match goal with
      | |- context [fst (random_float ?g)] =>
          pose proof (random_float_range g) as Hu
      end. nra.
    + match goal with
      | |- (_ <= _ + _ * fst (random_float ?g) <= _)%R =>
          pose proof (random_float_range g) as Hu
      end. nra.
  - destruct (randomize_parameters_no_room samples sample_rate w lo hi)
      as [msg Hraise]; try assumption.
    rewrite E in Hraise. discriminate.
Qed.

(** X13. When the trial says no, [randomize_parameters] returns and
    changes nothing but [should_apply]: the four other parameters keep the
    values of the call before, the store of arrays is untouched, and the
    random source has given the one number of the trial. *)
Theorem randomize_parameters_not_applied (samples : Np.ndarray)
  (sample_rate : Z) (w : world G) :
  let rp := randomize_parameters samples sample_rate w in
  should_apply (params (w_self (snd rp))) = Some false ->
  fst rp = Ok tt
  /\ fade_time_samples (params (w_self (snd rp)))
     = fade_time_samples (params (w_self w))
  /\ t0 (params (w_self (snd rp))) = t0 (params (w_self w))
  /\ start_gain_db (params (w_self (snd rp)))
     = start_gain_db (params (w_self w))
  /\ end_gain_db (params (w_self (snd rp))) = end_gain_db (params (w_self w))
  /\ w_heap (snd rp) = w_heap w
  /\ w_rng (snd rp) = snd (random_float (w_rng w)).
Proof.
  intros rp Hgo. subst rp.
  destruct (randomize_parameters samples sample_rate w) as [r w'] eqn:E.
  simpl in *.
  pose proof (randomize_parameters_randomized _ _ _ _ _ E) as Hr.
  rewrite (randomized_should_apply _ _ _ _ _ Hr) in Hgo.
  injection Hgo as Htrial.
  inversion Hr; subst; try congruence.
  repeat split.
Qed.

(** X14. [randomize_parameters] reads nothing of the waveform but the
    length of its last axis: on two waveforms of the same length, whatever
    their samples and channels, it draws the same parameters from the same
    source; and it leaves the store of arrays as it was. *)
Theorem randomize_parameters_reads_only_length (arr1 arr2 : Np.ndarray)
  (sample_rate : Z) (w : world G) :
  Np.shape_last arr1 = Np.shape_last arr2 ->
  randomize_parameters arr1 sample_rate w
  = randomize_parameters arr2 sample_rate w
  /\ w_heap (snd (randomize_parameters arr1 sample_rate w)) = w_heap w.
Proof.
  intros Hlen. split.
  - unfold randomize_parameters, duration_in_samples. now rewrite Hlen.
  - pose proof (heap_blind_randomize_parameters arr1 sample_rate w
                  (w_heap w)) as Hb.
    replace (set_heap (w_heap w) w) with w in Hb by now destruct w.
    rewrite Hb. reflexivity.
Qed.

(** X15. The parameters that [randomize_parameters] draws for a waveform
    are parameters that [apply] accepts for it: after a call that returns
    with [should_apply] true, [apply] on the same waveform returns a new
    array of the same shape. *)
Theorem randomized_parameters_apply (arr : Np.ndarray) (sample_rate : Z)
  (w : world G) (h : Np.heap) (samples : Np.loc) :
  let rp := randomize_parameters arr sample_rate w in
  fst rp = Ok tt ->
  should_apply (params (w_self (snd rp))) = Some true ->
  h !! samples = Some arr -> Np.wf arr ->
  exists out arr',
    apply (w_self (snd rp)) samples sample_rate h
    = (Ok out, <[out := arr']> h)
    /\ Np.shape arr' = Np.shape arr.
Proof.
  intros rp Hok Hgo Hs Hwf. subst rp.
  destruct (randomize_parameters arr sample_rate w) as [r w'] eqn:E.
  simpl in *. subst r.
  pose proof (randomize_parameters_randomized _ _ _ _ _ E) as Hr.
  rewrite (randomized_should_apply _ _ _ _ _ Hr) in Hgo.
  injection Hgo as Htrial.
  inversion Hr as [Hno | | | lo hi r t a b g' _ Hd Hrange Ht]; subst;
    try congruence.
  destruct (apply_envelope
              {| w_self :=
                   with_params (w_self w)
                     (set_end_gain_db b
                        (set_start_gain_db a
                           (set_t0 t
                              (set_fade_time_samples (Z.max 3 r)
                                 (params (w_self (after_trial w)))))));
                 w_rng := g'; w_heap := w_heap w |}.(w_self)
              samples sample_rate h arr (Z.max 3 r) t a b)
    as (arr' & Happly & Hshape & _); try assumption; try reflexivity;
    try lia.
  now exists (fresh (dom h)), arr'.
Qed.

End Draws.


Lemma in_samples_returns :
  fst (randomize_parameters stereo 44100 in_samples_world) = Ok tt.
Proof.
  apply (randomize_parameters_returns stereo 44100 in_samples_world 1 10).
  - reflexivity.
  - lia.
  - simpl. lia.
Qed.

Lemma in_samples_applies :
  should_apply
    (params (w_self (snd (randomize_parameters stereo 44100
                            in_samples_world)))) = Some true.
Proof.
  rewrite (randomized_should_apply stereo 44100 in_samples_world _
             (fst (randomize_parameters stereo 44100 in_samples_world))).
  - f_equal. exact in_samples_trial.
  - apply randomize_parameters_randomized. apply surjective_pairing.
Qed.

Lemma randomize_parameters_draws_witness :
  exists fts t a b,
    params (w_self (snd (randomize_parameters stereo 44100
                           in_samples_world)))
    = {| should_apply := Some true; fade_time_samples := Some fts;
         t0 := Some t; start_gain_db := Some a; end_gain_db := Some b |}
    /\ 3 <= fts
    /\ - fts + 2 <= t <= Np.shape_last stereo - 2
    /\ ((min_gain_db in_samples <= max_gain_db in_samples)%R ->
        (min_gain_db in_samples <= a <= max_gain_db in_samples)%R
        /\ (min_gain_db in_samples <= b <= max_gain_db in_samples)%R).
Proof.
  apply (randomize_parameters_draws stereo 44100 in_samples_world).
  - exact in_samples_returns.
  - exact in_samples_applies.
Defined.

Lemma never_world_trial :
  Rltb (fst (random_float (w_rng never_world))) (p (w_self never_world))
  = false.
Proof.
  change (Rltb (fst (random_float {| raw := fun _ => 0%Z; pos := 0 |})) 0
          = false).
  rewrite zero_tape_random_float. unfold Rltb.
  destruct (Rlt_dec 0 0); [lra | reflexivity].
Qed.

Lemma randomize_parameters_not_applied_witness :
  fst (randomize_parameters stereo 44100 never_world) = Ok tt
  /\ fade_time_samples
       (params (w_self (snd (randomize_parameters stereo 44100 never_world))))
     = fade_time_samples (params (w_self never_world))
  /\ t0 (params (w_self (snd (randomize_parameters stereo 44100 never_world))))
     = t0 (params (w_self never_world))
  /\ start_gain_db
       (params (w_self (snd (randomize_parameters stereo 44100 never_world))))
     = start_gain_db (params (w_self never_world))
  /\ end_gain_db
       (params (w_self (snd (randomize_parameters stereo 44100 never_world))))
     = end_gain_db (params (w_self never_world))
  /\ w_heap (snd (randomize_parameters stereo 44100 never_world))
     = w_heap never_world
  /\ w_rng (snd (randomize_parameters stereo 44100 never_world))
     = snd (random_float (w_rng never_world)).
Proof.
  apply (randomize_parameters_not_applied stereo 44100 never_world).
  rewrite (randomized_should_apply stereo 44100 never_world _
             (fst (randomize_parameters stereo 44100 never_world))).
  - f_equal. exact never_world_trial.
  - apply randomize_parameters_randomized. apply surjective_pairing.
Defined.

Lemma randomize_parameters_reads_only_length_witness :
  randomize_parameters mono 44100 default_world
  = randomize_parameters stereo 44100 default_world
  /\ w_heap (snd (randomize_parameters mono 44100 default_world))
     = w_heap default_world.
Proof.
  apply (randomize_parameters_reads_only_length mono stereo 44100
           default_world).
  reflexivity.
Defined.

Lemma randomized_parameters_apply_witness :
  exists out arr',
    apply (w_self (snd (randomize_parameters stereo 44100 in_samples_world)))
      1%positive 44100 stereo_heap
    = (Ok out, <[out := arr']> stereo_heap)
    /\ Np.shape arr' = Np.shape stereo.
Proof.
  apply (randomized_parameters_apply stereo 44100 in_samples_world
           stereo_heap 1%positive).
  - exact in_samples_returns.
  - exact in_samples_applies.
  - reflexivity.
  - repeat constructor.
Defined.

(** ** [apply] on a window away from the waveform *)

(** One held gain on the whole waveform. *)
Definition scaled (g : R) (arr : Np.ndarray) : Np.ndarray :=
  Np.map_last_axis
    (Np.imul_row 0 (Np.shape_last arr)
       (replicate (Z.to_nat (Np.shape_last arr - 0)) g)) arr.

Lemma scaled_lookup (g : R) (arr : Np.ndarray) (c : nat) (row : list R)
  (i : nat) (x : R) :
  Np.wf arr -> Np.channels arr !! c = Some row -> row !! i = Some x ->
  exists row',
    Np.channels (scaled g arr) !! c = Some row'
    /\ row' !! i = Some (x * g)%R.
Proof.
  intros Hwf Hc Hx. pose proof (shape_last_nonneg arr) as Htotal.
  pose proof (channels_len arr Hwf) as Hall.
  assert (Hrow : Py.len row = Np.shape_last arr).
  { rewrite Forall_forall in Hall. apply Hall.
    eapply list_elem_of_lookup_2, Hc. }
  pose proof (lookup_lt_Some _ _ _ Hx) as Hi.
  eexists. split.
  - unfold scaled. rewrite map_last_axis_channels.
    + rewrite list_lookup_fmap, Hc. reflexivity.
    + eapply Forall_impl; [exact Hall|]. intros r Hr. simpl in Hr.
      apply imul_row_length; rewrite ?length_replicate; lia.
  - destruct (imul_row_inside 0 (Np.shape_last arr)
                (replicate (Z.to_nat (Np.shape_last arr - 0)) g) row
                ltac:(lia) ltac:(lia) ltac:(now rewrite length_replicate)
                i x ltac:(unfold Py.len in *; lia) Hx) as (m & Hm & Hr).
    apply lookup_replicate in Hm as [-> _]. exact Hr.
Qed.

(** The first update when its slice is empty and the mask has at most one
    entry: nothing changes. *)
Lemma imul_slice_nothing (arr : Np.ndarray) (start stop : option Z)
  (v : list R) :
  snd (Py.slice_bounds (Np.shape_last arr) start stop)
  = fst (Py.slice_bounds (Np.shape_last arr) start stop) ->
  (length v <= 1)%nat ->
  Np.imul_slice arr start stop v = Ok arr.
Proof.
  intros Hb Hv. unfold Np.imul_slice.
  destruct (Py.slice_bounds (Np.shape_last arr) start stop) as [a b].
  simpl in Hb. subst b. rewrite Z.sub_diag. unfold Np.broadcast_to.
  destruct v as [|x [|y v]]; simpl in *; try lia;
    now rewrite map_last_axis_id by (intros; apply imul_row_empty).
Qed.

Section AwayWindow.
Variables (slf : GainTransition) (samples : Np.loc) (sample_rate : Z).
Variables (h : Np.heap) (arr : Np.ndarray).
Variables (fts t : Z) (sg eg : R).
Hypothesis Hsamples : h !! samples = Some arr.
Hypothesis Hfts : fade_time_samples (params slf) = Some fts.
Hypothesis Ht0 : t0 (params slf) = Some t.
Hypothesis Hsg : start_gain_db (params slf) = Some sg.
Hypothesis Heg : end_gain_db (params slf) = Some eg.
Hypothesis Hfts0 : 0 <= fts.

Lemma apply_array_far_after :
  Np.shape_last arr < t -> Np.shape_last arr + fts - 1 <= t ->
  apply_array slf arr
  = Ok (scaled (convert_decibels_to_amplitude_ratio sg) arr).
Proof.
  intros Hafter Hfar. pose proof (shape_last_nonneg arr) as Htotal.
  destruct (get_fade_mask_ok sg eg fts Hfts0) as (mask & Hmask & Hlen).
  unfold apply_array. rewrite Hsg, Heg, Hfts, Hmask, Ht0. unfold crop.
  assert ((t <? 0) = false) as -> by lia.
  assert ((t + fts >? Np.shape_last arr) = true) as -> by lia.
  set (cropped := Py.slice mask None _).
  assert (Hc : (length cropped <= 1)%nat).
  { pose proof (Py.len_slice mask None
                  (Some (Py.len mask - (t + fts - Np.shape_last arr)))) as Hl.
    fold cropped in Hl. unfold Py.slice_bounds, Py.adjust_index in Hl.
    simpl in Hl.
    destruct (Py.len mask - (t + fts - Np.shape_last arr) <? 0) eqn:E;
      unfold Py.len in *; lia. }
  unfold updates_array.
  rewrite imul_slice_nothing; [| |exact Hc].
  - assert ((t >? 0) = true) as -> by lia.
    assert ((Np.shape_last arr <? Np.shape_last arr) = false) as -> by lia.
    unfold scaled, Np.imul_slice_scalar, Py.slice_bounds, Py.adjust_index.
    assert ((t <? 0) = false) as -> by lia.
    now rewrite Z.min_r by lia.
  - unfold Py.slice_bounds, Py.adjust_index. simpl.
    assert ((t <? 0) = false) as -> by lia.
    assert ((Np.shape_last arr <? 0) = false) as -> by lia. lia.
Qed.

Lemma apply_array_far_before :
  t + fts < 0 -> t + fts <= - Np.shape_last arr ->
  apply_array slf arr
  = Ok (scaled (convert_decibels_to_amplitude_ratio eg) arr).
Proof.
  intros Hbefore Hfar. pose proof (shape_last_nonneg arr) as Htotal.
  destruct (get_fade_mask_ok sg eg fts Hfts0) as (mask & Hmask & Hlen).
  unfold apply_array. rewrite Hsg, Heg, Hfts, Hmask, Ht0. unfold crop.
  assert ((t <? 0) = true) as -> by lia.
  assert ((t + fts >? Np.shape_last arr) = false) as -> by lia.
  assert (Py.slice mask (Some (Z.abs t)) None = []) as ->.
  { unfold Py.slice, Py.slice_bounds, Py.adjust_index.
    assert ((Z.abs t <? 0) = false) as -> by lia.
    rewrite Z.min_r by lia. now rewrite Z.sub_diag. }
  unfold updates_array.
  rewrite imul_slice_nothing; [| |simpl; lia].
  - assert ((0 >? 0) = false) as -> by reflexivity.
    assert ((t + fts <? Np.shape_last arr) = true) as -> by lia.
    unfold scaled, Np.imul_slice_scalar, Py.slice_bounds, Py.adjust_index.
    assert ((t + fts <? 0) = true) as -> by lia.
    now rewrite Z.max_r by lia.
  - unfold Py.slice_bounds, Py.adjust_index. simpl.
    assert ((t + fts <? 0) = true) as -> by lia. lia.
Qed.

Lemma apply_array_near_after :
  Np.shape_last arr < t <= Np.shape_last arr + fts - 2 ->
  exists msg, apply_array slf arr = Raise (ValueError msg).
Proof.
  intros Hnear. pose proof (shape_last_nonneg arr) as Htotal.
  destruct (get_fade_mask_ok sg eg fts Hfts0) as (mask & Hmask & Hlen).
  unfold apply_array. rewrite Hsg, Heg, Hfts, Hmask, Ht0. unfold crop.
  assert ((t <? 0) = false) as -> by lia.
  assert ((t + fts >? Np.shape_last arr) = true) as -> by lia.
  set (cropped := Py.slice mask None _).
  assert (Hc : (2 <= length cropped)%nat).
  { pose proof (Py.len_slice mask None
                  (Some (Py.len mask - (t + fts - Np.shape_last arr)))) as Hl.
    fold cropped in Hl. unfold Py.slice_bounds, Py.adjust_index in Hl.
    simpl in Hl.
    destruct (Py.len mask - (t + fts - Np.shape_last arr) <? 0) eqn:E;
      unfold Py.len in *; lia. }
  unfold updates_array, Np.imul_slice, Py.slice_bounds, Py.adjust_index.
  assert ((t <? 0) = false) as -> by lia.
  assert ((Np.shape_last arr <? 0) = false) as -> by lia.
  rewrite (Z.min_r t) by lia. rewrite Z.min_id, Z.sub_diag.
  unfold Np.broadcast_to.
  destruct cropped as [|x [|y l]]; simpl in Hc; try lia.
  simpl. eexists. reflexivity.
Qed.

End AwayWindow.

(** X16. A window that starts after the waveform ends, while at least two
    of its points would still lie over the sample just past the end
    ([total_samples < t0 <= total_samples + fade_time_samples - 2]), makes
    [apply] raise a [ValueError]: the slice of the waveform is empty while
    the mask cropped with a negative bound keeps two entries or more. The
    arrays there were are left as they were. *)
Theorem apply_window_after_waveform_raises
  (slf : GainTransition) (samples : Np.loc) (sample_rate : Z)
  (h : Np.heap) (arr : Np.ndarray) (fts t : Z) (sg eg : R) :
  h !! samples = Some arr ->
  fade_time_samples (params slf) = Some fts ->
  t0 (params slf) = Some t ->
  start_gain_db (params slf) = Some sg ->
  end_gain_db (params slf) = Some eg ->
  Np.shape_last arr < t <= Np.shape_last arr + fts - 2 ->
  (exists msg,
     fst (apply slf samples sample_rate h) = Raise (ValueError msg))
  /\ forall l a, h !! l = Some a ->
                 snd (apply slf samples sample_rate h) !! l = Some a.
Proof.
  intros Hs Hfts Ht Hsg Heg Hrange. split.
  - destruct (apply_array_near_after slf arr fts t sg eg)
      as [msg Hraise]; try assumption; [lia|].
    exists msg. now apply apply_raises with (arr := arr).
  - intros l a Hl.
    destruct (apply slf samples sample_rate h) as [r h'] eqn:E. simpl.
    apply apply_frame in E as [[-> _]|[Hw _]]; [exact Hl|].
    now apply (written_at_fresh h).
Qed.

Lemma apply_window_after_waveform_raises_witness :
  (exists msg,
     fst (apply (transform_at 5) 1%positive 44100 stereo_heap)
     = Raise (ValueError msg))
  /\ forall l a, stereo_heap !! l = Some a ->
                 snd (apply (transform_at 5) 1%positive 44100 stereo_heap)
                 !! l = Some a.
Proof.
  apply (apply_window_after_waveform_raises (transform_at 5) 1%positive
           44100 stereo_heap stereo 3 5 0 (-6)).
  - reflexivity.
  - reflexivity.
  - reflexivity.
  - reflexivity.
  - reflexivity.
  - simpl. lia.
Defined.

(** X17. A window far from the waveform leaves one held gain on all of
    it: when the window starts after the end, with at most one of its
    points over the sample just past the end
    ([t0 > total_samples] and [t0 >= total_samples + fade_time_samples -
    1]), every sample is multiplied by the amplitude ratio of
    [start_gain_db]; when it ends a whole waveform length or more before
    the start ([t0 + fade_time_samples <= -total_samples], and negative),
    by that of [end_gain_db]. *)
Theorem apply_window_far_from_waveform
  (slf : GainTransition) (samples : Np.loc) (sample_rate : Z)
  (h : Np.heap) (arr : Np.ndarray) (fts t : Z) (sg eg : R) :
  h !! samples = Some arr -> Np.wf arr ->
  fade_time_samples (params slf) = Some fts ->
  t0 (params slf) = Some t ->
  start_gain_db (params slf) = Some sg ->
  end_gain_db (params slf) = Some eg ->
  0 <= fts ->
  (Np.shape_last arr < t /\ Np.shape_last arr + fts - 1 <= t)
  \/ (t + fts < 0 /\ t + fts <= - Np.shape_last arr) ->
  exists out arr',
    apply slf samples sample_rate h = (Ok out, <[out := arr']> h)
    /\ forall c row i x,
         Np.channels arr !! c = Some row -> row !! i = Some x ->
         exists row',
           Np.channels arr' !! c = Some row'
           /\ row' !! i
              = Some (x * convert_decibels_to_amplitude_ratio
                            (if t <? 0 then eg else sg))%R.
Proof.
  intros Hs Hwf Hfts Ht Hsg Heg Hfts0 [[Hafter Hfar]|[Hbefore Hfar]].
  - pose proof (shape_last_nonneg arr) as Htotal.
    assert ((t <? 0) = false) as -> by lia.
    exists (fresh (dom h)),
      (scaled (convert_decibels_to_amplitude_ratio sg) arr).
    split.
    + apply apply_returns_array with (arr := arr); [exact Hs|].
      now apply apply_array_far_after with (fts := fts) (t := t) (eg := eg).
    + intros c row i x. now apply scaled_lookup.
  - assert ((t <? 0) = true) as -> by lia.
    exists (fresh (dom h)),
      (scaled (convert_decibels_to_amplitude_ratio eg) arr).
    split.
    + apply apply_returns_array with (arr := arr); [exact Hs|].
      now apply apply_array_far_before with (fts := fts) (t := t) (sg := sg).
    + intros c row i x. now apply scaled_lookup.
Qed.

Lemma apply_window_far_from_waveform_witness :
  exists out arr',
    apply (transform_at 6) 1%positive 44100 stereo_heap
    = (Ok out, <[out := arr']> stereo_heap)
    /\ forall c row i x,
         Np.channels stereo !! c = Some row -> row !! i = Some x ->
         exists row',
           Np.channels arr' !! c = Some row'
           /\ row' !! i
              = Some (x * convert_decibels_to_amplitude_ratio
                            (if 6 <? 0 then (-6) else 0))%R.
Proof.
  apply (apply_window_far_from_waveform (transform_at 6) 1%positive 44100
           stereo_heap stereo 3 6 0 (-6)).
  - reflexivity.
  - repeat constructor.
  - reflexivity.
  - reflexivity.
  - reflexivity.
  - reflexivity.
  - lia.
  - left. simpl. lia.
Defined.

(** ** [randomize_parameters] on an empty waveform *)

(** X18. On a waveform without samples, when the trial says yes and the
    duration bounds in samples are integers [lo <= hi <= 3],
    [randomize_parameters] raises a [ValueError]: [fade_time_samples]
    becomes 3 and the range [[-1, -2]] of [t0] is empty. *)
Theorem randomize_parameters_empty_waveform {G : Type} `{RandomSource G}
  (samples : Np.ndarray) (sample_rate : Z) (w : world G) (lo hi : Z) :
  Rltb (fst (random_float (w_rng w))) (p (w_self w)) = true ->
  duration_in_samples (w_self w) samples sample_rate
  = Ok (PyInt lo, PyInt hi) ->
  lo <= hi <= 3 -> Np.shape_last samples = 0 ->
  exists msg,
    fst (randomize_parameters samples sample_rate w)
    = Raise (ValueError msg).
Proof.
  intros Htrial Hd Hle Hn.
  apply (randomize_parameters_no_room samples sample_rate w lo hi);
    try assumption; [lia|].
  pose proof (randbelow_range (hi + 1 - lo) (snd (random_float (w_rng w)))
                ltac:(lia)). lia.
Qed.

Definition silence : Np.ndarray := Np.Arr1 Np.float32 [].

Definition short_world : world tape :=
  {| w_self :=
       {| p := 1; min_gain_db := (-24); max_gain_db := 6;
          min_duration := PyInt 1; max_duration := PyInt 3;
          duration_unit := "samples"; params := no_parameters |};
     w_rng := zero_tape; w_heap := ∅ |}.

Lemma randomize_parameters_empty_waveform_witness :
  exists msg,
    fst (randomize_parameters silence 44100 short_world)
    = Raise (ValueError msg).
Proof.
  apply (randomize_parameters_empty_waveform silence 44100 short_world 1 3).
  - apply Rltb_true.
    change (fst (random_float {| raw := fun _ => 0%Z; pos := 0 |}) < 1)%R.
    rewrite zero_tape_random_float. lra.
  - reflexivity.
  - lia.
  - reflexivity.
Defined.
